(** * Media reconciliation and temp-file cleanup (scheduler.service.ts)

    A shallow embedding of [MediaCleanSchedulerService] and of the
    collaborators it calls: the object-storage client (list / delete),
    the two document collections (find / updateMany), and the local
    staging directory (readdir / stat / unlink).

    Asynchronous code is sequentialised: every awaited call is one step
    of a state-and-exception monad.  Each call to a collaborator is
    appended to a trace, and a fault plan held in the state decides
    whether that call throws. *)

From Stdlib Require Import String Ascii ZArith QArith Lia Bool Arith PeanoNat.
From Stdlib Require Import List RelationClasses.
Import ListNotations.
Open Scope string_scope.
Open Scope nat_scope.
Open Scope list_scope.

(* ------------------------------------------------------------------ *)
(** ** Strings and key sets *)

(** [s.startsWith(p)] *)
Definition startsWith (s p : string) : bool := String.prefix p s.

(** ASCII case folding, for regular expressions carrying the [i] option. *)
Definition lowerAscii (c : ascii) : ascii :=
  let n := nat_of_ascii c in
  if (65 <=? n) && (n <=? 90) then ascii_of_nat (n + 32)
  else c.

Fixpoint toLower (s : string) : string :=
  match s with
  | EmptyString => EmptyString
  | String c r => String (lowerAscii c) (toLower r)
  end.

(** [{ $regex: "^p", $options: "i" }] for a prefix [p] free of
    metacharacters. *)
Definition regexPrefixCI (p s : string) : bool :=
  String.prefix (toLower p) (toLower s).

(** [s.includes(sub)] *)
Fixpoint includes (s sub : string) : bool :=
  String.prefix sub s ||
  match s with
  | EmptyString => false
  | String _ r => includes r sub
  end.

Definition PRODUCT_IMAGE_PREFIX : string := "img/product/".
Definition PRODUCT_THUMBNAIL_PREFIX : string := "img/product/thumbnail/".
Definition CATEGORY_THUMBNAIL_PREFIX : string := "img/category/thumbnail/".

(** A JavaScript [Set<string>]: no duplicates, iteration in insertion
    order. *)
Module JsSet.
Definition t := list string.
Definition empty : t := [].
Definition has (s : t) (k : string) : bool := existsb (String.eqb k) s.
Definition add (s : t) (k : string) : t := if has s k then s else s ++ [k].
Definition addAll (s : t) (ks : list string) : t := fold_left add ks s.
Definition size (s : t) : nat := length s.
(** [Array.from(set)] *)
Definition toArray (s : t) : list string := s.
End JsSet.

(** [arr.includes(k)], also the [$in] operator on a string field. *)
Definition inKeys (ks : list string) (k : string) : bool :=
  existsb (String.eqb k) ks.

(** [arr.slice(i, j)] for [0 <= i <= j]. *)
Definition slice {A} (i j : nat) (l : list A) : list A :=
  firstn (j - i) (skipn i l).

(* ------------------------------------------------------------------ *)
(** ** Errors *)

Inductive ErrorKind :=
| KDatabaseError | KBadRequestError | KInternalServerError
| KNotFoundError | KAppError                 (* classes of error.middleware *)
| KValidationError | KCastError | KDocumentNotFoundError   (* mongoose *)
| KNamedNotFoundError      (* any error whose [name] is "NotFoundError" *)
| KMongoServerError | KMongoNetworkError | KMongoTimeoutError
| KOther.

Record Error := mkError {
  kind : ErrorKind;
  message : string;
  code : Z;             (* driver error code *)
  statusCode : Z;       (* 0 when the error carries none *)
  details : list string; (* validation messages; path and value of a cast *)
  keyValue : option (list (string * string))
                        (* [error.keyValue] of a driver error, when it
                           carries one: the fields of the violated index
                           with their values *)
}.

Definition AppError (m : string) (status : Z) :=
  mkError KAppError m 0 status [] None.
Definition BadRequestError (m : string) :=
  mkError KBadRequestError m 0 400 [] None.
Definition NotFoundError (m : string) :=
  mkError KNotFoundError m 0 404 [] None.
Definition DatabaseError (m : string) :=
  mkError KDatabaseError m 0 503 [] None.
Definition InternalServerError (m : string) :=
  mkError KInternalServerError m 0 500 [] None.

(** A [TypeError] of the JavaScript runtime: no class of the
    application, no status code. *)
Definition TypeError (m : string) := mkError KOther m 0 0 [] None.

(* ------------------------------------------------------------------ *)
(** ** Documents, staged files, collaborator calls *)

Record Product := mkProduct {
  thumbnail : option string;
  images : list string
}.

Record Category := mkCategory {
  cat_thumbnail : option string
}.

Inductive EntryKind := RegularFile | Directory | OtherEntry.

(** What [fs.statSync] reports for an entry of the staging directory;
    [mtimeMs] is a fractional number of milliseconds. *)
Record Entry := mkEntry {
  name : string;
  ekind : EntryKind;
  mtimeMs : Q;
  size : Z
}.

Inductive Call :=
| ProductFind
| CategoryFind
| ListObjectsV2 (prefix : string) (token : option nat)
| DeleteObjects (keys : list string)
| ProductPullImages (keys : list string)
| ProductNullThumbnail (keys : list string)
| CategoryNullThumbnail (keys : list string)
| FsExists
| FsMkdir
| FsReaddir
| FsStat (file : string)
| FsUnlink (file : string).

(** The whole state the service runs against.  [faults n c] tells
    whether call [c], issued as the [n]-th call of the trace, throws. *)
Record State := mkState {
  bucket : list string;
  products : list Product;
  categories : list Category;
  readyState : nat;
  tempDir : option (list Entry);
  now : Z;
  trace : list Call;
  faults : nat -> Call -> option Error;
  isCleanupRunning : bool;
  isTempCleanupRunning : bool
}.

Definition set_bucket (b : list string) (s : State) : State :=
  mkState b (products s) (categories s) (readyState s) (tempDir s) (now s)
          (trace s) (faults s) (isCleanupRunning s) (isTempCleanupRunning s).
Definition set_products (p : list Product) (s : State) : State :=
  mkState (bucket s) p (categories s) (readyState s) (tempDir s) (now s)
          (trace s) (faults s) (isCleanupRunning s) (isTempCleanupRunning s).
Definition set_categories (c : list Category) (s : State) : State :=
  mkState (bucket s) (products s) c (readyState s) (tempDir s) (now s)
          (trace s) (faults s) (isCleanupRunning s) (isTempCleanupRunning s).
Definition set_tempDir (d : option (list Entry)) (s : State) : State :=
  mkState (bucket s) (products s) (categories s) (readyState s) d (now s)
          (trace s) (faults s) (isCleanupRunning s) (isTempCleanupRunning s).
Definition set_trace (t : list Call) (s : State) : State :=
  mkState (bucket s) (products s) (categories s) (readyState s) (tempDir s)
          (now s) t (faults s) (isCleanupRunning s) (isTempCleanupRunning s).
Definition set_isCleanupRunning (b : bool) (s : State) : State :=
  mkState (bucket s) (products s) (categories s) (readyState s) (tempDir s)
          (now s) (trace s) (faults s) b (isTempCleanupRunning s).
Definition set_isTempCleanupRunning (b : bool) (s : State) : State :=
  mkState (bucket s) (products s) (categories s) (readyState s) (tempDir s)
          (now s) (trace s) (faults s) (isCleanupRunning s) b.

(* ------------------------------------------------------------------ *)
(** ** The monad: state, exceptions, and fuel for loops *)

Inductive Outcome (A : Type) :=
| Returned (a : A)
| Thrown (e : Error)
| OutOfFuel.
Arguments Returned {A} a.
Arguments Thrown {A} e.
Arguments OutOfFuel {A}.

Definition M (A : Type) := State -> Outcome A * State.

Definition ret {A} (a : A) : M A := fun s => (Returned a, s).

Definition bind {A B} (m : M A) (k : A -> M B) : M B :=
  fun s =>
    match m s with
    | (Returned a, s') => k a s'
    | (Thrown e, s') => (Thrown e, s')
    | (OutOfFuel, s') => (OutOfFuel, s')
    end.

Definition throw {A} (e : Error) : M A := fun s => (Thrown e, s).

Definition outOfFuel {A} : M A := fun s => (OutOfFuel, s).

(** [try { m } catch (error) { h error }] *)
Definition tryCatch {A} (m : M A) (h : Error -> M A) : M A :=
  fun s =>
    match m s with
    | (Thrown e, s') => h e s'
    | r => r
    end.

(** [try { m } finally { f }], for a [finally] block that completes
    normally: the completion of [m] is kept. *)
Definition tryFinally {A} (m : M A) (f : State -> State) : M A :=
  fun s =>
    match m s with
    | (OutOfFuel, s') => (OutOfFuel, s')
    | (r, s') => (r, f s')
    end.

Definition get {A} (proj : State -> A) : M A := fun s => (Returned (proj s), s).
Definition modify (f : State -> State) : M unit := fun s => (Returned tt, f s).

Declare Scope m_scope.
Delimit Scope m_scope with m.
Notation "x <- m ;; k" := (bind m (fun x => k))
  (at level 61, m at next level, right associativity) : m_scope.
Notation "m ;; k" := (bind m (fun _ => k))
  (at level 61, right associativity) : m_scope.
Open Scope m_scope.

(** A call that cannot throw is recorded only. *)
Definition record (c : Call) : M unit :=
  modify (fun s => set_trace (trace s ++ [c]) s).

(** Issue a call to a collaborator: it is recorded, and it throws when
    the fault plan says so. *)
Definition call (c : Call) : M unit :=
  fun s =>
    let s' := set_trace (trace s ++ [c]) s in
    match faults s (length (trace s)) c with
    | Some e => (Thrown e, s')
    | None => (Returned tt, s')
    end.

(* ------------------------------------------------------------------ *)
(** ** DbService.executeDbOperation *)

Definition ErrorKind_eqb (a b : ErrorKind) : bool :=
  match a, b with
  | KDatabaseError, KDatabaseError | KBadRequestError, KBadRequestError
  | KInternalServerError, KInternalServerError
  | KNotFoundError, KNotFoundError | KAppError, KAppError
  | KValidationError, KValidationError | KCastError, KCastError
  | KDocumentNotFoundError, KDocumentNotFoundError
  | KNamedNotFoundError, KNamedNotFoundError
  | KMongoServerError, KMongoServerError
  | KMongoNetworkError, KMongoNetworkError
  | KMongoTimeoutError, KMongoTimeoutError | KOther, KOther => true
  | _, _ => false
  end.

Definition isEmpty (s : string) : bool :=
  match s with EmptyString => true | _ => false end.

(** The [catch] block of [executeDbOperation]: which error leaves it in
    place of the one caught.  A field the caught error does not carry
    reads [undefined]; in the duplicate-key branch
    [Object.keys(error.keyValue)] throws a [TypeError] of its own when
    the error carries no [keyValue]. *)
Definition classifyDbError (error : Error) : Error :=
  let isK k := ErrorKind_eqb (kind error) k in
  let msg := message error in
  if isK KDatabaseError || isK KBadRequestError || isK KInternalServerError
  then error
  else if isK KValidationError
  then BadRequestError
         ("Validation error: " ++ String.concat "; " (details error))%string
  else if isK KCastError
  then BadRequestError
         ("Invalid " ++ nth 0 (details error) "undefined" ++ ": "
            ++ nth 1 (details error) "undefined")%string
  else if isK KMongoServerError && (code error =? 11000)%Z
  then match keyValue error with
       | None => TypeError "Cannot convert undefined or null to object"
       | Some [] => BadRequestError "undefined 'undefined' already exists"
       | Some ((field, value) :: _) =>
           BadRequestError (field ++ " '" ++ value ++ "' already exists")%string
       end
  else if isK KDocumentNotFoundError
  then NotFoundError ("Document not found: " ++ msg)%string
  else if isK KNamedNotFoundError
  then NotFoundError ("Not Found: " ++ msg)%string
  else if isK KMongoNetworkError
  then DatabaseError
         "Database network error: Could not connect to the database"
  else if isK KMongoTimeoutError
  then DatabaseError "Database timeout: Operation took too long to complete"
  else if negb (isEmpty msg)
          && (includes msg "connection" || includes msg "connect"
              || includes msg "timeout")
  then DatabaseError ("Database connection issue: " ++ msg)%string
  else if isK KMongoServerError
  then InternalServerError ("Database query error: " ++ msg)%string
  else AppError
         (if isEmpty msg then "An unexpected database error occurred" else msg)
         (if (statusCode error =? 0)%Z then 500%Z else statusCode error).

Definition executeDbOperation {A} (operation : M A) : M A :=
  tryCatch
    (rs <- get readyState;;
     if negb (rs =? 1)
     then throw (DatabaseError "Database connection is not established")
     else operation)
    (fun error => throw (classifyDbError error)).

(* ------------------------------------------------------------------ *)
(** ** The document collections *)

Definition isNil {A} (l : list A) : bool :=
  match l with [] => true | _ => false end.

(** The filter of [Product.find] in [getMediaKeysFromDatabase]. *)
Definition productMediaQuery (p : Product) : bool :=
  negb (isNil (images p))
  || match thumbnail p with
     | Some t => regexPrefixCI PRODUCT_IMAGE_PREFIX t
                 || regexPrefixCI PRODUCT_THUMBNAIL_PREFIX t
     | None => false
     end.

(** The filter of [Category.find] in [getMediaKeysFromDatabase]. *)
Definition categoryMediaQuery (c : Category) : bool :=
  match cat_thumbnail c with
  | Some t => regexPrefixCI CATEGORY_THUMBNAIL_PREFIX t
  | None => false
  end.

Definition Product_find (q : Product -> bool) : M (list Product) :=
  call ProductFind;;
  ps <- get products;;
  ret (filter q ps).

Definition Category_find (q : Category -> bool) : M (list Category) :=
  call CategoryFind;;
  cs <- get categories;;
  ret (filter q cs).

(** [{ field: { $in: keys } }] on a singular string field. *)
Definition fieldIn (keys : list string) (v : option string) : bool :=
  match v with
  | Some k => inKeys keys k
  | None => false
  end.

(** [Product.updateMany({ images: { $in: keys } },
                        { $pull: { images: { $in: keys } } })] *)
Definition pullImages (keys : list string) (p : Product) : Product :=
  if existsb (inKeys keys) (images p)
  then mkProduct (thumbnail p)
                 (filter (fun k => negb (inKeys keys k)) (images p))
  else p.

(** [Product.updateMany({ thumbnail: { $in: keys } },
                        { $set: { thumbnail: null } })] *)
Definition nullProductThumbnail (keys : list string) (p : Product) : Product :=
  if fieldIn keys (thumbnail p) then mkProduct None (images p) else p.

Definition nullCategoryThumbnail (keys : list string) (c : Category)
  : Category :=
  if fieldIn keys (cat_thumbnail c) then mkCategory None else c.

Definition Product_updateMany_pullImages (keys : list string) : M unit :=
  call (ProductPullImages keys);;
  modify (fun s => set_products (map (pullImages keys) (products s)) s).

Definition Product_updateMany_nullThumbnail (keys : list string) : M unit :=
  call (ProductNullThumbnail keys);;
  modify (fun s => set_products (map (nullProductThumbnail keys) (products s)) s).

Definition Category_updateMany_nullThumbnail (keys : list string) : M unit :=
  call (CategoryNullThumbnail keys);;
  modify (fun s =>
            set_categories (map (nullCategoryThumbnail keys) (categories s)) s).

(** [await Promise.all(ps)]: every update has been issued before any of
    them settles, so all of them run; the await throws when one of them
    threw. *)
Fixpoint promiseAll (ps : list (M unit)) : M unit :=
  match ps with
  | [] => ret tt
  | p :: rest =>
      fun s =>
        match p s with
        | (Returned _, s1) => promiseAll rest s1
        | (Thrown e, s1) =>
            match promiseAll rest s1 with
            | (OutOfFuel, s2) => (OutOfFuel, s2)
            | (_, s2) => (Thrown e, s2)
            end
        | (OutOfFuel, s1) => (OutOfFuel, s1)
        end
  end.

(* ------------------------------------------------------------------ *)
(** ** Object storage *)

(** [ListObjectsV2Command]: one page of the keys under [prefix], and the
    continuation token when the listing is truncated.  A token is the
    offset of the next page. *)
Definition r2_listObjectsV2 (prefix : string) (maxKeys : nat)
           (token : option nat) : M (list string * option nat) :=
  call (ListObjectsV2 prefix token);;
  b <- get bucket;;
  let matching := filter (fun k => startsWith k prefix) b in
  let start := match token with Some n => n | None => 0 end in
  let rest := skipn start matching in
  ret (firstn maxKeys rest,
       if maxKeys <? length rest then Some (start + maxKeys) else None).

(** [DeleteObjectsCommand] with [Quiet: true]. *)
Definition r2_deleteObjects (keys : list string) : M unit :=
  call (DeleteObjects keys);;
  modify (fun s =>
            set_bucket (filter (fun k => negb (inKeys keys k)) (bucket s)) s).

(* ------------------------------------------------------------------ *)
(** ** The staging directory *)

Definition findEntry (file : string) (es : list Entry) : option Entry :=
  find (fun e => String.eqb (name e) file) es.

Definition ENOENT : Error :=
  mkError KOther "ENOENT: no such file or directory" 0 0 [] None.
Definition EISDIR : Error :=
  mkError KOther "EISDIR: illegal operation on a directory" 0 0 [] None.

(** [fs.existsSync] answers [false] where another call would throw. *)
Definition fs_existsSync : M bool :=
  record FsExists;;
  d <- get tempDir;;
  ret (match d with Some _ => true | None => false end).

(** [fs.mkdirSync(dir, { recursive: true })] *)
Definition fs_mkdirSync : M unit :=
  call FsMkdir;;
  modify (fun s => match tempDir s with
                   | Some _ => s
                   | None => set_tempDir (Some []) s
                   end).

Definition fs_readdirSync : M (list string) :=
  call FsReaddir;;
  d <- get tempDir;;
  match d with
  | Some es => ret (map name es)
  | None => throw ENOENT
  end.

Definition fs_statSync (file : string) : M Entry :=
  call (FsStat file);;
  d <- get tempDir;;
  match d with
  | Some es => match findEntry file es with
               | Some e => ret e
               | None => throw ENOENT
               end
  | None => throw ENOENT
  end.

Definition fs_unlinkSync (file : string) : M unit :=
  call (FsUnlink file);;
  d <- get tempDir;;
  match d with
  | Some es =>
      match findEntry file es with
      | Some e =>
          match ekind e with
          | Directory => throw EISDIR
          | _ => modify (set_tempDir
                           (Some (filter (fun e => negb (String.eqb (name e) file)) es)))
          end
      | None => throw ENOENT
      end
  | None => throw ENOENT
  end.

(* ------------------------------------------------------------------ *)
(** ** MediaCleanSchedulerService: temp-file cleanup *)

Definition TEMP_FILE_MAX_AGE : Z := 60 * 60 * 1000.

(** [a > b] on numbers. *)
Definition gtNumber (a b : Q) : bool := negb (Qle_bool a b).

Record TempResult := mkTempResult {
  filesDeleted : nat;
  totalSize : Z
}.

Definition zeroTemp : TempResult := mkTempResult 0 0.

(** One iteration of the [for (const file of files)] loop.  The locals
    [filesDeleted] and [totalSize] are passed explicitly; the [catch]
    block falls through to the next iteration with the values the locals
    had when the exception was thrown, so the handler is written once for
    [statSync] (locals untouched) and once for [unlinkSync] ([totalSize]
    already increased). *)
Definition processTempItem (now_ : Z) (file : string) (acc : TempResult)
  : M TempResult :=
  tryCatch
    (stats <- fs_statSync file;;
     if gtNumber (inject_Z now_ - mtimeMs stats) (inject_Z TEMP_FILE_MAX_AGE)
     then
       let totalSize' := (totalSize acc + size stats)%Z in
       match ekind stats with
       | Directory => ret (mkTempResult (filesDeleted acc) totalSize')
       | RegularFile =>
           tryCatch
             (fs_unlinkSync file;;
              ret (mkTempResult (S (filesDeleted acc)) totalSize'))
             (fun _ => ret (mkTempResult (filesDeleted acc) totalSize'))
       | OtherEntry => ret (mkTempResult (filesDeleted acc) totalSize')
       end
     else ret acc)
    (fun _ => ret acc).

Fixpoint processTempFiles (now_ : Z) (files : list string) (acc : TempResult)
  : M TempResult :=
  match files with
  | [] => ret acc
  | file :: rest =>
      acc' <- processTempItem now_ file acc;;
      processTempFiles now_ rest acc'
  end.

(** The [try] block of [cleanupOldTempFiles], after the flag is set. *)
Definition cleanupOldTempFiles_steps : M TempResult :=
  dirExists <- fs_existsSync;;
  if negb dirExists
  then fs_mkdirSync;; ret zeroTemp
  else
    files <- fs_readdirSync;;
    if length files =? 0
    then ret zeroTemp
    else
      now_ <- get now;;
      processTempFiles now_ files zeroTemp.

(** The [try] block of [cleanupOldTempFiles]. *)
Definition cleanupOldTempFiles_body : M TempResult :=
  modify (set_isTempCleanupRunning true);;
  cleanupOldTempFiles_steps.

Definition cleanupOldTempFiles : M TempResult :=
  running <- get isTempCleanupRunning;;
  if running
  then ret zeroTemp
  else
    tryFinally
      (tryCatch cleanupOldTempFiles_body (fun _ => ret zeroTemp))
      (set_isTempCleanupRunning false).

Definition runTempFileCleanupManually : M TempResult := cleanupOldTempFiles.

(** [Math.round(n / 1024)] for an integer [n]. *)
Definition roundKB (n : Z) : Z := ((2 * n + 1024) / 2048)%Z.

(** The body of the response of the admin endpoint [cleanupTempFiles]
    (media.controller.ts): [filesDeleted], and [sizeFreed] in KB. *)
Definition cleanupTempFiles : M (nat * Z) :=
  result <- runTempFileCleanupManually;;
  ret (filesDeleted result, roundKB (totalSize result)).

(* ------------------------------------------------------------------ *)
(** ** MediaCleanSchedulerService: media reconciliation *)

Record MediaResult := mkMediaResult {
  orphanedR2Files : nat;
  danglingSavedReferences : nat
}.

Definition zeroMedia : MediaResult := mkMediaResult 0 0.

Definition truthy (s : string) : bool := negb (isEmpty s).

(** The [productImages.forEach] callback. *)
Definition collectProduct (mediaKeys : JsSet.t) (product : Product) : JsSet.t :=
  let mediaKeys1 :=
    match thumbnail product with
    | Some t =>
        if truthy t
           && (startsWith t PRODUCT_IMAGE_PREFIX
               || startsWith t PRODUCT_THUMBNAIL_PREFIX)
        then JsSet.add mediaKeys t
        else mediaKeys
    | None => mediaKeys
    end in
  fold_left
    (fun acc key =>
       if startsWith key PRODUCT_IMAGE_PREFIX then JsSet.add acc key else acc)
    (images product) mediaKeys1.

(** The [categoryThumbnails.forEach] callback. *)
Definition collectCategory (mediaKeys : JsSet.t) (category : Category)
  : JsSet.t :=
  match cat_thumbnail category with
  | Some t =>
      if truthy t && startsWith t CATEGORY_THUMBNAIL_PREFIX
      then JsSet.add mediaKeys t
      else mediaKeys
  | None => mediaKeys
  end.

Definition getMediaKeysFromDatabase : M JsSet.t :=
  executeDbOperation
    (productImages <- Product_find productMediaQuery;;
     let mediaKeys := fold_left collectProduct productImages JsSet.empty in
     categoryThumbnails <- Category_find categoryMediaQuery;;
     let mediaKeys := fold_left collectCategory categoryThumbnails mediaKeys in
     ret mediaKeys).

(** The [do ... while (continuationToken)] loop of [getR2KeysWithPrefix];
    [maxKeys] is the page size the command asks for. *)
Fixpoint getR2KeysLoop (maxKeys fuel : nat) (prefix : string)
         (continuationToken : option nat) (mediaKeys : JsSet.t) : M JsSet.t :=
  match fuel with
  | 0 => outOfFuel
  | S fuel' =>
      response <- r2_listObjectsV2 prefix maxKeys continuationToken;;
      let mediaKeys' := JsSet.addAll mediaKeys (fst response) in
      match snd response with
      | Some token => getR2KeysLoop maxKeys fuel' prefix (Some token) mediaKeys'
      | None => ret mediaKeys'
      end
  end.

Definition MaxKeys : nat := 1000.

(** The loop runs on a fuel that the number of stored keys bounds. *)
Definition getR2KeysWithPrefix (prefix : string) (mediaKeys : JsSet.t)
  : M JsSet.t :=
  b <- get bucket;;
  getR2KeysLoop MaxKeys (S (length b)) prefix None mediaKeys.

Definition getMediaKeysFromR2 : M JsSet.t :=
  tryCatch
    (let mediaKeys := JsSet.empty in
     mediaKeys <- getR2KeysWithPrefix PRODUCT_IMAGE_PREFIX mediaKeys;;
     mediaKeys <- getR2KeysWithPrefix PRODUCT_THUMBNAIL_PREFIX mediaKeys;;
     mediaKeys <- getR2KeysWithPrefix CATEGORY_THUMBNAIL_PREFIX mediaKeys;;
     ret mediaKeys)
    (fun error => throw error).

(** The [for (let i = 0; i < orphanedKeys.length; i += batchSize)] loop. *)
Fixpoint deleteLoop (batchSize fuel : nat) (i : nat) (orphanedKeys : list string)
  : M unit :=
  match fuel with
  | 0 => outOfFuel
  | S fuel' =>
      if i <? length orphanedKeys
      then
        let batch := slice i (i + batchSize) orphanedKeys in
        r2_deleteObjects batch;;
        deleteLoop batchSize fuel' (i + batchSize) orphanedKeys
      else ret tt
  end.

Definition batchSize : nat := 1000.

Definition deleteOrphanedR2Files (orphanedKeys : list string) : M unit :=
  if length orphanedKeys =? 0
  then ret tt
  else
    tryCatch
      (deleteLoop batchSize (S (length orphanedKeys)) 0 orphanedKeys)
      (fun error => throw error).

Definition cleanupDanglingDatabaseReferences (danglingKeys : list string)
  : M unit :=
  if length danglingKeys =? 0
  then ret tt
  else
    executeDbOperation
      (let productImageKeys :=
         filter (fun key => startsWith key PRODUCT_IMAGE_PREFIX) danglingKeys in
       let productThumbnailKeys :=
         filter (fun key => startsWith key PRODUCT_THUMBNAIL_PREFIX)
                danglingKeys in
       let categoryThumbnailKeys :=
         filter (fun key => startsWith key CATEGORY_THUMBNAIL_PREFIX)
                danglingKeys in
       let updatePromises := [] in
       let updatePromises :=
         if 0 <? length productImageKeys
         then updatePromises ++ [Product_updateMany_pullImages productImageKeys]
         else updatePromises in
       let updatePromises :=
         if 0 <? length productThumbnailKeys
         then updatePromises
                ++ [Product_updateMany_nullThumbnail productThumbnailKeys]
         else updatePromises in
       let updatePromises :=
         if 0 <? length categoryThumbnailKeys
         then updatePromises
                ++ [Category_updateMany_nullThumbnail categoryThumbnailKeys]
         else updatePromises in
       if 0 <? length updatePromises
       then promiseAll updatePromises
       else ret tt).

(** The [try] block of [cleanupMediaFiles], after the flag is set. *)
Definition cleanupMediaFiles_steps : M MediaResult :=
  dbMediaKeys <- getMediaKeysFromDatabase;;
  r2MediaKeys <- getMediaKeysFromR2;;
  let orphanedR2Keys :=
    filter (fun key => negb (JsSet.has dbMediaKeys key))
           (JsSet.toArray r2MediaKeys) in
  deleteOrphanedR2Files orphanedR2Keys;;
  let danglingDbKeys :=
    filter (fun key => negb (JsSet.has r2MediaKeys key))
           (JsSet.toArray dbMediaKeys) in
  cleanupDanglingDatabaseReferences danglingDbKeys;;
  ret (mkMediaResult (length orphanedR2Keys) (length danglingDbKeys)).

(** The [try] block of [cleanupMediaFiles]. *)
Definition cleanupMediaFiles_body : M MediaResult :=
  modify (set_isCleanupRunning true);;
  cleanupMediaFiles_steps.

Definition cleanupMediaFiles : M MediaResult :=
  running <- get isCleanupRunning;;
  if running
  then ret zeroMedia
  else
    tryFinally
      (tryCatch cleanupMediaFiles_body (fun _ => ret zeroMedia))
      (set_isCleanupRunning false).

Definition runMediaCleanupManually : M MediaResult := cleanupMediaFiles.

(* ------------------------------------------------------------------ *)
(** ** The two jobs, statement by statement *)

(** What is left of a [try] block: the value it returns, or its next
    statement with what follows it. *)
Inductive Block (A : Type) : Type :=
| Return (a : A)
| Do {B : Type} (m : M B) (k : B -> Block A).
Arguments Return {A} a.
Arguments Do {A B} m k.

(** A function of the shape both jobs have:
    [if (alreadyRunning) { return whenRunning; }
     try { tryBlock } catch (error) { return catchBlock(error); }
     finally { finallyBlock }]. *)
Record Job (A : Type) := mkJob {
  alreadyRunning : State -> bool;
  whenRunning : A;
  tryBlock : Block A;
  catchBlock : Error -> A;
  finallyBlock : State -> State
}.
Arguments alreadyRunning {A} j s.
Arguments whenRunning {A} j.
Arguments tryBlock {A} j.
Arguments catchBlock {A} j error.
Arguments finallyBlock {A} j s.

(** The [try] block of [cleanupMediaFiles] after the assignment to the
    flag: the four awaited calls, and the counts. *)
Definition cleanupMediaFiles_statements : Block MediaResult :=
  Do getMediaKeysFromDatabase (fun dbMediaKeys =>
  Do getMediaKeysFromR2 (fun r2MediaKeys =>
  let orphanedR2Keys :=
    filter (fun key => negb (JsSet.has dbMediaKeys key))
           (JsSet.toArray r2MediaKeys) in
  Do (deleteOrphanedR2Files orphanedR2Keys) (fun _ =>
  let danglingDbKeys :=
    filter (fun key => negb (JsSet.has r2MediaKeys key))
           (JsSet.toArray dbMediaKeys) in
  Do (cleanupDanglingDatabaseReferences danglingDbKeys) (fun _ =>
  Return (mkMediaResult (length orphanedR2Keys)
                        (length danglingDbKeys)))))).

(** [cleanupMediaFiles] *)
Definition cleanupMediaFiles_job : Job MediaResult :=
  {| alreadyRunning := isCleanupRunning;
     whenRunning := zeroMedia;
     tryBlock :=
       Do (modify (set_isCleanupRunning true))
          (fun _ => cleanupMediaFiles_statements);
     catchBlock := fun _ => zeroMedia;
     finallyBlock := set_isCleanupRunning false |}.

(** The [try] block of [cleanupOldTempFiles] after the assignment to
    the flag: the file-system calls, none of them awaited. *)
Definition cleanupOldTempFiles_statements : Block TempResult :=
  Do fs_existsSync (fun dirExists =>
  if negb dirExists
  then Do fs_mkdirSync (fun _ => Return zeroTemp)
  else
    Do fs_readdirSync (fun files =>
    if length files =? 0
    then Return zeroTemp
    else
      Do (get now) (fun now_ =>
      Do (processTempFiles now_ files zeroTemp) (fun result =>
      Return result)))).

(** [cleanupOldTempFiles] *)
Definition cleanupOldTempFiles_job : Job TempResult :=
  {| alreadyRunning := isTempCleanupRunning;
     whenRunning := zeroTemp;
     tryBlock :=
       Do (modify (set_isTempCleanupRunning true))
          (fun _ => cleanupOldTempFiles_statements);
     catchBlock := fun _ => zeroTemp;
     finallyBlock := set_isTempCleanupRunning false |}.

(** The statements of a block, one after the other. *)
Fixpoint sequentially {A} (b : Block A) : M A :=
  match b with
  | Return a => ret a
  | Do m k => x <- m;; sequentially (k x)
  end.

(** An invocation of a job. *)
Definition invoke {A} (j : Job A) : M A :=
  running <- get (alreadyRunning j);;
  if running
  then ret (whenRunning j)
  else
    tryFinally
      (tryCatch (sequentially (tryBlock j))
                (fun error => ret (catchBlock j error)))
      (finallyBlock j).

(** The states an invocation passes through once it is in its [try]
    block: the state after each statement (for a statement that
    throws, the state it throws in, where the [catch] block takes
    over), and last the state the [finally] block leaves. *)
Fixpoint courseOf {A} (j : Job A) (b : Block A) (s : State) : list State :=
  match b with
  | Return _ => [finallyBlock j s]
  | Do m k =>
      match m s with
      | (Returned x, s') => s' :: courseOf j (k x) s'
      | (Thrown _, s') => [s'; finallyBlock j s']
      | (OutOfFuel, s') => [s']
      end
  end.

(** An invocation that finds the job running does not enter the [try]
    block. *)
Definition course {A} (j : Job A) (s : State) : list State :=
  if alreadyRunning j s then [] else courseOf j (tryBlock j) s.

(* ------------------------------------------------------------------ *)
(** ** DbService: connection status *)

(** [DbService.isDatabaseConnected] *)
Definition isDatabaseConnected : M bool :=
  rs <- get readyState;;
  ret (rs =? 1).

Record DatabaseStatus := mkDatabaseStatus {
  connected : bool;
  status : string;
  status_readyState : nat
}.

(** [DbService.getDatabaseStatus] *)
Definition getDatabaseStatus : M DatabaseStatus :=
  readyState_ <- get readyState;;
  let status :=
    if readyState_ =? 0 then "disconnected"
    else if readyState_ =? 1 then "connected"
    else if readyState_ =? 2 then "connecting"
    else if readyState_ =? 3 then "disconnecting"
    else if readyState_ =? 99 then "uninitialized"
    else "unknown" in
  ret (mkDatabaseStatus (readyState_ =? 1) status readyState_).

(* ================================================================== *)
(** * Specification vocabulary *)

(** Whatever the outcome, [m] takes a state to an [R]-related one. *)
Definition stable (R : State -> State -> Prop) {A} (m : M A) : Prop :=
  forall s o s', m s = (o, s') -> R s s'.

(** [m] only returns values satisfying [Q]. *)
Definition returns {A} (m : M A) (Q : A -> Prop) : Prop :=
  forall s a s', m s = (Returned a, s') -> Q a.

(** A computation that never exhausts its fuel. *)
Definition total {A} (m : M A) : Prop :=
  forall s, fst (m s) <> OutOfFuel.

(** The offset a continuation token stands for. *)
Definition tokenStart (token : option nat) : nat :=
  match token with Some n => n | None => 0 end.

(** Recording call [c] keeps the state [R]-related. *)
Definition logs (R : State -> State -> Prop) (c : Call) : Prop :=
  forall s, R s (set_trace (trace s ++ [c]) s).

(** Neither running flag changes. *)
Definition keepsFlags (s s' : State) : Prop :=
  isCleanupRunning s' = isCleanupRunning s
  /\ isTempCleanupRunning s' = isTempCleanupRunning s.

(** Every statement left in the block keeps the flag of job [j], and
    ends. *)
Fixpoint flagSafe {A} (j : Job A) (b : Block A) : Prop :=
  match b with
  | Return _ => True
  | Do m k =>
      (forall s o s',
          m s = (o, s') ->
          alreadyRunning j s' = alreadyRunning j s /\ o <> OutOfFuel)
      /\ forall x, flagSafe j (k x)
  end.

(** The keys partitioned in order into consecutive slices of [n] keys,
    the last slice shorter when [n] does not divide their number. *)
Fixpoint chunksFuel {A} (fuel n : nat) (l : list A) : list (list A) :=
  match fuel with
  | 0 => []
  | S fuel' =>
      match l with
      | [] => []
      | _ => firstn n l :: chunksFuel fuel' n (skipn n l)
      end
  end.

Definition chunks {A} (n : nat) (l : list A) : list (list A) :=
  chunksFuel (length l) n l.

(** ceil(n / d) *)
Definition ceilDiv (n d : nat) : nat := (n + d - 1) / d.

(** The batches of the delete calls of a trace, in the order issued. *)
Definition deleteCalls (t : list Call) : list (list string) :=
  flat_map (fun c => match c with DeleteObjects ks => [ks] | _ => [] end) t.

(** The set difference [a - b] of two key lists. *)
Definition keysMinus (a b : list string) : list string :=
  filter (fun k => negb (inKeys b k)) a.

(** *** Concrete inputs for the scenarios *)

Fixpoint decimalFuel (fuel n : nat) (acc : string) : string :=
  match fuel with
  | 0 => acc
  | S fuel' =>
      let acc' := String (ascii_of_nat (48 + n mod 10)) acc in
      if n / 10 =? 0 then acc' else decimalFuel fuel' (n / 10) acc'
  end.

Definition decimal (n : nat) : string := decimalFuel (S n) n "".

(** [count] distinct gallery keys of one product. *)
Definition galleryKeys (count : nat) : list string :=
  map (fun i => ("img/product/65f0c0ffee/" ++ decimal i ++ ".webp")%string)
      (seq 0 count).

Definition noFaults : nat -> Call -> option Error := fun _ _ => None.

Definition networkError : Error :=
  mkError KOther "socket hang up" 0 0 [] None.

(** The storage rejects every delete request. *)
Definition deleteFaults : nat -> Call -> option Error :=
  fun _ c => match c with DeleteObjects _ => Some networkError | _ => None end.

(** A connected database and a bucket, with nothing else going on. *)
Definition stateOf (b : list string) (ps : list Product) (cs : list Category)
           (f : nat -> Call -> option Error) : State :=
  mkState b ps cs 1 None 0 [] f false false.

(** *** The claims on the deleter, as the specification words them *)

(** Every slice is issued, whatever the storage answers. *)
Definition deleter_issues_every_batch : Prop :=
  forall keys s,
    length (deleteCalls (trace (snd (deleteOrphanedR2Files keys s))))
    = length (deleteCalls (trace s)) + ceilDiv (length keys) 1000.

(** The storage accepts the first [j] of the delete calls for the
    slices [cs], issued one after the other from state [s] on. *)
Definition accepted (s : State) (cs : list (list string)) (j : nat) : Prop :=
  forall k, k < j ->
    faults s (length (trace s) + k) (DeleteObjects (nth k cs [])) = None.

(** *** The two snapshots, as functions of the stores *)

(** What [getMediaKeysFromDatabase] collects from the two collections. *)
Definition referencedKeys (ps : list Product) (cs : list Category) : JsSet.t :=
  fold_left collectCategory (filter categoryMediaQuery cs)
            (fold_left collectProduct (filter productMediaQuery ps) JsSet.empty).

(** What [getMediaKeysFromR2] collects from the bucket. *)
Definition storedKeys (b : list string) : JsSet.t :=
  let under p := filter (fun k => startsWith k p) b in
  JsSet.addAll
    (JsSet.addAll (JsSet.addAll JsSet.empty (under PRODUCT_IMAGE_PREFIX))
                  (under PRODUCT_THUMBNAIL_PREFIX))
    (under CATEGORY_THUMBNAIL_PREFIX).

(** A key under one of the three managed prefixes. *)
Definition managed (k : string) : bool :=
  startsWith k PRODUCT_IMAGE_PREFIX
  || startsWith k PRODUCT_THUMBNAIL_PREFIX
  || startsWith k CATEGORY_THUMBNAIL_PREFIX.

Definition isListCall (c : Call) : bool :=
  match c with ListObjectsV2 _ _ => true | _ => false end.

(** Calls that change a store. *)
Definition mutating (c : Call) : bool :=
  match c with
  | DeleteObjects _ | ProductPullImages _ | ProductNullThumbnail _
  | CategoryNullThumbnail _ | FsMkdir | FsUnlink _ => true
  | _ => false
  end.

(** Everything but the bucket and the trace is unchanged. *)
Definition sameDocs (s s' : State) : Prop :=
  products s' = products s /\ categories s' = categories s
  /\ readyState s' = readyState s /\ faults s' = faults s
  /\ tempDir s' = tempDir s /\ now s' = now s
  /\ isCleanupRunning s' = isCleanupRunning s
  /\ isTempCleanupRunning s' = isTempCleanupRunning s.

(** Everything but the two collections and the trace is unchanged. *)
Definition sameStorage (s s' : State) : Prop :=
  bucket s' = bucket s
  /\ readyState s' = readyState s /\ faults s' = faults s
  /\ tempDir s' = tempDir s /\ now s' = now s
  /\ isCleanupRunning s' = isCleanupRunning s
  /\ isTempCleanupRunning s' = isTempCleanupRunning s.

(** The orphaned and the dangling keys of a state: the two differences
    of its snapshots. *)
Definition orphanedKeysOf (s : State) : list string :=
  keysMinus (storedKeys (bucket s))
            (referencedKeys (products s) (categories s)).

Definition danglingKeysOf (s : State) : list string :=
  keysMinus (referencedKeys (products s) (categories s))
            (storedKeys (bucket s)).

(** Only delete requests may be rejected. *)
Definition onlyDeletesFail (s : State) : Prop :=
  forall n c, faults s n c <> None -> exists b, c = DeleteObjects b.

(** Only update requests may be rejected. *)
Definition onlyUpdatesFail (s : State) : Prop :=
  forall n c,
    faults s n c <> None ->
    exists ks, c = ProductPullImages ks \/ c = ProductNullThumbnail ks
               \/ c = CategoryNullThumbnail ks.

(** A failed delete batch is skipped: the batches after it are still
    issued, and the run counts every orphaned key. *)
Definition failed_batch_is_skipped_and_counted : Prop :=
  forall s,
    isCleanupRunning s = false -> readyState s = 1 -> onlyDeletesFail s ->
    let r := cleanupMediaFiles s in
    deleteCalls (trace (snd r))
    = deleteCalls (trace s) ++ chunks batchSize (orphanedKeysOf s)
    /\ exists d,
        fst r = Returned (mkMediaResult (length (orphanedKeysOf s)) d).

(** The storage rejects the first call it receives as call number [n]. *)
Definition faultAt (n : nat) : nat -> Call -> option Error :=
  fun m _ => if m =? n then Some networkError else None.

Definition K1 : string :=
  "img/product/thumbnail/65f0c0ffee/65f0c0ffee_1700000000000_a1b2c3d4.webp".
Definition K2 : string :=
  "img/product/thumbnail/65f0c0ffee/65f0c0ffee_1700000000001_deadbeef.webp".
Definition K3 : string :=
  "img/product/65f0c0ffee/65f0c0ffee_1700000000002_0badcafe.webp".

(** Scenario A: [K1] is a product's thumbnail; the bucket holds [K1] and
    an unreferenced [K2]. *)
Definition scenarioA : State :=
  stateOf [K1; K2] [mkProduct (Some K1) []] [] noFaults.

(** Scenario B: a gallery holds [K3]; the bucket does not. *)
Definition scenarioB : State :=
  stateOf [] [mkProduct None [K3]] [] noFaults.

(** Scenario C: as scenario A, and the bucket listing fails on its
    second request. *)
Definition scenarioC : State :=
  stateOf [K1; K2] [mkProduct (Some K1) []] [] (faultAt 3).

(** 1001 unreferenced gallery keys in the bucket: two delete batches.
    The first delete request is the seventh call of a run (two finds and
    four list requests come first). *)
Definition overBatch (f : nat -> Call -> option Error) : State :=
  stateOf (galleryKeys 1001) [] [] f.

(** The state of [overBatch (faultAt 6)] once both snapshots are taken. *)
Definition overBatch_listed : State :=
  snd (getMediaKeysFromR2
         (snd (getMediaKeysFromDatabase
                 (set_isCleanupRunning true (overBatch (faultAt 6)))))).

(** *** The staging directory *)

(** The age test of the janitor, on what [statSync] reports. *)
Definition isOld (now_ : Z) (e : Entry) : bool :=
  gtNumber (inject_Z now_ - mtimeMs e) (inject_Z TEMP_FILE_MAX_AGE).

Definition isRegularFile (e : Entry) : bool :=
  match ekind e with RegularFile => true | _ => false end.

(** The directory without the entries called [file]. *)
Definition withoutFile (file : string) (es : list Entry) : list Entry :=
  filter (fun e => negb (String.eqb (name e) file)) es.

(** A staging directory an hour and a millisecond after its oldest
    entries were written: an old upload, an old directory, a recent
    upload. *)
Definition oldUpload : Entry := mkEntry "upload-1.tmp" RegularFile 0%Q 100.
Definition oldDirectory : Entry := mkEntry "leftover" Directory 0%Q 4096.
Definition recentUpload : Entry :=
  mkEntry "upload-2.tmp" RegularFile 3000000.5%Q 7.

Definition stagingOf (es : list Entry) : State :=
  mkState [] [] [] 1 (Some es) 3600001 [] noFaults false false.

Definition staging : State :=
  stagingOf [oldUpload; oldDirectory; recentUpload].

(** Only the old directory is staged. *)
Definition stagingDirectoryOnly : State := stagingOf [oldDirectory].

(** The sizes of the files a run deleted: the entries of [before] that
    are regular files and are not in [after]. *)
Definition freedBytes (before after : list Entry) : Z :=
  fold_right Z.add 0%Z
    (map size
         (filter (fun e => isRegularFile e
                           && negb (existsb (fun e' => String.eqb (name e') (name e))
                                            after))
                 before)).

(** *** The reference cleaner *)

(** The three field groups of the dangling keys. *)
Definition imageGroup (d : list string) : list string :=
  filter (fun key => startsWith key PRODUCT_IMAGE_PREFIX) d.
Definition thumbnailGroup (d : list string) : list string :=
  filter (fun key => startsWith key PRODUCT_THUMBNAIL_PREFIX) d.
Definition categoryGroup (d : list string) : list string :=
  filter (fun key => startsWith key CATEGORY_THUMBNAIL_PREFIX) d.

(** The update requests of the non-empty groups, in the order they are
    issued, each with what it does to the collections when accepted. *)
Definition updateGroups (d : list string) : list (Call * (State -> State)) :=
  (if 0 <? length (imageGroup d)
   then [(ProductPullImages (imageGroup d),
          fun s => set_products (map (pullImages (imageGroup d)) (products s)) s)]
   else [])
  ++ (if 0 <? length (thumbnailGroup d)
      then [(ProductNullThumbnail (thumbnailGroup d),
             fun s => set_products
                        (map (nullProductThumbnail (thumbnailGroup d))
                             (products s)) s)]
      else [])
  ++ (if 0 <? length (categoryGroup d)
      then [(CategoryNullThumbnail (categoryGroup d),
             fun s => set_categories
                        (map (nullCategoryThumbnail (categoryGroup d))
                             (categories s)) s)]
      else []).

(** An update request as the cleaner issues it. *)
Definition updateRequest (g : Call * (State -> State)) : M unit :=
  call (fst g);; modify (snd g).

(** A request settles on its own: it is recorded, and it is applied
    unless it is rejected. *)
Definition settle (s : State) (g : Call * (State -> State)) : State :=
  let s' := set_trace (trace s ++ [fst g]) s in
  match faults s (length (trace s)) (fst g) with
  | Some _ => s'
  | None => snd g s'
  end.

(** The requests [gs], issued from [s] on, are all accepted. *)
Definition allAccepted (s : State) (gs : list (Call * (State -> State)))
  : Prop :=
  forall i, i < length gs ->
    faults s (length (trace s) + i) (fst (nth i gs (ProductFind, id))) = None.

(** An update changes neither the trace nor the fault plan. *)
Definition quietUpdate (g : Call * (State -> State)) : Prop :=
  forall s, trace (snd g s) = trace s /\ faults (snd g s) = faults s.

(** The storage and the database reject nothing but image-array
    updates. *)
Definition pullFaults : nat -> Call -> option Error :=
  fun _ c => match c with
             | ProductPullImages _ => Some networkError
             | _ => None
             end.

(** Errors of an update group are caught group by group: the cleaner
    itself never throws on them. *)
Definition group_errors_are_caught : Prop :=
  forall d s,
    readyState s = 1 -> onlyUpdatesFail s ->
    fst (cleanupDanglingDatabaseReferences d s) = Returned tt.

(** A product whose thumbnail and whose only gallery image are both
    missing from an empty bucket. *)
Definition bothDangling (f : nat -> Call -> option Error) : State :=
  stateOf [] [mkProduct (Some K1) [K3]] [] f.

(** The state of [bothDangling pullFaults] once both snapshots are
    taken. *)
Definition bothDangling_listed : State :=
  snd (getMediaKeysFromR2
         (snd (getMediaKeysFromDatabase
                 (set_isCleanupRunning true (bothDangling pullFaults))))).

(** *** The managed prefixes *)

Definition managedPrefix (p : string) : bool :=
  String.eqb p PRODUCT_IMAGE_PREFIX
  || String.eqb p PRODUCT_THUMBNAIL_PREFIX
  || String.eqb p CATEGORY_THUMBNAIL_PREFIX.

Definition allManaged (ks : list string) : Prop :=
  Forall (fun k => managed k = true) ks.

(** A call of the media job that names no key and no prefix outside the
    managed ones. *)
Definition touchesManagedOnly (c : Call) : bool :=
  match c with
  | ProductFind | CategoryFind => true
  | ListObjectsV2 p _ => managedPrefix p
  | DeleteObjects ks | ProductPullImages ks | ProductNullThumbnail ks
  | CategoryNullThumbnail ks => forallb managed ks
  | FsExists | FsMkdir | FsReaddir | FsStat _ | FsUnlink _ => false
  end.

(** A product after updates that took nothing but managed keys out of
    its fields. *)
Definition productWithin (p p' : Product) : Prop :=
  (forall k, In k (images p') -> In k (images p))
  /\ (forall k, In k (images p) -> ~ In k (images p') -> managed k = true)
  /\ (thumbnail p' = thumbnail p
      \/ (thumbnail p' = None
          /\ exists k, thumbnail p = Some k /\ managed k = true)).

Definition categoryWithin (c c' : Category) : Prop :=
  cat_thumbnail c' = cat_thumbnail c
  \/ (cat_thumbnail c' = None
      /\ exists k, cat_thumbnail c = Some k /\ managed k = true).

(** From [s] to [s']: only calls on managed prefixes and keys were
    issued, only managed keys left the bucket, and only managed keys left
    a document field. *)
Definition withinManaged (s s' : State) : Prop :=
  (exists t, trace s' = trace s ++ t
             /\ Forall (fun c => touchesManagedOnly c = true) t)
  /\ (forall k, In k (bucket s') -> In k (bucket s))
  /\ (forall k, In k (bucket s) -> ~ In k (bucket s') -> managed k = true)
  /\ Forall2 productWithin (products s) (products s')
  /\ Forall2 categoryWithin (categories s) (categories s').

(** *** The claim on a run, as the specification words it *)

(** Once both snapshots are obtained, the run deletes the orphaned keys,
    leaves no dangling key referenced, and returns the two
    cardinalities. *)
Definition reconciliation_resolves_both_differences : Prop :=
  forall s dbKeys s1 r2Keys s2,
    isCleanupRunning s = false ->
    getMediaKeysFromDatabase (set_isCleanupRunning true s)
    = (Returned dbKeys, s1) ->
    getMediaKeysFromR2 s1 = (Returned r2Keys, s2) ->
    let r := cleanupMediaFiles s in
    fst r = Returned (mkMediaResult (length (orphanedKeysOf s))
                                    (length (danglingKeysOf s)))
    /\ bucket (snd r) = keysMinus (bucket s) (orphanedKeysOf s)
    /\ forall k, In k (danglingKeysOf s) ->
                 ~ In k (referencedKeys (products (snd r))
                                        (categories (snd r))).

(** Scenario A against a storage that rejects delete requests. *)
Definition scenarioA_rejected : State :=
  stateOf [K1; K2] [mkProduct (Some K1) []] [] deleteFaults.

(** A product whose thumbnail is one of its gallery keys, [K3], which
    the bucket does not hold. *)
Definition galleryThumbnail : State :=
  stateOf [] [mkProduct (Some K3) [K3]] [] noFaults.

(** *** References, key by key *)

(** Product [p] makes [k] a referenced key. *)
Definition productReferences (p : Product) (k : string) : Prop :=
  (thumbnail p = Some k
   /\ (startsWith k PRODUCT_IMAGE_PREFIX
       || startsWith k PRODUCT_THUMBNAIL_PREFIX) = true)
  \/ (In k (images p) /\ startsWith k PRODUCT_IMAGE_PREFIX = true).

(** Category [c] makes [k] a referenced key. *)
Definition categoryReferences (c : Category) (k : string) : Prop :=
  cat_thumbnail c = Some k /\ startsWith k CATEGORY_THUMBNAIL_PREFIX = true.

(** Every product thumbnail under the image prefix is under the
    thumbnail prefix as well. *)
Definition thumbnailsUnderPrefix (s : State) : Prop :=
  forall p k,
    In p (products s) -> thumbnail p = Some k ->
    startsWith k PRODUCT_IMAGE_PREFIX = true ->
    startsWith k PRODUCT_THUMBNAIL_PREFIX = true.

(** No product thumbnail holds a dangling key of the image prefix that
    lies outside the thumbnail prefix. *)
Definition danglingThumbnailsUnderPrefix (s : State) : Prop :=
  forall p k,
    In p (products s) -> thumbnail p = Some k ->
    In k (danglingKeysOf s) ->
    startsWith k PRODUCT_IMAGE_PREFIX = true ->
    startsWith k PRODUCT_THUMBNAIL_PREFIX = true.

(** *** Keys that storage holds *)

(** Every field of [p] that held [k] holds it in [p']. *)
Definition productKeeps (k : string) (p p' : Product) : Prop :=
  (thumbnail p = Some k -> thumbnail p' = Some k)
  /\ (In k (images p) -> In k (images p')).

Definition categoryKeeps (k : string) (c c' : Category) : Prop :=
  cat_thumbnail c = Some k -> cat_thumbnail c' = Some k.

(** From [s] to [s'] no document lost a field holding [k]. *)
Definition docsKeep (k : string) (s s' : State) : Prop :=
  Forall2 (productKeeps k) (products s) (products s')
  /\ Forall2 (categoryKeeps k) (categories s) (categories s').

(** *** Errors of the application *)

(** [error instanceof AppError] *)
Definition isAppError (e : Error) : bool :=
  match kind e with
  | KAppError | KBadRequestError | KNotFoundError | KDatabaseError
  | KInternalServerError => true
  | _ => false
  end.

(** A duplicate-key error of the driver ([name] "MongoServerError",
    [code] 11000) that carries no [keyValue]. *)
Definition lacksKeyValue (e : Error) : bool :=
  ErrorKind_eqb (kind e) KMongoServerError && (code e =? 11000)%Z
  && match keyValue e with None => true | Some _ => false end.

(** The classes [executeDbOperation] rethrows as they are. *)
Definition passesThrough (e : Error) : bool :=
  match kind e with
  | KDatabaseError | KBadRequestError | KInternalServerError => true
  | _ => false
  end.

(** The message test of the "general connection issues" branch. *)
Definition mentionsConnection (msg : string) : bool :=
  includes msg "connection" || includes msg "connect"
  || includes msg "timeout".

(** An operation that throws [e] on a first call and is never reached
    otherwise. *)
Definition failingWith {A} (e : Error) : M A :=
  call ProductFind;; throw e.

(** *** The list requests of one prefix *)

(** The requests that page through [n] keys, [pageSize] keys a page:
    the first without a token, request [i] with the offset
    [i * pageSize]. *)
Definition listRequests (prefix : string) (pageSize n : nat) : list Call :=
  map (fun i => ListObjectsV2 prefix
                  (if i =? 0 then None else Some (i * pageSize)))
      (seq 0 (Nat.max 1 (ceilDiv n pageSize))).

(** *** The two jobs, side by side *)

(** What the temp-file job has no business with. *)
Definition mediaSide (s s' : State) : Prop :=
  bucket s' = bucket s /\ products s' = products s
  /\ categories s' = categories s /\ readyState s' = readyState s
  /\ isCleanupRunning s' = isCleanupRunning s
  /\ now s' = now s /\ faults s' = faults s.

(** What the media job has no business with. *)
Definition tempSide (s s' : State) : Prop :=
  tempDir s' = tempDir s
  /\ isTempCleanupRunning s' = isTempCleanupRunning s
  /\ readyState s' = readyState s
  /\ now s' = now s /\ faults s' = faults s.

(* ================================================================== *)
(** * Responses, the error handler and the two admin endpoints *)

(** ** Responses (response.model.ts) *)

(** A value of a response payload: a scalar or an array of strings;
    [JUndefined] is a field left out. *)
Inductive Json :=
| JNumber (n : Z)
| JString (s : string)
| JBool (b : bool)
| JStrings (items : list string)
| JUndefined.

(** An object of a payload, field by field; [None] is [undefined]. *)
Definition JsonObject := option (list (string * Json)).

Record ApiResponse := mkApiResponse {
  success : bool;
  api_message : string;
  data : JsonObject;
  metadata : JsonObject
}.

Definition successResponse (message : string) (data metadata : JsonObject)
  : ApiResponse :=
  mkApiResponse true message data metadata.

Definition errorResponse (message : string) (metadata : JsonObject)
  : ApiResponse :=
  mkApiResponse false message None metadata.

(** [res.status(code).json(body)] *)
Record HttpResponse := mkHttpResponse {
  http_status : Z;
  body : ApiResponse
}.

(** A non-negative integer inside a template literal. *)
Definition numberToString (n : Z) : string :=
  if (n <? 0)%Z then ("-" ++ decimal (Z.to_nat (- n)))%string
  else decimal (Z.to_nat n).

(** ** The global error handler (error.middleware.ts) *)

(** The responses [errorMiddleware] sends, in the order of its
    [res.status(..).json(..)] calls.  [name] and [stack] are
    [error.name] and [error.stack]; [NODE_ENV] is [config.NODE_ENV]. *)
Definition errorMiddleware (NODE_ENV name stack : string) (error : Error)
  : list HttpResponse :=
  let development := String.eqb NODE_ENV "development" in
  if String.eqb name "JsonWebTokenError"
  then [mkHttpResponse 401 (errorResponse "Invalid token" None)]
  else if String.eqb name "TokenExpiredError"
  then [mkHttpResponse 401 (errorResponse "Token expired" None)]
  else
    (if String.eqb name "NotBeforeError"
     then [mkHttpResponse 401 (errorResponse "Token not active" None)]
     else [])
    ++ (if isAppError error
        then [mkHttpResponse (statusCode error)
                (errorResponse (message error)
                   (if development
                    then Some [("stack", JString stack)]
                    else None))]
        else [mkHttpResponse 500
                (errorResponse "Something went wrong"
                   (if development
                    then Some [("message", JString (message error));
                                  ("stack", JString stack)]
                    else None))]).

(** ** The admin endpoints of the two jobs (media.controller.ts) *)

(** The handler of [cleanupMedia]. *)
Definition cleanupMedia : M HttpResponse :=
  result <- runMediaCleanupManually;;
  ret (mkHttpResponse 200
         (successResponse "Media cleanup completed successfully"
            (Some
               [("orphanedFilesRemoved",
                 JNumber (Z.of_nat (orphanedR2Files result)));
                ("danglingReferencesFixed",
                 JNumber (Z.of_nat (danglingSavedReferences result)))])
            None)).

(** The handler of [cleanupTempFiles], with the whole response. *)
Definition cleanupTempFiles_handler : M HttpResponse :=
  result <- runTempFileCleanupManually;;
  ret (mkHttpResponse 200
         (successResponse "Temporary file cleanup completed successfully"
            (Some
               [("filesDeleted", JNumber (Z.of_nat (filesDeleted result)));
                ("sizeFreed",
                 JString (numberToString (roundKB (totalSize result))
                          ++ " KB"))])
            None)).

(** *** What the endpoints answer *)

(** The body of a cleanup that found nothing, or failed. *)
Definition nothingCleaned : JsonObject :=
  Some [("orphanedFilesRemoved", JNumber 0);
           ("danglingReferencesFixed", JNumber 0)].

(* ================================================================== *)
(** * The other services *)

(** ** The monad, over the state of any one service *)

Module Any.
Section OverState.
Context {W : Type}.

Definition Run (A : Type) : Type := W -> Outcome A * W.

Definition ret {A} (a : A) : Run A := fun w => (Returned a, w).

Definition bind {A B} (m : Run A) (k : A -> Run B) : Run B :=
  fun w =>
    match m w with
    | (Returned a, w') => k a w'
    | (Thrown e, w') => (Thrown e, w')
    | (OutOfFuel, w') => (OutOfFuel, w')
    end.

Definition throw {A} (e : Error) : Run A := fun w => (Thrown e, w).

(** [try { m } catch (error) { h error }] *)
Definition tryCatch {A} (m : Run A) (h : Error -> Run A) : Run A :=
  fun w =>
    match m w with
    | (Thrown e, w') => h e w'
    | r => r
    end.

(** [try { m } finally { f }], for a [finally] block that completes
    normally. *)
Definition tryFinally {A} (m : Run A) (f : W -> W) : Run A :=
  fun w =>
    match m w with
    | (OutOfFuel, w') => (OutOfFuel, w')
    | (r, w') => (r, f w')
    end.

Definition get {A} (proj : W -> A) : Run A := fun w => (Returned (proj w), w).
Definition modify (f : W -> W) : Run unit := fun w => (Returned tt, f w).

(** [DbService.executeDbOperation], the connection state being read
    with [readyState]. *)
Definition executeDbOperation (readyState : W -> nat) {A} (operation : Run A)
  : Run A :=
  tryCatch
    (bind (get readyState)
          (fun rs =>
             if negb (rs =? 1)
             then throw (DatabaseError "Database connection is not established")
             else operation))
    (fun error => throw (classifyDbError error)).

End OverState.

Declare Scope any_scope.
Delimit Scope any_scope with any.
Notation "x <- m ;; k" := (bind m (fun x => k))
  (at level 61, m at next level, right associativity) : any_scope.
Notation "m ;; k" := (bind m (fun _ => k))
  (at level 61, right associativity) : any_scope.
End Any.

(* ------------------------------------------------------------------ *)
(** ** ProductViewSchedulerService and ProductService.updateRecentViewsCount *)

Module RecentViews.
Import Any.
Local Open Scope any_scope.

(** The fields of a product document the job reads and writes. *)
Record Product := mkProduct {
  _id : string;
  recentViews : nat;
  updatedAt : Z        (* the product schema has [timestamps: true] *)
}.

(** The fields of a view event the job reads. *)
Record ProductView := mkProductView {
  productId : string;
  timestamp : Z
}.

(** The two kinds of operation the job puts in its [bulkWrite]:
    [updateOne {_id: id} {$set: {recentViews}}] and
    [updateMany {_id: {$nin: ids}} {$set: {recentViews}}]. *)
Inductive BulkOp :=
| UpdateOne (id : string) (value : nat)
| UpdateManyNin (ids : list string) (value : nat).

Inductive Call :=
| ProductViewAggregate (since : Z)
| ProductBulkWrite (ops : list BulkOp).

(** [sevenDaysAgo] is the instant [new Date()] stands at once
    [setDate(getDate() - 7)] has moved it back seven calendar days;
    [now] is the instant Mongoose stamps on [updatedAt] when it sends
    the updates of a [bulkWrite]. *)
Record State := mkState {
  products : list Product;
  productViews : list ProductView;
  readyState : nat;
  sevenDaysAgo : Z;
  now : Z;
  trace : list Call;
  faults : nat -> Call -> option Error;
  isUpdateRunning : bool
}.

Definition set_products (ps : list Product) (s : State) : State :=
  mkState ps (productViews s) (readyState s) (sevenDaysAgo s) (now s)
          (trace s) (faults s) (isUpdateRunning s).
Definition set_trace (t : list Call) (s : State) : State :=
  mkState (products s) (productViews s) (readyState s) (sevenDaysAgo s)
          (now s) t (faults s) (isUpdateRunning s).
Definition set_isUpdateRunning (b : bool) (s : State) : State :=
  mkState (products s) (productViews s) (readyState s) (sevenDaysAgo s)
          (now s) (trace s) (faults s) b.

Definition call (c : Call) : Run unit :=
  fun s =>
    let s' := set_trace (trace s ++ [c]) s in
    match faults s (length (trace s)) c with
    | Some e => (Thrown e, s')
    | None => (Returned tt, s')
    end.

(** [ProductView.aggregate([{ $match: { timestamp: { $gte: since } } },
     { $group: { _id: "$productId", recentViews: { $sum: 1 } } }])]:
    one row per product id among the matching views, with their
    number; the rows come in the order the ids first occur. *)
Definition ProductView_aggregate (since : Z) : Run (list (string * nat)) :=
  call (ProductViewAggregate since);;
  views <- get productViews;;
  let matching := filter (fun v => (since <=? timestamp v)%Z) views in
  let ids := JsSet.addAll JsSet.empty (map productId matching) in
  ret (map (fun id =>
              (id, length (filter (fun v => String.eqb (productId v) id)
                                  matching)))
           ids).

Record BulkWriteResult := mkBulkWriteResult {
  modifiedCount : nat;
  upsertedCount : nat
}.

(** What an update with [$set: { recentViews: value }] makes of a
    document it matches: Mongoose adds [updatedAt: now] to the [$set]
    of every update of a schema with timestamps. *)
Definition stamped (value : nat) (now : Z) (p : Product) : Product :=
  mkProduct (_id p) value now.

(** The document counts as modified when the update changes one of its
    fields. *)
Definition modified (value : nat) (now : Z) (p : Product) : nat :=
  if (recentViews p =? value) && (updatedAt p =? now)%Z then 0 else 1.

(** [updateOne]: the first document with the id, if any. *)
Fixpoint updateOne (id : string) (value : nat) (now : Z) (ps : list Product)
  : list Product * nat :=
  match ps with
  | [] => ([], 0)
  | p :: rest =>
      if String.eqb (_id p) id
      then (stamped value now p :: rest, modified value now p)
      else let (rest', n) := updateOne id value now rest in (p :: rest', n)
  end.

(** [updateMany] with [$nin]: every document whose id is not listed. *)
Fixpoint updateManyNin (ids : list string) (value : nat) (now : Z)
         (ps : list Product) : list Product * nat :=
  match ps with
  | [] => ([], 0)
  | p :: rest =>
      let (rest', n) := updateManyNin ids value now rest in
      if negb (inKeys ids (_id p))
      then (stamped value now p :: rest', modified value now p + n)
      else (p :: rest', n)
  end.

Definition applyOp (now : Z) (acc : list Product * nat) (op : BulkOp)
  : list Product * nat :=
  let (ps', n) :=
    match op with
    | UpdateOne id value => updateOne id value now (fst acc)
    | UpdateManyNin ids value => updateManyNin ids value now (fst acc)
    end in
  (ps', snd acc + n).

(** [Product.bulkWrite(ops)]: the operations in order; nothing is
    upserted. *)
Definition Product_bulkWrite (ops : list BulkOp) : Run BulkWriteResult :=
  call (ProductBulkWrite ops);;
  ps <- get products;;
  now <- get now;;
  let r := fold_left (applyOp now) ops (ps, 0) in
  modify (set_products (fst r));;
  ret (mkBulkWriteResult (snd r) 0).

Definition executeDbOperation {A} (operation : Run A) : Run A :=
  Any.executeDbOperation readyState operation.

(** [ProductService.updateRecentViewsCount] *)
Definition updateRecentViewsCount : Run nat :=
  executeDbOperation
    (sevenDaysAgo <- get sevenDaysAgo;;
     productViewCounts <- ProductView_aggregate sevenDaysAgo;;
     if length productViewCounts =? 0
     then ret 0
     else
       let bulkOps :=
         map (fun item => UpdateOne (fst item) (snd item)) productViewCounts in
       let productIdsWithViews := map fst productViewCounts in
       let bulkOps := bulkOps ++ [UpdateManyNin productIdsWithViews 0] in
       result <- Product_bulkWrite bulkOps;;
       ret (modifiedCount result + upsertedCount result)).

(** [ProductViewSchedulerService.updateRecentViews] *)
Definition updateRecentViews : Run nat :=
  running <- get isUpdateRunning;;
  if running
  then ret 0
  else
    tryFinally
      (tryCatch
         (modify (set_isUpdateRunning true);;
          updatedCount <- updateRecentViewsCount;;
          ret updatedCount)
         (fun _ => ret 0))
      (set_isUpdateRunning false).

Definition runRecentViewsUpdateManually : Run nat := updateRecentViews.

(** *** What the job is for *)

(** The views of product [id] since [since]. *)
Definition recentCount (views : list ProductView) (since : Z) (id : string)
  : nat :=
  length (filter (fun v => String.eqb (productId v) id
                           && (since <=? timestamp v)%Z) views).

(** The products whose counter is not the number of their recent
    views. *)
Definition stale (s : State) : list Product :=
  filter (fun p => negb (recentViews p
                         =? recentCount (productViews s) (sevenDaysAgo s)
                                        (_id p)))
         (products s).

(** The products the write of a run modifies: those whose counter is
    out of date, and those last stamped at another instant than the
    write. *)
Definition modifiedProducts (s : State) : list Product :=
  filter (fun p => negb ((recentViews p
                          =? recentCount (productViews s) (sevenDaysAgo s)
                                         (_id p))
                         && (updatedAt p =? now s)%Z))
         (products s).

(** **** A bulk write, document by document *)

Definition matches (op : BulkOp) (p : Product) : bool :=
  match op with
  | UpdateOne id _ => String.eqb (_id p) id
  | UpdateManyNin ids _ => negb (inKeys ids (_id p))
  end.

Definition value (op : BulkOp) : nat :=
  match op with UpdateOne _ v | UpdateManyNin _ v => v end.

(** What [op] makes of [p], and whether that modifies it. *)
Definition step (now : Z) (p : Product) (op : BulkOp) : Product :=
  if matches op p then stamped (value op) now p else p.

Definition changed (now : Z) (op : BulkOp) (p : Product) : nat :=
  if matches op p then modified (value op) now p else 0.

Definition steps (now : Z) (ops : list BulkOp) (p : Product) : Product :=
  fold_left (step now) ops p.

(** How many of [ops], applied in order, modify [p]. *)
Fixpoint changes (now : Z) (ops : list BulkOp) (p : Product) : nat :=
  match ops with
  | [] => 0
  | op :: rest => changed now op p + changes now rest (step now p op)
  end.

(** Two products, one viewed twice this week and once a month ago, the
    other not at all; the first counter is out of date, the second is
    right; both products were last written long before the run. *)
Definition viewed : State :=
  mkState [mkProduct "65f0c0ffee" 0 40; mkProduct "65f0c0ffef" 0 60]
          [mkProductView "65f0c0ffee" 100; mkProductView "65f0c0ffee" 900;
           mkProductView "65f0c0ffee" 950]
          1 500 1000 [] (fun _ _ => None) false.

(** No view this week; a counter still says 5. *)
Definition quiet : State :=
  mkState [mkProduct "65f0c0ffee" 0 40; mkProduct "65f0c0ffef" 5 60]
          [mkProductView "65f0c0ffee" 100]
          1 500 1000 [] (fun _ _ => None) false.

End RecentViews.

(* ------------------------------------------------------------------ *)
(** ** MediaService, and the handlers of media.controller.ts that delete
       media *)

Module MediaStore.
Import Any.
Local Open Scope any_scope.

Definition PAGE_MEDIA_PREFIX : string := "data/".

(** [s.slice(n)] *)
Fixpoint dropChars (n : nat) (s : string) : string :=
  match n, s with
  | 0, _ => s
  | S n', String _ r => dropChars n' r
  | S _, EmptyString => EmptyString
  end.

(** [s.replace(pattern, "")] for a string [pattern]: the first
    occurrence of [pattern] is cut out of [s]. *)
Fixpoint cutFirst (pattern s : string) : string :=
  if String.prefix pattern s
  then dropChars (String.length pattern) s
  else match s with
       | EmptyString => EmptyString
       | String c r => String c (cutFirst pattern r)
       end.

(** The fields of a product document the handlers read and write. *)
Record Product := mkProduct {
  _id : string;
  thumbnail : option string;
  images : list string;
  categoryIds : list string
}.

(** The update documents the handlers pass to [updateProduct]:
    [{ images: [] }], [{ $pull: { images: { $in: keys } } }] and
    [{ $unset: { thumbnail: 1 } }]. *)
Inductive Update :=
| SetImagesEmpty
| PullImagesIn (keys : list string)
| UnsetThumbnail.

Inductive Call :=
| DeleteObject (key : string)
| ListObjectsV2 (prefix : string)
| ProductFindById (id : string)
| CategoryFindIdIn (ids : list string)
| ProductFindByIdAndUpdate (id : string) (update : Update)
| CacheDel (keys : list string)
| CacheKeys (pattern : string).

(** [CDN_URL] is [config.CDN_URL]; [serverMaxKeys] is the page size the
    storage applies to a list request that names none;
    [isValidObjectId] is [mongoose.Types.ObjectId.isValid] and
    [keyMatches pattern key] the pattern matching of the Redis [KEYS]
    command, both left to their libraries; [cache] holds the keys of
    the cache entries. *)
Record State := mkState {
  bucket : list string;
  CDN_URL : string;
  serverMaxKeys : nat;
  products : list Product;
  readyState : nat;
  isValidObjectId : string -> bool;
  cache : list string;
  keyMatches : string -> string -> bool;
  trace : list Call;
  faults : nat -> Call -> option Error
}.

Definition set_bucket (b : list string) (s : State) : State :=
  mkState b (CDN_URL s) (serverMaxKeys s) (products s) (readyState s)
          (isValidObjectId s) (cache s) (keyMatches s) (trace s) (faults s).
Definition set_products (ps : list Product) (s : State) : State :=
  mkState (bucket s) (CDN_URL s) (serverMaxKeys s) ps (readyState s)
          (isValidObjectId s) (cache s) (keyMatches s) (trace s) (faults s).
Definition set_cache (c : list string) (s : State) : State :=
  mkState (bucket s) (CDN_URL s) (serverMaxKeys s) (products s) (readyState s)
          (isValidObjectId s) c (keyMatches s) (trace s) (faults s).
Definition set_trace (t : list Call) (s : State) : State :=
  mkState (bucket s) (CDN_URL s) (serverMaxKeys s) (products s) (readyState s)
          (isValidObjectId s) (cache s) (keyMatches s) t (faults s).

Definition call (c : Call) : Run unit :=
  fun s =>
    let s' := set_trace (trace s ++ [c]) s in
    match faults s (length (trace s)) c with
    | Some e => (Thrown e, s')
    | None => (Returned tt, s')
    end.

(** [DeleteObjectCommand]: the object is gone afterwards, whether or
    not it was there. *)
Definition r2_deleteObject (key : string) : Run unit :=
  call (DeleteObject key);;
  modify (fun s =>
            set_bucket (filter (fun k => negb (String.eqb k key)) (bucket s)) s).

(** [ListObjectsV2Command] with a prefix only: the first page of the
    keys under the prefix. *)
Definition r2_listObjectsV2 (prefix : string) : Run (list string) :=
  call (ListObjectsV2 prefix);;
  b <- get bucket;;
  n <- get serverMaxKeys;;
  ret (firstn n (filter (fun k => startsWith k prefix) b)).

(** [MediaService.deleteFile] *)
Definition deleteFile (fileUrl : string) : Run bool :=
  tryCatch
    (cdn <- get CDN_URL;;
     let key := cutFirst (cdn ++ "/")%string fileUrl in
     r2_deleteObject key;;
     ret true)
    (fun error =>
       throw (BadRequestError
                ("Failed to delete file: " ++ message error)%string)).

(** [MediaService.listObjects] *)
Definition listObjects (prefix : string) : Run (list string) :=
  tryCatch
    (response <- r2_listObjectsV2 prefix;;
     ret response)
    (fun error =>
       throw (InternalServerError
                ("Failed to list objects: " ++ message error)%string)).

(** [MediaService.getPublicUrls] *)
Definition getPublicUrls (keys : list string) : Run (list string) :=
  cdn <- get CDN_URL;;
  ret (map (fun key => (cdn ++ "/" ++ key)%string) keys).





(** The handler of [listPageMedia]. *)
Definition listPageMedia : Run HttpResponse :=
  pageMediaKeys <- listObjects PAGE_MEDIA_PREFIX;;
  ret (mkHttpResponse 200
         (successResponse "Successfully listed page media files"
            (Some [("pageMediaKeys", JStrings pageMediaKeys)])
            None)).

(** *** The product collection and the cache *)

Definition executeDbOperation {A} (operation : Run A) : Run A :=
  Any.executeDbOperation readyState operation.

Definition hasId (id : string) (p : Product) : bool := String.eqb (_id p) id.

(** [Product.findById(id).lean()] *)
Definition Product_findById (id : string) : Run (option Product) :=
  call (ProductFindById id);;
  ps <- get products;;
  ret (find (hasId id) ps).

(** [Category.find({ _id: { $in: ids } })], for its request only: the
    handlers below do not read the categories. *)
Definition Category_find_idIn (ids : list string) : Run unit :=
  call (CategoryFindIdIn ids).

Definition applyUpdate (update : Update) (p : Product) : Product :=
  match update with
  | SetImagesEmpty => mkProduct (_id p) (thumbnail p) [] (categoryIds p)
  | PullImagesIn keys =>
      mkProduct (_id p) (thumbnail p)
                (filter (fun k => negb (inKeys keys k)) (images p))
                (categoryIds p)
  | UnsetThumbnail => mkProduct (_id p) None (images p) (categoryIds p)
  end.

(** The first document with the id, updated. *)
Fixpoint updateFirst (id : string) (update : Update) (ps : list Product)
  : list Product :=
  match ps with
  | [] => []
  | p :: rest =>
      if hasId id p then applyUpdate update p :: rest
      else p :: updateFirst id update rest
  end.

(** [Product.findByIdAndUpdate(id, update, { new: true })] *)
Definition Product_findByIdAndUpdate (id : string) (update : Update)
  : Run (option Product) :=
  call (ProductFindByIdAndUpdate id update);;
  ps <- get products;;
  match find (hasId id) ps with
  | Some p =>
      modify (set_products (updateFirst id update ps));;
      ret (Some (applyUpdate update p))
  | None => ret None
  end.

(** [ProductService.getProductById], for the product itself. *)
Definition getProductById (id : string) : Run Product :=
  isValid <- get isValidObjectId;;
  if negb (isValid id)
  then throw (BadRequestError "Invalid product ID")
  else
    executeDbOperation
      (product <- Product_findById id;;
       match product with
       | None => throw (NotFoundError "Product not found")
       | Some product =>
           (if 0 <? length (categoryIds product)
            then Category_find_idIn (categoryIds product)
            else ret tt);;
           ret product
       end).

(** [ProductService.updateProduct], for the update documents above
    (they carry no [categoryIds] and no [views]). *)
Definition updateProduct (id : string) (updateData : Update) : Run Product :=
  isValid <- get isValidObjectId;;
  if negb (isValid id)
  then throw (BadRequestError "Invalid product ID")
  else
    executeDbOperation
      (updatedProduct <- Product_findByIdAndUpdate id updateData;;
       match updatedProduct with
       | None => throw (NotFoundError "Product not found")
       | Some updatedProduct => ret updatedProduct
       end).

(** [cacheRedisUtils.del(key)] *)
Definition cache_del (key : string) : Run unit :=
  call (CacheDel [key]);;
  modify (fun s =>
            set_cache (filter (fun k => negb (String.eqb k key)) (cache s)) s).

(** [cacheRedisUtils.delByPattern(pattern)] *)
Definition cache_delByPattern (pattern : string) : Run unit :=
  call (CacheKeys pattern);;
  matches <- get keyMatches;;
  c <- get cache;;
  let keys := filter (matches pattern) c in
  if 0 <? length keys
  then
    call (CacheDel keys);;
    modify (fun s =>
              set_cache (filter (fun k => negb (inKeys keys k)) (cache s)) s)
  else ret tt.

Definition PRD_DET : string := "p:d:".
Definition PRD_LST : string := "p:l:".

(** The two invalidations that follow an update of product [id]. *)
Definition invalidateProduct (id : string) : Run unit :=
  cache_del (PRD_DET ++ id)%string;;
  cache_delByPattern (PRD_LST ++ "*")%string.

(** *** The product handlers *)



(** The handler of [deleteProductThumbnail]; [!product.thumbnail]
    holds of a missing and of an empty thumbnail. *)
Definition deleteProductThumbnail (id : string) : Run HttpResponse :=
  isValid <- get isValidObjectId;;
  if isEmpty id || negb (isValid id)
  then throw (BadRequestError "Invalid product ID")
  else
    product <- getProductById id;;
    match thumbnail product with
    | None =>
        ret (mkHttpResponse 200
               (successResponse "Product does not have a thumbnail to delete"
                  (Some [("thumbnailDeleted", JBool false)]) None))
    | Some productThumbnail =>
        if isEmpty productThumbnail
        then
          ret (mkHttpResponse 200
                 (successResponse
                    "Product does not have a thumbnail to delete"
                    (Some [("thumbnailDeleted", JBool false)]) None))
        else if startsWith productThumbnail PRODUCT_THUMBNAIL_PREFIX
        then
          tryCatch
            (deleteFile productThumbnail;;
             updateProduct id UnsetThumbnail;;
             invalidateProduct id;;
             ret (mkHttpResponse 200
                    (successResponse "Successfully deleted product thumbnail"
                       (Some [("thumbnailDeleted", JBool true);
                              ("deletedKey", JString productThumbnail)])
                       None)))
            (fun _ =>
               throw (BadRequestError
                        "Failed to delete thumbnail from storage"))
        else
          updateProduct id UnsetThumbnail;;
          invalidateProduct id;;
          ret (mkHttpResponse 200
                 (successResponse "Removed thumbnail reference from product"
                    (Some [("thumbnailDeleted", JBool false);
                           ("referenceRemoved", JBool true);
                           ("externalUrl", JString productThumbnail)])
                    None))
    end.

(** *** What the handlers are for *)


Definition isDeleteObject (c : Call) : bool :=
  match c with DeleteObject _ => true | _ => false end.

Definition isLookup (c : Call) : bool :=
  match c with ProductFindById _ | CategoryFindIdIn _ => true | _ => false end.

Definition isCacheCall (c : Call) : bool :=
  match c with CacheDel _ | CacheKeys _ => true | _ => false end.

(** Only the storage rejects requests: the database and the cache
    accept theirs. *)
Definition onlyStorageRejects (s : State) : Prop :=
  forall n c, isDeleteObject c = false -> faults s n c = None.


(** The cache once the entries of product [id] are invalidated. *)
Definition invalidated (s : State) (id : string) : list string :=
  filter (fun k => negb (keyMatches s (PRD_LST ++ "*")%string k))
         (filter (fun k => negb (String.eqb k (PRD_DET ++ id)%string))
                 (cache s)).

(** The requests of [getProductById] for product [p]. *)
Definition lookupCalls (p : Product) : list Call :=
  ProductFindById (_id p)
  :: (if 0 <? length (categoryIds p)
      then [CategoryFindIdIn (categoryIds p)]
      else []).

(** A product with a thumbnail and two gallery images, all three
    stored; the cache holds its detail entry and a list entry. *)
Definition lampId : string := "65f0c0ffee0000000000000a".
Definition lampThumbnail : string :=
  "img/product/thumbnail/65f0c0ffee0000000000000a/t.webp".
Definition lampImage1 : string := "img/product/65f0c0ffee0000000000000a/1.webp".
Definition lampImage2 : string := "img/product/65f0c0ffee0000000000000a/2.webp".

Definition lampShop (f : nat -> Call -> option Error) : State :=
  mkState [lampThumbnail; lampImage1; lampImage2]
          "https://cdn.example.com" 1000
          [mkProduct lampId (Some lampThumbnail) [lampImage1; lampImage2] []]
          1 (fun id => String.length id =? 24)
          ["p:d:65f0c0ffee0000000000000a"; "p:l:page=1"]
          (fun pattern key => String.prefix "p:l:" key)
          [] f.

Definition noFaultsAt : nat -> Call -> option Error := fun _ _ => None.

(** The same shop, with the thumbnail recorded by its public URL. *)
Definition lampThumbnailUrl : string :=
  "https://cdn.example.com/img/product/thumbnail/65f0c0ffee0000000000000a/t.webp".

Definition linkedShop : State :=
  set_products
    [mkProduct lampId (Some lampThumbnailUrl) [lampImage1; lampImage2] []]
    (lampShop noFaultsAt).



(** A bucket with one page file and one product image, behind a CDN;
    the storage rejects nothing. *)
Definition pages : State :=
  mkState ["data/banner.png"; "img/product/65f0c0ffee/1.webp"]
          "https://cdn.example.com" 1000 [] 1 (fun _ => true) []
          (fun _ _ => false) [] (fun _ _ => None).

(** The same bucket behind a storage that lists one key a page. *)
Definition smallPages : State :=
  mkState ["data/banner.png"; "data/footer.png"]
          "https://cdn.example.com" 1 [] 1 (fun _ => true) []
          (fun _ _ => false) [] (fun _ _ => None).

End MediaStore.

(* ------------------------------------------------------------------ *)
(** ** Category slugs: CategoryService.convertToIds and the category
       filter of ProductService.searchProducts *)

Module Categories.
Import Any.
Local Open Scope any_scope.

(** The fields of a category document the lookup reads. *)
Record Category := mkCategory {
  _id : string;
  slug : string
}.

Inductive Call :=
| CategoryFindSlugIn (slugs : list string).

(** [isValidObjectId] is [mongoose.Types.ObjectId.isValid], left to the
    library. *)
Record State := mkState {
  categories : list Category;
  readyState : nat;
  isValidObjectId : string -> bool;
  trace : list Call;
  faults : nat -> Call -> option Error
}.

Definition set_trace (t : list Call) (s : State) : State :=
  mkState (categories s) (readyState s) (isValidObjectId s) t (faults s).

Definition call (c : Call) : Run unit :=
  fun s =>
    let s' := set_trace (trace s ++ [c]) s in
    match faults s (length (trace s)) c with
    | Some e => (Thrown e, s')
    | None => (Returned tt, s')
    end.

Definition executeDbOperation {A} (operation : Run A) : Run A :=
  Any.executeDbOperation readyState operation.

(** [Category.find({ slug: { $in: slugs } }).select("_id slug").lean()] *)
Definition Category_find_slugIn (slugs : list string) : Run (list Category) :=
  call (CategoryFindSlugIn slugs);;
  cs <- get categories;;
  ret (filter (fun c => inKeys slugs (slug c)) cs).

(** [slugToIdMap.get(slug)] once every category has been [set]: the id
    of the last category with the slug. *)
Definition slugToIdMap_get (categories : list Category) (key : string)
  : option string :=
  fold_left (fun acc cat =>
               if String.eqb (slug cat) key then Some (_id cat) else acc)
            categories None.

Definition slugToIdMap_has (categories : list Category) (key : string)
  : bool :=
  match slugToIdMap_get categories key with Some _ => true | None => false end.

(** [CategoryService.convertToIds], for an array argument. *)
Definition convertToIds (slugsOrIds : list string) : Run (list string) :=
  if length slugsOrIds =? 0
  then ret []
  else
    executeDbOperation
      (isValid <- get isValidObjectId;;
       let ids := filter isValid slugsOrIds in
       let slugsToLookup :=
         filter (fun item => negb (isValid item)) slugsOrIds in
       if 0 <? length slugsToLookup
       then
         categories <- Category_find_slugIn slugsToLookup;;
         let notFoundSlugs :=
           filter (fun slug => negb (slugToIdMap_has categories slug))
                  slugsToLookup in
         if 0 <? length notFoundSlugs
         then throw (NotFoundError
                       ("Categories not found: "
                        ++ String.concat ", " notFoundSlugs)%string)
         else
           ret (ids
                ++ map (fun slug =>
                          match slugToIdMap_get categories slug with
                          | Some id => id
                          | None => ""
                          end) slugsToLookup)
       else ret ids).

(** [error instanceof NotFoundError] *)
Definition isNotFoundError (e : Error) : bool :=
  match kind e with KNotFoundError => true | _ => false end.

(** The opening of [ProductService.searchProducts]: the category ids
    the product filter will use.  [None] is a parameter left out. *)
Definition resolveCategoryIds (categoryIds categorySlugs : option (list string))
  : Run (list string) :=
  isValid <- get isValidObjectId;;
  resolvedCategoryIds <-
    match categoryIds with
    | Some categoryIds =>
        if 0 <? length categoryIds
        then
          match find (fun categoryId => negb (isValid categoryId)) categoryIds
          with
          | Some categoryId =>
              throw (BadRequestError
                       ("Invalid category ID: " ++ categoryId)%string)
          | None => ret categoryIds
          end
        else ret []
    | None => ret []
    end;;
  match categorySlugs with
  | Some categorySlugs =>
      if 0 <? length categorySlugs
      then
        tryCatch
          (slugIds <- convertToIds categorySlugs;;
           ret (resolvedCategoryIds ++ slugIds))
          (fun error =>
             if isNotFoundError error
             then throw error
             else throw (BadRequestError
                           ("Error processing category slugs: "
                            ++ message error)%string))
      else ret resolvedCategoryIds
  | None => ret resolvedCategoryIds
  end.

(** *** What the lookup is for *)

(** Category [c] carries the slug [key]. *)
Definition hasSlug (key : string) (c : Category) : bool :=
  String.eqb (slug c) key.

(** The driver raises no not-found error of its own. *)
Definition noDriverNotFound (s : State) : Prop :=
  forall n c e,
    faults s n c = Some e ->
    kind e <> KDocumentNotFoundError /\ kind e <> KNamedNotFoundError.

(** Ids are the 24-character strings here. *)
Definition shop : State :=
  mkState [mkCategory "65f0c0ffee0000000000000a" "lamps";
           mkCategory "65f0c0ffee0000000000000b" "chairs"]
          1 (fun id => String.length id =? 24) [] (fun _ _ => None).

End Categories.

(* ================================================================== *)
(** * Reasoning principles *)

(** ** Relations between the state before and after a computation *)

Section Stable.
Variable R : State -> State -> Prop.
Context {R_preorder : PreOrder R}.

Let R_refl : forall s, R s s := @reflexivity _ R _.
Let R_trans : forall a b c, R a b -> R b c -> R a c := @transitivity _ R _.

Lemma stable_ret {A} (a : A) : stable R (ret a).
Proof. intros s o s' H; inversion H; subst; apply R_refl. Qed.

Lemma stable_throw {A} (e : Error) : stable R (@throw A e).
Proof. intros s o s' H; inversion H; subst; apply R_refl. Qed.

Lemma stable_outOfFuel {A} : stable R (@outOfFuel A).
Proof. intros s o s' H; inversion H; subst; apply R_refl. Qed.

Lemma stable_get {A} (proj : State -> A) : stable R (get proj).
Proof. intros s o s' H; inversion H; subst; apply R_refl. Qed.

Lemma stable_modify (f : State -> State) :
  (forall s, R s (f s)) -> stable R (modify f).
Proof. intros Hf s o s' H; inversion H; subst; apply Hf. Qed.

Lemma stable_call (c : Call) :
  (forall s, R s (set_trace (trace s ++ [c]) s)) -> stable R (call c).
Proof.
  intros Hc s o s' H. unfold call in H.
  destruct (faults s (length (trace s)) c); inversion H; subst; apply Hc.
Qed.

Lemma stable_bind_returns {A B} (m : M A) (k : A -> M B) (Q : A -> Prop) :
  stable R m -> returns m Q -> (forall a, Q a -> stable R (k a)) ->
  stable R (bind m k).
Proof.
  intros Hm HQ Hk s o s' H. unfold bind in H.
  destruct (m s) as [[a|e|] s1] eqn:E.
  - eapply R_trans; [eapply Hm; eauto | eapply Hk; eauto].
  - inversion H; subst. eapply Hm; eauto.
  - inversion H; subst. eapply Hm; eauto.
Qed.

Lemma stable_bind {A B} (m : M A) (k : A -> M B) :
  stable R m -> (forall a, stable R (k a)) -> stable R (bind m k).
Proof.
  intros Hm Hk. apply stable_bind_returns with (Q := fun _ => True); auto.
  intros s a s' _; exact I.
Qed.

Lemma stable_tryCatch {A} (m : M A) (h : Error -> M A) :
  stable R m -> (forall e, stable R (h e)) -> stable R (tryCatch m h).
Proof.
  intros Hm Hh s o s' H. unfold tryCatch in H.
  destruct (m s) as [[a|e|] s1] eqn:E.
  - inversion H; subst. eapply Hm; eauto.
  - eapply R_trans; [eapply Hm; eauto | eapply Hh; eauto].
  - inversion H; subst. eapply Hm; eauto.
Qed.

Lemma stable_tryFinally {A} (m : M A) (f : State -> State) :
  stable R m -> (forall s, R s (f s)) -> stable R (tryFinally m f).
Proof.
  intros Hm Hf s o s' H. unfold tryFinally in H.
  destruct (m s) as [[a|e|] s1] eqn:E; inversion H; subst.
  - eapply R_trans; [eapply Hm; eauto | apply Hf].
  - eapply R_trans; [eapply Hm; eauto | apply Hf].
  - eapply Hm; eauto.
Qed.

Lemma stable_if {A} (b : bool) (m1 m2 : M A) :
  stable R m1 -> stable R m2 -> stable R (if b then m1 else m2).
Proof. destruct b; auto. Qed.

Lemma stable_promiseAll (ps : list (M unit)) :
  Forall (fun p => stable R p) ps -> stable R (promiseAll ps).
Proof.
  induction 1 as [|p ps Hp _ IH]; simpl.
  - apply stable_ret.
  - intros s o s' H.
    destruct (p s) as [[a|e|] s1] eqn:E.
    + eapply R_trans; [eapply Hp; eauto | eapply IH; eauto].
    + destruct (promiseAll ps s1) as [[a2|e2|] s2] eqn:E2;
        inversion H; subst;
        (eapply R_trans; [eapply Hp; eauto | eapply IH; eauto]).
    + inversion H; subst. eapply Hp; eauto.
Qed.

Lemma returns_ret {A} (a : A) (Q : A -> Prop) : Q a -> returns (ret a) Q.
Proof. intros Ha s b s' H; inversion H; subst; exact Ha. Qed.

Lemma returns_bind {A B} (m : M A) (k : A -> M B) (P : A -> Prop)
      (Q : B -> Prop) :
  returns m P -> (forall a, P a -> returns (k a) Q) -> returns (bind m k) Q.
Proof.
  intros Hm Hk s b s' H. unfold bind in H.
  destruct (m s) as [[a|e|] s1] eqn:E; try discriminate.
  eapply Hk; eauto.
Qed.

Lemma returns_tryCatch {A} (m : M A) (h : Error -> M A) (Q : A -> Prop) :
  returns m Q -> (forall e, returns (h e) Q) -> returns (tryCatch m h) Q.
Proof.
  intros Hm Hh s b s' H. unfold tryCatch in H.
  destruct (m s) as [[a|e|] s1] eqn:E; try discriminate.
  - inversion H; subst. eapply Hm; eauto.
  - eapply Hh; eauto.
Qed.

Lemma returns_throw {A} (e : Error) (Q : A -> Prop) : returns (throw e) Q.
Proof. intros s b s' H; discriminate. Qed.
(** *** The collaborators and the loops, for any preorder *)

Lemma stable_call_logs (c : Call) : logs R c -> stable R (call c).
Proof. intros H; apply stable_call; exact H. Qed.

Lemma stable_executeDbOperation {A} (op : M A) :
  stable R op -> stable R (executeDbOperation op).
Proof.
  intros H. unfold executeDbOperation.
  apply stable_tryCatch; [|intros; apply stable_throw].
  apply stable_bind; [apply stable_get|].
  intros rs. apply stable_if; [apply stable_throw | exact H].
Qed.

Lemma stable_Product_find q : logs R ProductFind -> stable R (Product_find q).
Proof.
  intros H. unfold Product_find.
  apply stable_bind; [apply stable_call_logs; exact H|]. intros _.
  apply stable_bind; [apply stable_get|]. intros ps. apply stable_ret.
Qed.

Lemma stable_Category_find q :
  logs R CategoryFind -> stable R (Category_find q).
Proof.
  intros H. unfold Category_find.
  apply stable_bind; [apply stable_call_logs; exact H|]. intros _.
  apply stable_bind; [apply stable_get|]. intros ps. apply stable_ret.
Qed.

Lemma stable_call_modify (c : Call) (f : State -> State) :
  logs R c -> (forall s, R s (f s)) -> stable R (call c;; modify f).
Proof.
  intros Hc Hf. apply stable_bind; [apply stable_call_logs; exact Hc|].
  intros _. apply stable_modify; exact Hf.
Qed.

Lemma stable_r2_listObjectsV2 prefix maxKeys token :
  logs R (ListObjectsV2 prefix token) ->
  stable R (r2_listObjectsV2 prefix maxKeys token).
Proof.
  intros H. unfold r2_listObjectsV2.
  apply stable_bind; [apply stable_call_logs; exact H|]. intros _.
  apply stable_bind; [apply stable_get|]. intros b. apply stable_ret.
Qed.

Lemma stable_getR2KeysLoop maxKeys fuel prefix :
  (forall token, logs R (ListObjectsV2 prefix token)) ->
  forall token mediaKeys,
    stable R (getR2KeysLoop maxKeys fuel prefix token mediaKeys).
Proof.
  intros H. induction fuel as [|fuel IH]; intros token mediaKeys; simpl.
  - apply stable_outOfFuel.
  - apply stable_bind; [apply stable_r2_listObjectsV2; apply H|].
    intros [contents next]; simpl. destruct next; [apply IH | apply stable_ret].
Qed.

Lemma stable_getR2KeysWithPrefix prefix mediaKeys :
  (forall token, logs R (ListObjectsV2 prefix token)) ->
  stable R (getR2KeysWithPrefix prefix mediaKeys).
Proof.
  intros H. unfold getR2KeysWithPrefix.
  apply stable_bind; [apply stable_get|]. intros b.
  apply stable_getR2KeysLoop; exact H.
Qed.

Lemma stable_getMediaKeysFromR2 :
  (forall prefix token, logs R (ListObjectsV2 prefix token)) ->
  stable R getMediaKeysFromR2.
Proof.
  intros H. unfold getMediaKeysFromR2.
  apply stable_tryCatch; [|intros; apply stable_throw].
  repeat (apply stable_bind;
          [apply stable_getR2KeysWithPrefix; intros; apply H | intros ?]).
  apply stable_ret.
Qed.

Lemma stable_getMediaKeysFromDatabase :
  logs R ProductFind -> logs R CategoryFind ->
  stable R getMediaKeysFromDatabase.
Proof.
  intros Hp Hc. unfold getMediaKeysFromDatabase.
  apply stable_executeDbOperation.
  apply stable_bind; [apply stable_Product_find; exact Hp|]. intros ps.
  apply stable_bind; [apply stable_Category_find; exact Hc|]. intros cs.
  apply stable_ret.
Qed.

Lemma stable_deleteLoop bs orphanedKeys :
  (forall i j, stable R (r2_deleteObjects (slice i j orphanedKeys))) ->
  forall fuel i, stable R (deleteLoop bs fuel i orphanedKeys).
Proof.
  intros H. induction fuel as [|fuel IH]; intros i; simpl.
  - apply stable_outOfFuel.
  - apply stable_if; [|apply stable_ret].
    apply stable_bind; [apply H | intros _; apply IH].
Qed.

Lemma stable_deleteOrphanedR2Files orphanedKeys :
  (forall i j, stable R (r2_deleteObjects (slice i j orphanedKeys))) ->
  stable R (deleteOrphanedR2Files orphanedKeys).
Proof.
  intros H. unfold deleteOrphanedR2Files.
  apply stable_if; [apply stable_ret|].
  apply stable_tryCatch; [|intros; apply stable_throw].
  apply stable_deleteLoop; exact H.
Qed.

Lemma stable_cleanupDanglingDatabaseReferences danglingKeys :
  (forall p, stable R
     (Product_updateMany_pullImages (filter p danglingKeys))) ->
  (forall p, stable R
     (Product_updateMany_nullThumbnail (filter p danglingKeys))) ->
  (forall p, stable R
     (Category_updateMany_nullThumbnail (filter p danglingKeys))) ->
  stable R (cleanupDanglingDatabaseReferences danglingKeys).
Proof.
  intros H1 H2 H3. unfold cleanupDanglingDatabaseReferences.
  apply stable_if; [apply stable_ret|].
  apply stable_executeDbOperation.
  apply stable_if; [|apply stable_ret].
  apply stable_promiseAll.
  repeat match goal with
         | |- context [if ?b then _ else _] => destruct b
         end;
    simpl; repeat constructor; auto.
Qed.

(** *** The staging directory, for a preorder blind to its contents *)

Section StableFs.
Hypothesis R_logs : forall c, logs R c.
Hypothesis R_tempDir : forall d s, R s (set_tempDir d s).

Lemma stable_fs_existsSync : stable R fs_existsSync.
Proof.
  unfold fs_existsSync, record.
  apply stable_bind; [apply stable_modify; apply R_logs|]. intros _.
  apply stable_bind; [apply stable_get|]. intros d. apply stable_ret.
Qed.

Lemma stable_fs_mkdirSync : stable R fs_mkdirSync.
Proof.
  unfold fs_mkdirSync. apply stable_call_modify; [apply R_logs|].
  intros s. destruct (tempDir s); [apply R_refl | apply R_tempDir].
Qed.

Lemma stable_fs_readdirSync : stable R fs_readdirSync.
Proof.
  unfold fs_readdirSync.
  apply stable_bind; [apply stable_call_logs; apply R_logs|]. intros _.
  apply stable_bind; [apply stable_get|].
  intros [es|]; [apply stable_ret | apply stable_throw].
Qed.

Lemma stable_fs_statSync file : stable R (fs_statSync file).
Proof.
  unfold fs_statSync.
  apply stable_bind; [apply stable_call_logs; apply R_logs|]. intros _.
  apply stable_bind; [apply stable_get|].
  intros [es|]; [|apply stable_throw].
  destruct (findEntry file es); [apply stable_ret | apply stable_throw].
Qed.

Lemma stable_fs_unlinkSync file : stable R (fs_unlinkSync file).
Proof.
  unfold fs_unlinkSync.
  apply stable_bind; [apply stable_call_logs; apply R_logs|]. intros _.
  apply stable_bind; [apply stable_get|].
  intros [es|]; [|apply stable_throw].
  destruct (findEntry file es) as [e|]; [|apply stable_throw].
  destruct (ekind e);
    first [apply stable_throw | apply stable_modify; intros; apply R_tempDir].
Qed.

Lemma stable_processTempItem now_ file acc :
  stable R (processTempItem now_ file acc).
Proof.
  unfold processTempItem.
  apply stable_tryCatch; [|intros; apply stable_ret].
  apply stable_bind; [apply stable_fs_statSync|]. intros stats.
  apply stable_if; [|apply stable_ret].
  destruct (ekind stats); try apply stable_ret.
  apply stable_tryCatch; [|intros; apply stable_ret].
  apply stable_bind; [apply stable_fs_unlinkSync | intros; apply stable_ret].
Qed.

Lemma stable_processTempFiles now_ files :
  forall acc, stable R (processTempFiles now_ files acc).
Proof.
  induction files as [|file rest IH]; intros acc; simpl.
  - apply stable_ret.
  - apply stable_bind; [apply stable_processTempItem | intros; apply IH].
Qed.

Lemma stable_cleanupOldTempFiles_steps : stable R cleanupOldTempFiles_steps.
Proof.
  unfold cleanupOldTempFiles_steps.
  apply stable_bind; [apply stable_fs_existsSync|]. intros ex.
  apply stable_if.
  - apply stable_bind; [apply stable_fs_mkdirSync | intros; apply stable_ret].
  - apply stable_bind; [apply stable_fs_readdirSync|]. intros files.
    apply stable_if; [apply stable_ret|].
    apply stable_bind; [apply stable_get|]. intros n.
    apply stable_processTempFiles.
Qed.
End StableFs.

End Stable.

(** Outside the section the preorder is an instance to be found. *)
Ltac sapply L := (apply L; try exact _).


(** ** Termination: a computation that never exhausts its fuel *)

Lemma total_ret {A} (a : A) : total (ret a).
Proof. intros s; discriminate. Qed.

Lemma total_throw {A} (e : Error) : total (@throw A e).
Proof. intros s; discriminate. Qed.

Lemma total_get {A} (proj : State -> A) : total (get proj).
Proof. intros s; discriminate. Qed.

Lemma total_modify (f : State -> State) : total (modify f).
Proof. intros s; discriminate. Qed.

Lemma total_call (c : Call) : total (call c).
Proof. intros s; unfold call; destruct (faults s _ c); discriminate. Qed.

Lemma total_bind {A B} (m : M A) (k : A -> M B) :
  total m -> (forall a, total (k a)) -> total (bind m k).
Proof.
  intros Hm Hk s. unfold bind. specialize (Hm s).
  destruct (m s) as [[a|e|] s1]; simpl in *; try discriminate.
  - apply Hk.
  - congruence.
Qed.

Lemma total_tryCatch {A} (m : M A) (h : Error -> M A) :
  total m -> (forall e, total (h e)) -> total (tryCatch m h).
Proof.
  intros Hm Hh s. unfold tryCatch. specialize (Hm s).
  destruct (m s) as [[a|e|] s1]; simpl in *; try discriminate.
  - apply Hh.
  - congruence.
Qed.

Lemma total_if {A} (b : bool) (m1 m2 : M A) :
  total m1 -> total m2 -> total (if b then m1 else m2).
Proof. destruct b; auto. Qed.

Lemma total_promiseAll (ps : list (M unit)) :
  Forall (fun p => total p) ps -> total (promiseAll ps).
Proof.
  induction 1 as [|p ps Hp _ IH]; simpl.
  - apply total_ret.
  - intros s. specialize (Hp s).
    destruct (p s) as [[a|e|] s1]; simpl in *.
    + apply IH.
    + specialize (IH s1).
      destruct (promiseAll ps s1) as [[a2|e2|] s2]; simpl in *;
        congruence.
    + congruence.
Qed.

Lemma total_executeDbOperation {A} (op : M A) :
  total op -> total (executeDbOperation op).
Proof.
  intros H. unfold executeDbOperation.
  apply total_tryCatch; [|intros; apply total_throw].
  apply total_bind; [apply total_get|].
  intros rs. apply total_if; [apply total_throw | exact H].
Qed.

(** ** Both running flags are left alone by every step of a run *)

#[global] Instance keepsFlags_preorder : PreOrder keepsFlags.
Proof.
  split.
  - intros s; split; reflexivity.
  - intros a b c [H1 H2] [H3 H4]; split; congruence.
Qed.

Lemma keepsFlags_logs c : logs keepsFlags c.
Proof. intros s; split; reflexivity. Qed.

Lemma keepsFlags_set_bucket b s : keepsFlags s (set_bucket b s).
Proof. split; reflexivity. Qed.

Lemma keepsFlags_set_products p s : keepsFlags s (set_products p s).
Proof. split; reflexivity. Qed.

Lemma keepsFlags_set_categories c s : keepsFlags s (set_categories c s).
Proof. split; reflexivity. Qed.

Lemma keepsFlags_set_tempDir d s : keepsFlags s (set_tempDir d s).
Proof. split; reflexivity. Qed.

Lemma keepsFlags_cleanupMediaFiles_steps :
  stable keepsFlags cleanupMediaFiles_steps.
Proof.
  unfold cleanupMediaFiles_steps.
  sapply stable_bind.
  { sapply stable_getMediaKeysFromDatabase; apply keepsFlags_logs. }
  intros dbKeys. sapply stable_bind.
  { sapply stable_getMediaKeysFromR2; intros; apply keepsFlags_logs. }
  intros r2Keys. sapply stable_bind.
  { sapply stable_deleteOrphanedR2Files. intros i j.
    sapply stable_call_modify; [apply keepsFlags_logs|].
    intros s; apply keepsFlags_set_bucket. }
  intros _. sapply stable_bind; [|intros; sapply stable_ret].
  sapply stable_cleanupDanglingDatabaseReferences; intros p;
    (sapply stable_call_modify; [apply keepsFlags_logs|]); intros s;
    first [apply keepsFlags_set_products | apply keepsFlags_set_categories].
Qed.

Lemma keepsFlags_cleanupOldTempFiles_steps :
  stable keepsFlags cleanupOldTempFiles_steps.
Proof.
  sapply stable_cleanupOldTempFiles_steps;
    [apply keepsFlags_logs | apply keepsFlags_set_tempDir].
Qed.

(** ** Every loop ends on the fuel it is given *)

Lemma total_r2_listObjectsV2 prefix maxKeys token :
  total (r2_listObjectsV2 prefix maxKeys token).
Proof.
  unfold r2_listObjectsV2.
  apply total_bind; [apply total_call|]. intros _.
  apply total_bind; [apply total_get|]. intros b. apply total_ret.
Qed.

Lemma getR2KeysLoop_fuel maxKeys prefix :
  0 < maxKeys ->
  forall fuel token mediaKeys s,
    length (skipn (tokenStart token)
                  (filter (fun k => startsWith k prefix) (bucket s))) < fuel ->
    fst (getR2KeysLoop maxKeys fuel prefix token mediaKeys s) <> OutOfFuel.
Proof.
  intros Hpos. induction fuel as [|fuel IH]; intros token mediaKeys s Hlen.
  - lia.
  - cbn [getR2KeysLoop]. unfold bind at 1.
    unfold r2_listObjectsV2, bind, call, get, ret.
    destruct (faults s (length (trace s)) (ListObjectsV2 prefix token));
      [simpl; discriminate|].
    cbn [fst snd bucket set_trace].
    fold (tokenStart token).
    set (rest := skipn (tokenStart token)
                       (filter (fun k => startsWith k prefix) (bucket s))) in *.
    destruct (maxKeys <? length rest) eqn:E; [|simpl; discriminate].
    apply Nat.ltb_lt in E.
    apply IH. cbn [tokenStart bucket set_trace].
    unfold rest in *. rewrite length_skipn in *. lia.
Qed.

Lemma total_getR2KeysWithPrefix prefix mediaKeys :
  total (getR2KeysWithPrefix prefix mediaKeys).
Proof.
  intros s. unfold getR2KeysWithPrefix, bind, get.
  apply getR2KeysLoop_fuel; [unfold MaxKeys; lia|].
  rewrite length_skipn.
  pose proof (filter_length_le (fun k => startsWith k prefix) (bucket s)).
  lia.
Qed.

Lemma total_getMediaKeysFromR2 : total getMediaKeysFromR2.
Proof.
  unfold getMediaKeysFromR2.
  apply total_tryCatch; [|intros; apply total_throw].
  repeat (apply total_bind; [apply total_getR2KeysWithPrefix | intros ?]).
  apply total_ret.
Qed.

Lemma total_getMediaKeysFromDatabase : total getMediaKeysFromDatabase.
Proof.
  unfold getMediaKeysFromDatabase, Product_find, Category_find.
  apply total_executeDbOperation.
  repeat first [apply total_bind; [|intros ?] | apply total_call
               | apply total_get | apply total_ret].
Qed.

Lemma total_r2_deleteObjects keys : total (r2_deleteObjects keys).
Proof.
  unfold r2_deleteObjects.
  apply total_bind; [apply total_call | intros; apply total_modify].
Qed.

Lemma total_deleteLoop bs orphanedKeys :
  0 < bs ->
  forall fuel i,
    length orphanedKeys <= i + fuel ->
    total (deleteLoop bs (S fuel) i orphanedKeys).
Proof.
  intros Hpos. induction fuel as [|fuel IH]; intros i Hlen;
    cbn [deleteLoop];
    (destruct (Nat.ltb_spec i (length orphanedKeys)); [|apply total_ret]).
  - lia.
  - apply total_bind; [apply total_r2_deleteObjects|].
    intros _. apply IH. lia.
Qed.

Lemma total_deleteOrphanedR2Files orphanedKeys :
  total (deleteOrphanedR2Files orphanedKeys).
Proof.
  unfold deleteOrphanedR2Files.
  apply total_if; [apply total_ret|].
  apply total_tryCatch; [|intros; apply total_throw].
  apply total_deleteLoop; [unfold batchSize|]; lia.
Qed.

Lemma total_cleanupDanglingDatabaseReferences danglingKeys :
  total (cleanupDanglingDatabaseReferences danglingKeys).
Proof.
  unfold cleanupDanglingDatabaseReferences.
  apply total_if; [apply total_ret|].
  apply total_executeDbOperation.
  apply total_if; [|apply total_ret].
  apply total_promiseAll.
  repeat match goal with
         | |- context [if ?b then _ else _] => destruct b
         end;
    simpl; repeat constructor;
    (apply total_bind; [apply total_call | intros; apply total_modify]).
Qed.

Lemma total_cleanupMediaFiles_steps : total cleanupMediaFiles_steps.
Proof.
  unfold cleanupMediaFiles_steps.
  apply total_bind; [apply total_getMediaKeysFromDatabase|]. intros dbKeys.
  apply total_bind; [apply total_getMediaKeysFromR2|]. intros r2Keys.
  apply total_bind; [apply total_deleteOrphanedR2Files|]. intros _.
  apply total_bind; [apply total_cleanupDanglingDatabaseReferences|].
  intros _. apply total_ret.
Qed.

Lemma total_fs_statSync file : total (fs_statSync file).
Proof.
  unfold fs_statSync.
  apply total_bind; [apply total_call|]. intros _.
  apply total_bind; [apply total_get|].
  intros [es|]; [|apply total_throw].
  destruct (findEntry file es); [apply total_ret | apply total_throw].
Qed.

Lemma total_fs_unlinkSync file : total (fs_unlinkSync file).
Proof.
  unfold fs_unlinkSync.
  apply total_bind; [apply total_call|]. intros _.
  apply total_bind; [apply total_get|].
  intros [es|]; [|apply total_throw].
  destruct (findEntry file es) as [e|]; [|apply total_throw].
  destruct (ekind e); first [apply total_throw | apply total_modify].
Qed.

Lemma total_processTempItem now_ file acc :
  total (processTempItem now_ file acc).
Proof.
  unfold processTempItem.
  apply total_tryCatch; [|intros; apply total_ret].
  apply total_bind; [apply total_fs_statSync|]. intros stats.
  apply total_if; [|apply total_ret].
  destruct (ekind stats); try apply total_ret.
  apply total_tryCatch; [|intros; apply total_ret].
  apply total_bind; [apply total_fs_unlinkSync | intros; apply total_ret].
Qed.

Lemma total_processTempFiles now_ files :
  forall acc, total (processTempFiles now_ files acc).
Proof.
  induction files as [|file rest IH]; intros acc; simpl.
  - apply total_ret.
  - apply total_bind; [apply total_processTempItem | intros; apply IH].
Qed.

Lemma total_cleanupOldTempFiles_steps : total cleanupOldTempFiles_steps.
Proof.
  unfold cleanupOldTempFiles_steps, fs_existsSync, fs_mkdirSync,
    fs_readdirSync.
  apply total_bind.
  { apply total_bind; [apply total_modify|]. intros _.
    apply total_bind; [apply total_get | intros; apply total_ret]. }
  intros ex. apply total_if.
  - apply total_bind; [|intros; apply total_ret].
    apply total_bind; [apply total_call | intros; apply total_modify].
  - apply total_bind.
    { apply total_bind; [apply total_call|]. intros _.
      apply total_bind; [apply total_get|].
      intros [es|]; [apply total_ret | apply total_throw]. }
    intros files. apply total_if; [apply total_ret|].
    apply total_bind; [apply total_get|]. intros n.
    apply total_processTempFiles.
Qed.

(* ================================================================== *)
(** * Run exclusivity *)

Lemma cleanupMediaFiles_busy s :
  isCleanupRunning s = true -> cleanupMediaFiles s = (Returned zeroMedia, s).
Proof.
  intros H. unfold cleanupMediaFiles, bind, get. rewrite H. reflexivity.
Qed.

Lemma cleanupOldTempFiles_busy s :
  isTempCleanupRunning s = true ->
  cleanupOldTempFiles s = (Returned zeroTemp, s).
Proof.
  intros H. unfold cleanupOldTempFiles, bind, get. rewrite H. reflexivity.
Qed.

(** An idle media job runs its steps with the flag set, never runs out
    of fuel, turns a thrown error into zero counts, and resets the flag. *)
Lemma cleanupMediaFiles_idle s :
  isCleanupRunning s = false ->
  exists o s1,
    cleanupMediaFiles_steps (set_isCleanupRunning true s) = (o, s1)
    /\ o <> OutOfFuel
    /\ isCleanupRunning s1 = true
    /\ cleanupMediaFiles s
       = (Returned (match o with Returned r => r | _ => zeroMedia end),
          set_isCleanupRunning false s1).
Proof.
  intros H.
  destruct (cleanupMediaFiles_steps (set_isCleanupRunning true s))
    as [o s1] eqn:E.
  exists o, s1. split; [reflexivity|].
  pose proof (total_cleanupMediaFiles_steps (set_isCleanupRunning true s))
    as Ht.
  rewrite E in Ht; simpl in Ht.
  destruct (keepsFlags_cleanupMediaFiles_steps _ _ _ E) as [Hf _].
  simpl in Hf.
  repeat split; auto.
  unfold cleanupMediaFiles, bind, get. rewrite H.
  unfold tryFinally, tryCatch, cleanupMediaFiles_body, bind, modify.
  rewrite E. destruct o; try reflexivity. congruence.
Qed.

Lemma cleanupOldTempFiles_idle s :
  isTempCleanupRunning s = false ->
  exists o s1,
    cleanupOldTempFiles_steps (set_isTempCleanupRunning true s) = (o, s1)
    /\ o <> OutOfFuel
    /\ isTempCleanupRunning s1 = true
    /\ cleanupOldTempFiles s
       = (Returned (match o with Returned r => r | _ => zeroTemp end),
          set_isTempCleanupRunning false s1).
Proof.
  intros H.
  destruct (cleanupOldTempFiles_steps (set_isTempCleanupRunning true s))
    as [o s1] eqn:E.
  exists o, s1. split; [reflexivity|].
  pose proof (total_cleanupOldTempFiles_steps
                (set_isTempCleanupRunning true s)) as Ht.
  rewrite E in Ht; simpl in Ht.
  destruct (keepsFlags_cleanupOldTempFiles_steps _ _ _ E) as [_ Hf].
  simpl in Hf.
  repeat split; auto.
  unfold cleanupOldTempFiles, bind, get. rewrite H.
  unfold tryFinally, tryCatch, cleanupOldTempFiles_body, bind, modify.
  rewrite E. destruct o; try reflexivity. congruence.
Qed.

(** ** The flag along an invocation *)

Section JobCourse.
Context {A : Type}.
Variable j : Job A.

Hypothesis finally_resets :
  forall s, alreadyRunning j (finallyBlock j s) = false.

(** From a state with the flag set, the rest of a block is passed with
    the flag set, and left with the flag reset, whether its statements
    return or one of them throws. *)
Lemma courseOf_flagSafe :
  forall b s,
    flagSafe j b ->
    alreadyRunning j s = true ->
    exists between final a,
      courseOf j b s = between ++ [final]
      /\ Forall (fun s' => alreadyRunning j s' = true) between
      /\ alreadyRunning j final = false
      /\ tryFinally
           (tryCatch (sequentially b) (fun error => ret (catchBlock j error)))
           (finallyBlock j) s
         = (Returned a, final).
Proof.
  induction b as [a|B m k IH]; intros s Hsafe Hflag.
  - exists [], (finallyBlock j s), a.
    split; [reflexivity|]. split; [constructor|].
    split; [apply finally_resets | reflexivity].
  - destruct Hsafe as [Hm Hk].
    cbn [courseOf sequentially].
    unfold tryFinally, tryCatch, bind.
    destruct (m s) as [[x|e|] s'] eqn:E;
      destruct (Hm _ _ _ E) as [Hs' Hfuel].
    + destruct (IH x s' (Hk x)) as (between & final & a & Hc & Hb & Hf & Hr).
      { rewrite Hs'. exact Hflag. }
      exists (s' :: between), final, a.
      split; [rewrite Hc; reflexivity|].
      split; [constructor; [rewrite Hs'; exact Hflag | exact Hb]|].
      split; [exact Hf|].
      unfold tryFinally, tryCatch in Hr. exact Hr.
    + exists [s'], (finallyBlock j s'), (catchBlock j e).
      split; [reflexivity|].
      split; [constructor; [rewrite Hs'; exact Hflag | constructor]|].
      split; [apply finally_resets | reflexivity].
    + exfalso. apply Hfuel. reflexivity.
Qed.

Variable setFlag : State -> State.
Variable rest : Block A.
Hypothesis try_sets_flag : tryBlock j = Do (modify setFlag) (fun _ => rest).
Hypothesis setFlag_sets : forall s, alreadyRunning j (setFlag s) = true.
Hypothesis rest_flagSafe : flagSafe j rest.

Lemma invoke_running s :
  alreadyRunning j s = true ->
  invoke j s = (Returned (whenRunning j), s).
Proof. intros H. unfold invoke, bind, get. rewrite H. reflexivity. Qed.

(** An invocation that finds the job idle: the flag is set in every
    state between the first statement of the [try] block and the
    [finally] block, and reset in the state the invocation ends in. *)
Lemma course_idle s :
  alreadyRunning j s = false ->
  exists between final a,
    course j s = between ++ [final]
    /\ between <> []
    /\ Forall (fun s' => alreadyRunning j s' = true
                         /\ invoke j s' = (Returned (whenRunning j), s'))
              between
    /\ alreadyRunning j final = false
    /\ invoke j s = (Returned a, final).
Proof.
  intros Hidle.
  destruct (courseOf_flagSafe rest (setFlag s) rest_flagSafe (setFlag_sets s))
    as (between & final & a & Hc & Hb & Hf & Hr).
  exists (setFlag s :: between), final, a.
  split.
  { unfold course. rewrite Hidle, try_sets_flag.
    cbn [courseOf]. unfold modify. rewrite Hc. reflexivity. }
  split; [discriminate|].
  split.
  { assert (Hall : Forall (fun s' => alreadyRunning j s' = true)
                          (setFlag s :: between))
      by (constructor; [apply setFlag_sets | exact Hb]).
    eapply Forall_impl; [|exact Hall].
    intros s' Hs'. split; [exact Hs' | apply invoke_running, Hs']. }
  split; [exact Hf|].
  unfold invoke, bind at 1, get. rewrite Hidle, try_sets_flag.
  cbn [sequentially]. unfold tryFinally, tryCatch, bind at 1, modify.
  unfold tryFinally, tryCatch in Hr. exact Hr.
Qed.

End JobCourse.

(** A statement that keeps both flags and ends. *)
Lemma flagSafe_statement {A B} (j : Job A) (m : M B) :
  (forall s s', keepsFlags s s' ->
                alreadyRunning j s' = alreadyRunning j s) ->
  stable keepsFlags m -> total m ->
  forall s o s',
    m s = (o, s') ->
    alreadyRunning j s' = alreadyRunning j s /\ o <> OutOfFuel.
Proof.
  intros Hj Hst Ht s o s' E. split.
  - apply Hj. exact (Hst _ _ _ E).
  - intros Ho. apply (Ht s). rewrite E. exact Ho.
Qed.

Lemma total_fs_existsSync : total fs_existsSync.
Proof.
  unfold fs_existsSync, record.
  apply total_bind; [apply total_modify|]. intros _.
  apply total_bind; [apply total_get | intros; apply total_ret].
Qed.

Lemma total_fs_mkdirSync : total fs_mkdirSync.
Proof.
  unfold fs_mkdirSync.
  apply total_bind; [apply total_call | intros; apply total_modify].
Qed.

Lemma total_fs_readdirSync : total fs_readdirSync.
Proof.
  unfold fs_readdirSync.
  apply total_bind; [apply total_call|]. intros _.
  apply total_bind; [apply total_get|].
  intros [es|]; [apply total_ret | apply total_throw].
Qed.

(** The statements of the media job after the assignment to the
    flag. *)
Lemma cleanupMediaFiles_statements_flagSafe :
  flagSafe cleanupMediaFiles_job cleanupMediaFiles_statements.
Proof.
  assert (Hj : forall s s', keepsFlags s s' ->
                 alreadyRunning cleanupMediaFiles_job s'
                 = alreadyRunning cleanupMediaFiles_job s)
    by (intros s s' [H _]; exact H).
  unfold cleanupMediaFiles_statements. cbn [flagSafe]. split.
  { apply flagSafe_statement;
      [exact Hj | | apply total_getMediaKeysFromDatabase].
    sapply stable_getMediaKeysFromDatabase; apply keepsFlags_logs. }
  intros dbMediaKeys. split.
  { apply flagSafe_statement; [exact Hj | | apply total_getMediaKeysFromR2].
    sapply stable_getMediaKeysFromR2; intros; apply keepsFlags_logs. }
  intros r2MediaKeys. cbv zeta. cbn [flagSafe]. split.
  { apply flagSafe_statement;
      [exact Hj | | apply total_deleteOrphanedR2Files].
    sapply stable_deleteOrphanedR2Files. intros i j.
    sapply stable_call_modify; [apply keepsFlags_logs|].
    intros s; apply keepsFlags_set_bucket. }
  intros _. split; [|intros _; exact I].
  apply flagSafe_statement;
    [exact Hj | | apply total_cleanupDanglingDatabaseReferences].
  sapply stable_cleanupDanglingDatabaseReferences; intros p;
    (sapply stable_call_modify; [apply keepsFlags_logs|]); intros s;
    first [apply keepsFlags_set_products | apply keepsFlags_set_categories].
Qed.

(** The statements of the temp-file job after the assignment to the
    flag. *)
Lemma cleanupOldTempFiles_statements_flagSafe :
  flagSafe cleanupOldTempFiles_job cleanupOldTempFiles_statements.
Proof.
  assert (Hj : forall s s', keepsFlags s s' ->
                 alreadyRunning cleanupOldTempFiles_job s'
                 = alreadyRunning cleanupOldTempFiles_job s)
    by (intros s s' [_ H]; exact H).
  unfold cleanupOldTempFiles_statements. cbn [flagSafe]. split.
  { apply flagSafe_statement; [exact Hj | | apply total_fs_existsSync].
    sapply stable_fs_existsSync. apply keepsFlags_logs. }
  intros dirExists. destruct (negb dirExists); cbn [flagSafe].
  { split; [|intros _; exact I].
    apply flagSafe_statement; [exact Hj | | apply total_fs_mkdirSync].
    sapply stable_fs_mkdirSync;
      [apply keepsFlags_logs | apply keepsFlags_set_tempDir]. }
  split.
  { apply flagSafe_statement; [exact Hj | | apply total_fs_readdirSync].
    sapply stable_fs_readdirSync. apply keepsFlags_logs. }
  intros files. destruct (length files =? 0); cbn [flagSafe]; [exact I|].
  split.
  { apply flagSafe_statement; [exact Hj | | apply total_get].
    sapply stable_get. }
  intros now_. split; [|intros _; exact I].
  apply flagSafe_statement; [exact Hj | | apply total_processTempFiles].
  sapply stable_processTempFiles;
    [apply keepsFlags_logs | apply keepsFlags_set_tempDir].
Qed.

(** Nothing interrupting them, the jobs statement by statement are the
    two functions of the service. *)
Lemma cleanupMediaFiles_job_invoke :
  invoke cleanupMediaFiles_job = cleanupMediaFiles.
Proof. reflexivity. Qed.

Lemma cleanupOldTempFiles_statements_sequentially s :
  sequentially cleanupOldTempFiles_statements s = cleanupOldTempFiles_steps s.
Proof.
  unfold cleanupOldTempFiles_statements, cleanupOldTempFiles_steps.
  cbn [sequentially]. unfold bind.
  destruct (fs_existsSync s) as [[dirExists|e|] s2]; try reflexivity.
  destruct (negb dirExists); [reflexivity|].
  cbn [sequentially]. unfold bind.
  destruct (fs_readdirSync s2) as [[files|e|] s3]; try reflexivity.
  destruct (length files =? 0); [reflexivity|].
  cbn [sequentially]. unfold bind, get.
  destruct (processTempFiles (now s3) files zeroTemp s3) as [[r|e|] s4];
    reflexivity.
Qed.

Lemma cleanupOldTempFiles_job_invoke s :
  invoke cleanupOldTempFiles_job s = cleanupOldTempFiles s.
Proof.
  unfold invoke, cleanupOldTempFiles, cleanupOldTempFiles_body.
  cbn [alreadyRunning tryBlock catchBlock finallyBlock
       cleanupOldTempFiles_job sequentially].
  unfold tryFinally, tryCatch, bind, get, modify.
  destruct (isTempCleanupRunning s); [reflexivity|].
  rewrite cleanupOldTempFiles_statements_sequentially. reflexivity.
Qed.

(** C3.  For each of the two jobs.  An invocation that finds the job's
    flag set returns the zero result at once and leaves the whole
    state, trace of collaborator calls included, untouched.  An
    invocation that finds the flag clear passes through states in all
    of which the flag is set, from its first statement to its last,
    whether the statements return or one of them throws; in each of
    these states another invocation of the job would return the zero
    result at once and leave the state untouched; and it ends, with the
    result of the statements or the zero result after a throw, in a
    state in which the flag is clear again. *)
Theorem C3_run_exclusivity :
  forall s,
    (isCleanupRunning s = true ->
     invoke cleanupMediaFiles_job s = (Returned zeroMedia, s)
     /\ course cleanupMediaFiles_job s = [])
    /\ (isTempCleanupRunning s = true ->
        invoke cleanupOldTempFiles_job s = (Returned zeroTemp, s)
        /\ course cleanupOldTempFiles_job s = [])
    /\ (isCleanupRunning s = false ->
        exists between final r,
          course cleanupMediaFiles_job s = between ++ [final]
          /\ between <> []
          /\ Forall (fun s' =>
                       isCleanupRunning s' = true
                       /\ invoke cleanupMediaFiles_job s'
                          = (Returned zeroMedia, s'))
                    between
          /\ isCleanupRunning final = false
          /\ invoke cleanupMediaFiles_job s = (Returned r, final))
    /\ (isTempCleanupRunning s = false ->
        exists between final r,
          course cleanupOldTempFiles_job s = between ++ [final]
          /\ between <> []
          /\ Forall (fun s' =>
                       isTempCleanupRunning s' = true
                       /\ invoke cleanupOldTempFiles_job s'
                          = (Returned zeroTemp, s'))
                    between
          /\ isTempCleanupRunning final = false
          /\ invoke cleanupOldTempFiles_job s = (Returned r, final)).
Proof.
  intros s. split; [|split; [|split]].
  - intros H. split; [apply (invoke_running cleanupMediaFiles_job), H|].
    unfold course. cbn [alreadyRunning cleanupMediaFiles_job].
    rewrite H. reflexivity.
  - intros H. split; [apply (invoke_running cleanupOldTempFiles_job), H|].
    unfold course. cbn [alreadyRunning cleanupOldTempFiles_job].
    rewrite H. reflexivity.
  - intros H.
    apply (course_idle cleanupMediaFiles_job (fun _ => eq_refl)
             (set_isCleanupRunning true) cleanupMediaFiles_statements
             eq_refl (fun _ => eq_refl)
             cleanupMediaFiles_statements_flagSafe s H).
  - intros H.
    apply (course_idle cleanupOldTempFiles_job (fun _ => eq_refl)
             (set_isTempCleanupRunning true) cleanupOldTempFiles_statements
             eq_refl (fun _ => eq_refl)
             cleanupOldTempFiles_statements_flagSafe s H).
Qed.

(** Scenario A: an invocation while a run is active returns zeros and
    leaves the state alone; an idle invocation passes five states with
    the flag set and ends with the flag clear.  Scenario C, where the
    listing throws: the invocation still ends with the flag clear. *)
Lemma C3_run_exclusivity_witness :
  invoke cleanupMediaFiles_job (set_isCleanupRunning true scenarioA)
  = (Returned zeroMedia, set_isCleanupRunning true scenarioA)
  /\ map isCleanupRunning (course cleanupMediaFiles_job scenarioA)
     = [true; true; true; true; true; false]
  /\ isCleanupRunning (snd (invoke cleanupMediaFiles_job scenarioC)) = false.
Proof.
  split; [|split].
  - apply (proj1 (C3_run_exclusivity _)). reflexivity.
  - vm_compute. reflexivity.
  - destruct (proj1 (proj2 (proj2 (C3_run_exclusivity scenarioC))) eq_refl)
      as (between & final & r & _ & _ & _ & Hf & Hr).
    rewrite Hr. exact Hf.
Defined.

(* ================================================================== *)
(** * The batch deleter *)

(** ** Partition into consecutive slices *)

Section Chunks.
Context {A : Type}.
Variable n : nat.
Hypothesis n_pos : 0 < n.

Lemma chunksFuel_enough :
  forall f1 f2 (l : list A),
    length l <= f1 -> length l <= f2 -> chunksFuel f1 n l = chunksFuel f2 n l.
Proof.
  induction f1 as [|f1 IH]; intros f2 l H1 H2.
  - destruct l; simpl in *; [|lia]. destruct f2; reflexivity.
  - destruct l as [|a l]; [destruct f2; reflexivity|].
    cbn [length] in *.
    destruct f2 as [|f2]; [lia|].
    cbn [chunksFuel]. f_equal.
    apply IH; rewrite length_skipn; cbn [length]; lia.
Qed.

Lemma chunks_nil : chunks n (@nil A) = [].
Proof. reflexivity. Qed.

Lemma chunks_unfold (l : list A) :
  l <> [] -> chunks n l = firstn n l :: chunks n (skipn n l).
Proof.
  intros Hl. unfold chunks. destruct l as [|a l]; [congruence|].
  cbn [length chunksFuel]. f_equal.
  apply chunksFuel_enough; rewrite length_skipn; cbn [length]; lia.
Qed.

(** Induction along the slices. *)
Lemma chunks_ind (P : list A -> Prop) :
  P [] ->
  (forall l, l <> [] -> P (skipn n l) -> P l) ->
  forall l, P l.
Proof.
  intros H0 Hs l.
  remember (length l) as m eqn:Hm. revert l Hm.
  induction m as [m IH] using lt_wf_ind. intros l Hm.
  destruct l as [|a l]; [exact H0|].
  apply Hs; [discriminate|].
  apply (IH (length (skipn n (a :: l)))); [|reflexivity].
  rewrite length_skipn. cbn [length] in *. lia.
Qed.

Lemma concat_chunks (l : list A) : concat (chunks n l) = l.
Proof.
  induction l as [|l Hl IH] using chunks_ind; [reflexivity|].
  rewrite chunks_unfold by exact Hl. simpl. rewrite IH.
  apply firstn_skipn.
Qed.

Lemma chunks_bounded (l : list A) :
  Forall (fun c => 0 < length c <= n) (chunks n l).
Proof.
  induction l as [|l Hl IH] using chunks_ind; [constructor|].
  rewrite chunks_unfold by exact Hl. constructor; [|exact IH].
  rewrite length_firstn. destruct l; [congruence|cbn [length]; lia].
Qed.

Lemma length_chunks (l : list A) :
  length (chunks n l) = ceilDiv (length l) n.
Proof.
  unfold ceilDiv.
  induction l as [|l Hl IH] using chunks_ind.
  - simpl. symmetry. apply Nat.div_small. lia.
  - rewrite chunks_unfold by exact Hl. simpl. rewrite IH, length_skipn.
    assert (0 < length l) by (destruct l; [congruence|cbn [length]; lia]).
    destruct (Nat.le_gt_cases (length l) n) as [Hle|Hgt].
    + replace (length l - n) with 0 by lia.
      rewrite (Nat.div_small (0 + n - 1) n) by lia.
      apply Nat.div_unique with (r := length l - 1); lia.
    + replace (length l + n - 1) with ((length l - n + n - 1) + 1 * n) by lia.
      rewrite Nat.div_add by lia. lia.
Qed.

End Chunks.

(** The sizes of the slices depend on the number of keys only. *)
Lemma map_length_chunksFuel {A B} (n : nat) :
  forall f (l : list A) (l' : list B),
    length l = length l' ->
    map (@length A) (chunksFuel f n l) = map (@length B) (chunksFuel f n l').
Proof.
  induction f as [|f IH]; intros l l' Hlen; [reflexivity|].
  destruct l as [|a l], l' as [|b l']; try discriminate; [reflexivity|].
  cbn [chunksFuel map]. f_equal.
  - rewrite !length_firstn. congruence.
  - apply IH. rewrite !length_skipn. congruence.
Qed.

Lemma chunk_sizes_2500 {A} (l : list A) :
  length l = 2500 -> map (@length A) (chunks 1000 l) = [1000; 1000; 500].
Proof.
  intros H. unfold chunks.
  rewrite (map_length_chunksFuel 1000 (length l) l (repeat tt 2500))
    by (rewrite repeat_length; exact H).
  rewrite H. vm_compute. reflexivity.
Qed.

(** ** The delete loop issues the slices *)

Lemma slice_batch {A} (i bs : nat) (l : list A) :
  slice i (i + bs) l = firstn bs (skipn i l).
Proof. unfold slice. replace (i + bs - i) with bs by lia. reflexivity. Qed.

Lemma inKeys_app (a b : list string) (k : string) :
  inKeys (a ++ b) k = inKeys a k || inKeys b k.
Proof. unfold inKeys. apply existsb_app. Qed.

Lemma inKeys_In (ks : list string) (k : string) :
  inKeys ks k = true <-> In k ks.
Proof.
  unfold inKeys. rewrite existsb_exists. split.
  - intros (x & Hx & E). apply String.eqb_eq in E. subst. exact Hx.
  - intros H. exists k. split; [exact H | apply String.eqb_refl].
Qed.

Lemma keysMinus_nil (a : list string) : keysMinus a [] = a.
Proof.
  unfold keysMinus. induction a as [|x a IH]; simpl; [reflexivity|].
  f_equal. exact IH.
Qed.

Lemma keysMinus_app (a b c : list string) :
  keysMinus (keysMinus a b) c = keysMinus a (b ++ c).
Proof.
  unfold keysMinus. induction a as [|x a IH]; simpl; [reflexivity|].
  rewrite inKeys_app.
  destruct (inKeys b x) eqn:Eb; simpl; [exact IH|].
  destruct (inKeys c x); simpl; [exact IH | f_equal; exact IH].
Qed.

Lemma In_keysMinus (a b : list string) (k : string) :
  In k (keysMinus a b) <-> In k a /\ ~ In k b.
Proof.
  unfold keysMinus. rewrite filter_In, negb_true_iff.
  rewrite <- inKeys_In with (ks := b).
  destruct (inKeys b k); intuition congruence.
Qed.

Lemma skipn_nonempty {A} (i : nat) (l : list A) :
  i < length l -> skipn i l <> [].
Proof.
  intros H E. apply (f_equal (@length A)) in E.
  rewrite length_skipn in E. simpl in E. lia.
Qed.

Lemma r2_deleteObjects_ok keys s :
  faults s (length (trace s)) (DeleteObjects keys) = None ->
  r2_deleteObjects keys s
  = (Returned tt,
     set_bucket (keysMinus (bucket s) keys)
                (set_trace (trace s ++ [DeleteObjects keys]) s)).
Proof.
  intros H. unfold r2_deleteObjects, bind, call, modify. rewrite H.
  reflexivity.
Qed.

Lemma r2_deleteObjects_fault keys s e :
  faults s (length (trace s)) (DeleteObjects keys) = Some e ->
  r2_deleteObjects keys s
  = (Thrown e, set_trace (trace s ++ [DeleteObjects keys]) s).
Proof.
  intros H. unfold r2_deleteObjects, bind, call, modify. rewrite H.
  reflexivity.
Qed.

Section DeleteLoop.
Variable bs : nat.
Hypothesis bs_pos : 0 < bs.

Lemma deleteLoop_S fuel i keys :
  deleteLoop bs (S fuel) i keys
  = if i <? length keys
    then r2_deleteObjects (slice i (i + bs) keys);;
         deleteLoop bs fuel (i + bs) keys
    else ret tt.
Proof. reflexivity. Qed.

(** When no delete call throws, the loop issues every slice, in order,
    and the keys are gone from the bucket. *)
Lemma deleteLoop_ok :
  forall fuel i keys s,
    length keys <= i + fuel ->
    (forall n b, faults s n (DeleteObjects b) = None) ->
    deleteLoop bs (S fuel) i keys s
    = (Returned tt,
       set_bucket (keysMinus (bucket s) (skipn i keys))
         (set_trace (trace s ++ map DeleteObjects (chunks bs (skipn i keys)))
                    s)).
Proof.
  induction fuel as [|fuel IH]; intros i keys s Hlen Hf;
    rewrite deleteLoop_S;
    destruct (Nat.ltb_spec i (length keys)) as [Hi|Hi]; try lia.
  - rewrite skipn_all2 by lia. rewrite chunks_nil, keysMinus_nil.
    simpl. rewrite app_nil_r. destruct s; reflexivity.
  - unfold bind at 1. rewrite r2_deleteObjects_ok by apply Hf.
    rewrite IH; [|lia|intros; apply Hf].
    rewrite slice_batch.
    assert (Hsk : skipn (i + bs) keys = skipn bs (skipn i keys))
      by (rewrite skipn_skipn; f_equal; lia).
    rewrite Hsk.
    rewrite (chunks_unfold bs bs_pos _ (skipn_nonempty i keys Hi)).
    cbn [bucket trace set_bucket set_trace map].
    rewrite keysMinus_app, firstn_skipn, <- app_assoc.
    destruct s; reflexivity.
  - rewrite skipn_all2 by lia. rewrite chunks_nil, keysMinus_nil.
    simpl. rewrite app_nil_r. destruct s; reflexivity.
Qed.

(** Whatever the storage answers, the loop either issues every slice and
    returns, or stops at the first slice whose delete call throws: that
    call is the last one issued, and the slices before it are deleted. *)
Lemma deleteLoop_run :
  forall fuel i keys s o s',
    length keys <= i + fuel ->
    deleteLoop bs (S fuel) i keys s = (o, s') ->
    let cs := chunks bs (skipn i keys) in
    (o = Returned tt
     /\ trace s' = trace s ++ map DeleteObjects cs
     /\ bucket s' = keysMinus (bucket s) (skipn i keys)
     /\ accepted s cs (length cs))
    \/ (exists e j,
          o = Thrown e
          /\ j < length cs
          /\ trace s' = trace s ++ map DeleteObjects (firstn (S j) cs)
          /\ faults s (length (trace s) + j) (DeleteObjects (nth j cs []))
             = Some e
          /\ bucket s' = keysMinus (bucket s) (concat (firstn j cs))
          /\ accepted s cs j).
Proof.
  induction fuel as [|fuel IH]; intros i keys s o s' Hlen Hrun;
    rewrite deleteLoop_S in Hrun;
    destruct (Nat.ltb_spec i (length keys)) as [Hi|Hi]; try lia.
  - left. inversion Hrun; subst.
    rewrite skipn_all2 by lia. rewrite chunks_nil, keysMinus_nil.
    simpl. rewrite app_nil_r. repeat split; auto. intros k Hk; lia.
  - rewrite slice_batch in Hrun.
    assert (Hsk : skipn (i + bs) keys = skipn bs (skipn i keys))
      by (rewrite skipn_skipn; f_equal; lia).
    cbv zeta.
    rewrite (chunks_unfold bs bs_pos _ (skipn_nonempty i keys Hi)).
    unfold bind in Hrun.
    destruct (faults s (length (trace s))
                     (DeleteObjects (firstn bs (skipn i keys)))) as [e|] eqn:Ef.
    + rewrite (r2_deleteObjects_fault _ _ _ Ef) in Hrun.
      inversion Hrun; subst. right. exists e, 0.
      cbn [length firstn map nth concat bucket trace set_trace].
      rewrite Nat.add_0_r, keysMinus_nil. repeat split; auto; try lia.
      intros k Hk; lia.
    + rewrite (r2_deleteObjects_ok _ _ Ef) in Hrun.
      apply IH in Hrun; [|lia]. cbv zeta in Hrun. rewrite Hsk in Hrun.
      unfold accepted in *.
      cbn [bucket trace set_bucket set_trace faults] in Hrun.
      assert (Hshift :
                forall j,
                  (forall k, k < j ->
                     faults s (length (trace s ++
                                 [DeleteObjects (firstn bs (skipn i keys))]) + k)
                       (DeleteObjects
                          (nth k (chunks bs (skipn bs (skipn i keys))) []))
                     = None) ->
                  forall k, k < S j ->
                    faults s (length (trace s) + k)
                      (DeleteObjects
                         (nth k (firstn bs (skipn i keys)
                                   :: chunks bs (skipn bs (skipn i keys))) []))
                    = None).
      { intros j Hj k Hk. destruct k as [|k].
        - rewrite Nat.add_0_r. exact Ef.
        - cbn [nth]. rewrite <- (Hj k) by lia. f_equal.
          rewrite length_app. simpl. lia. }
      destruct Hrun as [(Ho & Ht & Hb & Ha)
                       | (e & j & Ho & Hj & Ht & Hfa & Hb & Ha)].
      * left. repeat split; auto.
        -- rewrite Ht, <- app_assoc. reflexivity.
        -- rewrite Hb, keysMinus_app, firstn_skipn. reflexivity.
        -- cbn [length]. apply Hshift. exact Ha.
      * right. exists e, (S j).
        cbn [length firstn map nth concat].
        repeat split; auto.
        -- lia.
        -- rewrite Ht, <- app_assoc. reflexivity.
        -- rewrite <- Hfa. f_equal. rewrite length_app. simpl. lia.
        -- rewrite Hb, keysMinus_app. reflexivity.
        -- apply Hshift. exact Ha.
  - left. inversion Hrun; subst.
    rewrite skipn_all2 by lia. rewrite chunks_nil, keysMinus_nil.
    simpl. rewrite app_nil_r. repeat split; auto. intros k Hk; lia.
Qed.
End DeleteLoop.

(** ** The deleter *)

Lemma deleteOrphanedR2Files_run keys s :
  let cs := chunks batchSize keys in
  let r := deleteOrphanedR2Files keys s in
  (fst r = Returned tt
   /\ trace (snd r) = trace s ++ map DeleteObjects cs
   /\ bucket (snd r) = keysMinus (bucket s) keys
   /\ accepted s cs (length cs))
  \/ (exists e j,
        fst r = Thrown e
        /\ j < length cs
        /\ trace (snd r) = trace s ++ map DeleteObjects (firstn (S j) cs)
        /\ faults s (length (trace s) + j) (DeleteObjects (nth j cs []))
           = Some e
        /\ bucket (snd r) = keysMinus (bucket s) (concat (firstn j cs))
        /\ accepted s cs j).
Proof.
  cbv zeta. unfold deleteOrphanedR2Files.
  destruct (Nat.eqb_spec (length keys) 0) as [H0|H0].
  - apply length_zero_iff_nil in H0. subst keys.
    left. simpl. rewrite app_nil_r, keysMinus_nil. repeat split; auto.
    intros k Hk; simpl in Hk; lia.
  - unfold tryCatch.
    destruct (deleteLoop batchSize (S (length keys)) 0 keys s)
      as [o s'] eqn:E.
    apply deleteLoop_run in E; [|unfold batchSize; lia|lia].
    cbv zeta in E. rewrite skipn_O in E.
    destruct E as [(Ho & Ht & Hb & Ha)
                  | (e & j & Ho & Hj & Ht & Hf & Hb & Ha)]; subst o.
    + left. auto.
    + right. exists e, j. unfold throw. repeat split; auto.
Qed.

Lemma deleteCalls_app (a b : list Call) :
  deleteCalls (a ++ b) = deleteCalls a ++ deleteCalls b.
Proof. unfold deleteCalls. apply flat_map_app. Qed.

Lemma deleteCalls_map (cs : list (list string)) :
  deleteCalls (map DeleteObjects cs) = cs.
Proof.
  induction cs as [|c cs IH]; [reflexivity|]. simpl. f_equal. exact IH.
Qed.

(** C4, as amended.  The deleter partitions the keys, in order, into
    ceil(n/1000) consecutive slices of at most 1000 keys (2500 keys: 1000,
    1000 and 500) and issues one delete call per slice, in sequence,
    stopping after the first call that throws: either every call is
    accepted, every slice is issued and the deleter returns; or some
    call [j] is the first the storage rejects, the slices up to and
    including slice [j] are the calls issued, and the deleter throws
    the storage's error. *)
Theorem C4_delete_batches :
  forall keys s,
    let cs := chunks batchSize keys in
    let r := deleteOrphanedR2Files keys s in
    concat cs = keys
    /\ length cs = ceilDiv (length keys) 1000
    /\ Forall (fun c => 0 < length c <= 1000) cs
    /\ (length keys = 2500 -> map (@length string) cs = [1000; 1000; 500])
    /\ ((accepted s cs (length cs)
         /\ fst r = Returned tt
         /\ deleteCalls (trace (snd r)) = deleteCalls (trace s) ++ cs)
        \/ (exists e j,
              j < length cs
              /\ accepted s cs j
              /\ faults s (length (trace s) + j)
                        (DeleteObjects (nth j cs [])) = Some e
              /\ fst r = Thrown e
              /\ deleteCalls (trace (snd r))
                 = deleteCalls (trace s) ++ firstn (S j) cs))
    /\ ((forall n b, faults s n (DeleteObjects b) = None) ->
        fst r = Returned tt
        /\ deleteCalls (trace (snd r)) = deleteCalls (trace s) ++ cs).
Proof.
  intros keys s cs r.
  assert (Hpos : 0 < batchSize) by (unfold batchSize; lia).
  split; [apply concat_chunks; exact Hpos|].
  split; [apply length_chunks; exact Hpos|].
  split; [apply (chunks_bounded batchSize Hpos)|].
  split; [apply chunk_sizes_2500|].
  pose proof (deleteOrphanedR2Files_run keys s) as Hrun. cbv zeta in Hrun.
  fold cs r in Hrun.
  assert (Hcases :
            (accepted s cs (length cs)
             /\ fst r = Returned tt
             /\ deleteCalls (trace (snd r)) = deleteCalls (trace s) ++ cs)
            \/ (exists e j,
                  j < length cs
                  /\ accepted s cs j
                  /\ faults s (length (trace s) + j)
                            (DeleteObjects (nth j cs [])) = Some e
                  /\ fst r = Thrown e
                  /\ deleteCalls (trace (snd r))
                     = deleteCalls (trace s) ++ firstn (S j) cs)).
  { destruct Hrun as [(Ho & Ht & _ & Ha) | (e & j & Ho & Hj & Ht & Hf & _ & Ha)].
    - left. split; [exact Ha|]. split; [exact Ho|].
      rewrite Ht, deleteCalls_app, deleteCalls_map. reflexivity.
    - right. exists e, j. repeat split; auto.
      rewrite Ht, deleteCalls_app, deleteCalls_map. reflexivity. }
  split; [exact Hcases|].
  intros Hnf. destruct Hcases as [(_ & H) | (e & j & _ & _ & Hf & _)]; [exact H|].
  rewrite Hnf in Hf. discriminate.
Qed.

(** 2500 keys and a storage that accepts every request: three delete
    calls, of 1000, 1000 and 500 keys. *)
Lemma C4_delete_batches_witness :
  map (@length string)
      (deleteCalls
         (trace (snd (deleteOrphanedR2Files
                        (galleryKeys 2500)
                        (stateOf (galleryKeys 2500) [] [] noFaults)))))
  = [1000; 1000; 500].
Proof.
  destruct (C4_delete_batches
              (galleryKeys 2500) (stateOf (galleryKeys 2500) [] [] noFaults))
    as (_ & _ & _ & Hsizes & _ & Hok).
  destruct Hok as [_ Ht]; [reflexivity|].
  rewrite Ht. simpl deleteCalls. simpl app.
  apply Hsizes. vm_compute. reflexivity.
Defined.

(** 2500 keys and a storage that rejects delete requests: one delete
    call is issued, not three. *)
Lemma C4_counterexample : ~ deleter_issues_every_batch.
Proof.
  intros H.
  specialize (H (galleryKeys 2500)
                (stateOf (galleryKeys 2500) [] [] deleteFaults)).
  revert H. vm_compute. discriminate.
Qed.

(* ================================================================== *)
(** * The two snapshots *)

Lemma set_trace_set_trace t1 t2 s :
  set_trace t2 (set_trace t1 s) = set_trace t2 s.
Proof. reflexivity. Qed.

Lemma set_trace_same s : set_trace (trace s) s = s.
Proof. destruct s; reflexivity. Qed.

(** ** Key sets *)

Lemma JsSet_has_In (s : JsSet.t) (k : string) :
  JsSet.has s k = true <-> In k s.
Proof. apply inKeys_In. Qed.

Lemma In_JsSet_add (s : JsSet.t) (x k : string) :
  In k (JsSet.add s x) <-> In k s \/ k = x.
Proof.
  unfold JsSet.add. destruct (JsSet.has s x) eqn:E.
  - apply JsSet_has_In in E. split; [auto|]. intros [H|H]; subst; auto.
  - rewrite in_app_iff. simpl. intuition.
Qed.

Lemma NoDup_JsSet_add (s : JsSet.t) (x : string) :
  NoDup s -> NoDup (JsSet.add s x).
Proof.
  intros H. unfold JsSet.add. destruct (JsSet.has s x) eqn:E; [exact H|].
  apply NoDup_app; [exact H | repeat constructor; auto |].
  intros k Hk [Hx|[]]. subst.
  apply JsSet_has_In in Hk. congruence.
Qed.

Lemma In_JsSet_addAll (ks : list string) :
  forall (s : JsSet.t) (k : string),
    In k (JsSet.addAll s ks) <-> In k s \/ In k ks.
Proof.
  unfold JsSet.addAll.
  induction ks as [|x ks IH]; intros s k; simpl; [intuition|].
  rewrite IH, In_JsSet_add. intuition.
Qed.

Lemma NoDup_JsSet_addAll (ks : list string) :
  forall s : JsSet.t, NoDup s -> NoDup (JsSet.addAll s ks).
Proof.
  unfold JsSet.addAll.
  induction ks as [|x ks IH]; intros s H; simpl; [exact H|].
  apply IH, NoDup_JsSet_add, H.
Qed.

Lemma JsSet_addAll_app (s : JsSet.t) (a b : list string) :
  JsSet.addAll s (a ++ b) = JsSet.addAll (JsSet.addAll s a) b.
Proof. unfold JsSet.addAll. apply fold_left_app. Qed.

(** ** The referenced-key snapshot *)

Lemma getMediaKeysFromDatabase_inv s o s' :
  getMediaKeysFromDatabase s = (o, s') ->
  (o = Returned (referencedKeys (products s) (categories s))
   /\ readyState s = 1
   /\ s' = set_trace (trace s ++ [ProductFind; CategoryFind]) s)
  \/ (exists e t,
        o = Thrown e /\ s' = set_trace (trace s ++ t) s
        /\ Forall (fun c => mutating c = false) t).
Proof.
  unfold getMediaKeysFromDatabase, executeDbOperation, tryCatch, bind, get.
  destruct (Nat.eqb_spec (readyState s) 1) as [Hrs|Hrs]; cbn [negb].
  2:{ unfold throw. intros H; inversion H; subst. right.
      eexists; exists []. rewrite app_nil_r, set_trace_same.
      repeat split; auto. }
  unfold Product_find, Category_find, bind, call, get, ret, throw.
  destruct (faults s (length (trace s)) ProductFind) as [e|] eqn:E1.
  { intros H; inversion H; subst. right.
    eexists; exists [ProductFind]. repeat split; auto. }
  cbn [trace set_trace faults products categories].
  destruct (faults s (length (trace s ++ [ProductFind])) CategoryFind)
    as [e|] eqn:E2.
  { intros H; inversion H; subst. right.
    eexists; exists [ProductFind; CategoryFind].
    rewrite <- app_assoc. repeat split; auto. }
  intros H; inversion H; subst. left.
  rewrite <- app_assoc. repeat split; auto.
Qed.

(** ** The stored-key snapshot *)

Lemma getR2KeysLoop_inv maxKeys prefix :
  forall fuel token mediaKeys s o s',
    getR2KeysLoop maxKeys fuel prefix token mediaKeys s = (o, s') ->
    exists t,
      s' = set_trace (trace s ++ t) s
      /\ Forall (fun c => isListCall c = true) t
      /\ forall ks,
          o = Returned ks ->
          ks = JsSet.addAll mediaKeys
                 (skipn (tokenStart token)
                        (filter (fun k => startsWith k prefix) (bucket s))).
Proof.
  induction fuel as [|fuel IH]; intros token mediaKeys s o s' H.
  - inversion H; subst. exists []. rewrite app_nil_r, set_trace_same.
    repeat split; auto. intros ks Hks; discriminate.
  - cbn [getR2KeysLoop] in H. unfold bind at 1 in H.
    unfold r2_listObjectsV2, bind, call, get, ret in H.
    destruct (faults s (length (trace s)) (ListObjectsV2 prefix token)).
    { inversion H; subst. exists [ListObjectsV2 prefix token].
      repeat split; auto. intros ks Hks; discriminate. }
    cbn [fst snd bucket set_trace] in H.
    fold (tokenStart token) in H.
    set (rest := skipn (tokenStart token)
                       (filter (fun k => startsWith k prefix) (bucket s))) in *.
    destruct (maxKeys <? length rest) eqn:E.
    + apply IH in H. destruct H as (t & Hs & Ht & Hks).
      exists (ListObjectsV2 prefix token :: t).
      cbn [trace set_trace bucket tokenStart] in *.
      rewrite <- app_assoc in Hs. repeat split; auto.
      intros ks Hr. rewrite (Hks ks Hr).
      rewrite <- JsSet_addAll_app. f_equal.
      replace (tokenStart token + maxKeys) with (maxKeys + tokenStart token)
        by lia.
      rewrite <- skipn_skipn. fold rest. apply firstn_skipn.
    + inversion H; subst. exists [ListObjectsV2 prefix token].
      repeat split; auto. intros ks Hr. inversion Hr; subst.
      f_equal. apply firstn_all2. apply Nat.ltb_ge in E. exact E.
Qed.

Lemma getR2KeysWithPrefix_inv prefix mediaKeys s o s' :
  getR2KeysWithPrefix prefix mediaKeys s = (o, s') ->
  exists t,
    s' = set_trace (trace s ++ t) s
    /\ Forall (fun c => isListCall c = true) t
    /\ forall ks,
        o = Returned ks ->
        ks = JsSet.addAll mediaKeys
                          (filter (fun k => startsWith k prefix) (bucket s)).
Proof.
  unfold getR2KeysWithPrefix, bind, get. intros H.
  apply getR2KeysLoop_inv in H. exact H.
Qed.

Lemma getMediaKeysFromR2_inv s o s' :
  getMediaKeysFromR2 s = (o, s') ->
  exists t,
    s' = set_trace (trace s ++ t) s
    /\ Forall (fun c => isListCall c = true) t
    /\ forall ks, o = Returned ks -> ks = storedKeys (bucket s).
Proof.
  unfold getMediaKeysFromR2, tryCatch, bind. intros H.
  destruct (getR2KeysWithPrefix PRODUCT_IMAGE_PREFIX JsSet.empty s)
    as [o1 s1] eqn:E1.
  apply getR2KeysWithPrefix_inv in E1. destruct E1 as (t1 & Hs1 & Ht1 & Hk1).
  destruct o1 as [k1|e1|];
    [|inversion H; subst; exists t1; repeat split; auto; discriminate ..].
  destruct (getR2KeysWithPrefix PRODUCT_THUMBNAIL_PREFIX k1 s1)
    as [o2 s2] eqn:E2.
  apply getR2KeysWithPrefix_inv in E2. destruct E2 as (t2 & Hs2 & Ht2 & Hk2).
  assert (Hs2' : s2 = set_trace (trace s ++ t1 ++ t2) s).
  { rewrite Hs2, Hs1. cbn [trace set_trace]. rewrite <- app_assoc.
    reflexivity. }
  assert (Ht12 : Forall (fun c => isListCall c = true) (t1 ++ t2))
    by (apply Forall_app; split; [exact Ht1 | exact Ht2]).
  destruct o2 as [k2|e2|];
    [|inversion H; subst o s'; exists (t1 ++ t2); repeat split; auto;
      discriminate ..].
  destruct (getR2KeysWithPrefix CATEGORY_THUMBNAIL_PREFIX k2 s2)
    as [o3 s3] eqn:E3.
  apply getR2KeysWithPrefix_inv in E3. destruct E3 as (t3 & Hs3 & Ht3 & Hk3).
  assert (Hs3' : s3 = set_trace (trace s ++ t1 ++ t2 ++ t3) s).
  { rewrite Hs3, Hs2'. cbn [trace set_trace]. rewrite <- !app_assoc.
    reflexivity. }
  assert (Ht123 : Forall (fun c => isListCall c = true) (t1 ++ t2 ++ t3))
    by (apply Forall_app; split; [exact Ht1|];
        apply Forall_app; split; [exact Ht2 | exact Ht3]).
  exists (t1 ++ t2 ++ t3).
  split; [destruct o3; inversion H; subst o s'; exact Hs3'|].
  split; [exact Ht123|].
  intros ks Hr. subst o.
  destruct o3 as [k3|e3|]; inversion H. subst ks s'.
  rewrite (Hk3 _ eq_refl), (Hk2 _ eq_refl), (Hk1 _ eq_refl).
  rewrite Hs2', Hs1. reflexivity.
Qed.

(* ================================================================== *)
(** * Fail-closed snapshots *)

Lemma isListCall_not_mutating (t : list Call) :
  Forall (fun c => isListCall c = true) t ->
  Forall (fun c => mutating c = false) t.
Proof.
  apply Forall_impl. intros c H. destruct c; simpl in *; congruence.
Qed.

Lemma idle_after_run (t : list Call) (s : State) :
  isCleanupRunning s = false ->
  set_isCleanupRunning false
    (set_trace (trace (set_isCleanupRunning true s) ++ t)
               (set_isCleanupRunning true s))
  = set_trace (trace s ++ t) s.
Proof. intros H. destruct s; simpl in *. subst. reflexivity. Qed.

(** A run in which one of the snapshots throws. *)
Lemma snapshot_failure_aborts :
  forall s,
    isCleanupRunning s = false ->
    (exists e s1,
        getMediaKeysFromDatabase (set_isCleanupRunning true s)
        = (Thrown e, s1))
    \/ (exists dbKeys s1 e s2,
          getMediaKeysFromDatabase (set_isCleanupRunning true s)
          = (Returned dbKeys, s1)
          /\ getMediaKeysFromR2 s1 = (Thrown e, s2)) ->
    exists t,
      cleanupMediaFiles s = (Returned zeroMedia, set_trace (trace s ++ t) s)
      /\ Forall (fun c => mutating c = false) t
      /\ bucket (snd (cleanupMediaFiles s)) = bucket s
      /\ products (snd (cleanupMediaFiles s)) = products s
      /\ categories (snd (cleanupMediaFiles s)) = categories s.
Proof.
  intros s Hidle Hfail.
  assert (Hrun :
            exists t,
              cleanupMediaFiles s
              = (Returned zeroMedia, set_trace (trace s ++ t) s)
              /\ Forall (fun c => mutating c = false) t).
  { unfold cleanupMediaFiles, bind at 1, get. rewrite Hidle.
    unfold tryFinally, tryCatch, cleanupMediaFiles_body, bind at 1, modify.
    unfold cleanupMediaFiles_steps, bind at 1.
    destruct Hfail as [(e & s1 & Hdb) | (dbKeys & s1 & e & s2 & Hdb & Hr2)].
    - rewrite Hdb.
      apply getMediaKeysFromDatabase_inv in Hdb.
      destruct Hdb as [(Ho & _) | (e' & t & _ & Hs1 & Ht)]; [discriminate|].
      exists t. subst s1. cbv beta iota. unfold ret. cbv beta iota.
      rewrite idle_after_run by exact Hidle. auto.
    - rewrite Hdb. unfold bind at 1. rewrite Hr2.
      apply getMediaKeysFromDatabase_inv in Hdb.
      destruct Hdb as [(_ & _ & Hs1) | (e' & t & Ho & _)]; [|discriminate].
      apply getMediaKeysFromR2_inv in Hr2.
      destruct Hr2 as (t2 & Hs2 & Ht2 & _).
      exists ([ProductFind; CategoryFind] ++ t2).
      subst s2 s1. cbv beta iota. unfold ret. cbv beta iota.
      cbn [trace set_trace].
      rewrite <- app_assoc.
      rewrite <- (idle_after_run _ s Hidle).
      split; [reflexivity|].
      constructor; [reflexivity|]. constructor; [reflexivity|].
      apply isListCall_not_mutating, Ht2. }
  destruct Hrun as (t & Hrun & Ht). exists t.
  rewrite Hrun. simpl. auto.
Qed.

(** C1.  When the referenced-key snapshot throws, or it is obtained and
    the stored-key snapshot throws, the run answers with zero counts;
    the state it leaves differs from the one it started in by the trace
    alone, which has grown by calls that change no store: the bucket and
    both collections are as they were, and no delete or update call was
    issued. *)
Theorem C1_fail_closed :
  forall s,
    isCleanupRunning s = false ->
    (exists e s1,
        getMediaKeysFromDatabase (set_isCleanupRunning true s)
        = (Thrown e, s1))
    \/ (exists dbKeys s1 e s2,
          getMediaKeysFromDatabase (set_isCleanupRunning true s)
          = (Returned dbKeys, s1)
          /\ getMediaKeysFromR2 s1 = (Thrown e, s2)) ->
    exists t,
      cleanupMediaFiles s = (Returned zeroMedia, set_trace (trace s ++ t) s)
      /\ Forall (fun c => mutating c = false) t
      /\ bucket (snd (cleanupMediaFiles s)) = bucket s
      /\ products (snd (cleanupMediaFiles s)) = products s
      /\ categories (snd (cleanupMediaFiles s)) = categories s.
Proof. exact snapshot_failure_aborts. Qed.

(** Scenario C: the second listing request throws; the run answers with
    zero counts and the bucket and the product are as they were. *)
Lemma C1_fail_closed_witness :
  fst (cleanupMediaFiles scenarioC) = Returned zeroMedia
  /\ bucket (snd (cleanupMediaFiles scenarioC)) = [K1; K2]
  /\ products (snd (cleanupMediaFiles scenarioC)) = [mkProduct (Some K1) []].
Proof.
  destruct (C1_fail_closed scenarioC) as (t & Hrun & _ & Hb & Hp & _).
  - reflexivity.
  - right. do 4 eexists. split; vm_compute; reflexivity.
  - rewrite Hrun at 1. rewrite Hb, Hp. repeat split; reflexivity.
Defined.

(* ================================================================== *)
(** * The run, step by step *)

#[global] Instance sameDocs_preorder : PreOrder sameDocs.
Proof.
  split.
  - intros s; repeat split; reflexivity.
  - intros a b c H1 H2. unfold sameDocs in *.
    repeat match goal with H : _ /\ _ |- _ => destruct H end.
    repeat split; congruence.
Qed.

#[global] Instance sameStorage_preorder : PreOrder sameStorage.
Proof.
  split.
  - intros s; repeat split; reflexivity.
  - intros a b c H1 H2. unfold sameStorage in *.
    repeat match goal with H : _ /\ _ |- _ => destruct H end.
    repeat split; congruence.
Qed.

Lemma sameDocs_deleteOrphanedR2Files keys :
  stable sameDocs (deleteOrphanedR2Files keys).
Proof.
  sapply stable_deleteOrphanedR2Files. intros i j.
  sapply stable_call_modify; intros s; repeat split; reflexivity.
Qed.

Lemma sameStorage_cleanupDanglingDatabaseReferences keys :
  stable sameStorage (cleanupDanglingDatabaseReferences keys).
Proof.
  sapply stable_cleanupDanglingDatabaseReferences; intros p;
    sapply stable_call_modify; intros s; repeat split; reflexivity.
Qed.

(** Once both snapshots are taken, the run is the deleter followed by
    the reference cleaner; an error of either ends it with zero counts. *)
Lemma cleanupMediaFiles_run s dbKeys s1 r2Keys s2 :
  isCleanupRunning s = false ->
  getMediaKeysFromDatabase (set_isCleanupRunning true s)
  = (Returned dbKeys, s1) ->
  getMediaKeysFromR2 s1 = (Returned r2Keys, s2) ->
  let orphaned := keysMinus r2Keys dbKeys in
  let dangling := keysMinus dbKeys r2Keys in
  cleanupMediaFiles s
  = match deleteOrphanedR2Files orphaned s2 with
    | (Returned _, s3) =>
        match cleanupDanglingDatabaseReferences dangling s3 with
        | (Returned _, s4) =>
            (Returned (mkMediaResult (length orphaned) (length dangling)),
             set_isCleanupRunning false s4)
        | (Thrown _, s4) => (Returned zeroMedia, set_isCleanupRunning false s4)
        | (OutOfFuel, s4) => (OutOfFuel, s4)
        end
    | (Thrown _, s3) => (Returned zeroMedia, set_isCleanupRunning false s3)
    | (OutOfFuel, s3) => (OutOfFuel, s3)
    end.
Proof.
  intros Hidle Hdb Hr2. cbv zeta.
  unfold cleanupMediaFiles, bind at 1, get. rewrite Hidle.
  unfold tryFinally, tryCatch, cleanupMediaFiles_body, bind at 1, modify.
  unfold cleanupMediaFiles_steps, bind at 1. rewrite Hdb.
  unfold bind at 1. rewrite Hr2.
  unfold bind at 1. unfold JsSet.toArray.
  change (filter (fun key => negb (JsSet.has dbKeys key)) r2Keys)
    with (keysMinus r2Keys dbKeys).
  change (filter (fun key => negb (JsSet.has r2Keys key)) dbKeys)
    with (keysMinus dbKeys r2Keys).
  destruct (deleteOrphanedR2Files (keysMinus r2Keys dbKeys) s2)
    as [[[]|e|] s3]; try reflexivity.
  unfold bind at 1.
  destruct (cleanupDanglingDatabaseReferences (keysMinus dbKeys r2Keys) s3)
    as [[[]|e|] s4]; reflexivity.
Qed.

(** The snapshots of an idle, connected state, when they are obtained. *)
Lemma snapshots_inv s dbKeys s1 r2Keys s2 :
  getMediaKeysFromDatabase (set_isCleanupRunning true s)
  = (Returned dbKeys, s1) ->
  getMediaKeysFromR2 s1 = (Returned r2Keys, s2) ->
  dbKeys = referencedKeys (products s) (categories s)
  /\ r2Keys = storedKeys (bucket s)
  /\ readyState s = 1
  /\ exists t,
      s2 = set_trace (trace s ++ t) (set_isCleanupRunning true s)
      /\ Forall (fun c => mutating c = false) t.
Proof.
  intros Hdb Hr2.
  apply getMediaKeysFromDatabase_inv in Hdb.
  destruct Hdb as [(Ho & Hrs & Hs1) | (e & t & Ho & _)]; [|discriminate].
  apply getMediaKeysFromR2_inv in Hr2. destruct Hr2 as (t2 & Hs2 & Ht2 & Hk).
  inversion Ho; subst dbKeys. subst s1.
  rewrite (Hk _ eq_refl). repeat split; auto.
  exists ([ProductFind; CategoryFind] ++ t2). subst s2.
  cbn [trace set_trace]. rewrite <- app_assoc. split; [reflexivity|].
  constructor; [reflexivity|]. constructor; [reflexivity|].
  apply isListCall_not_mutating, Ht2.
Qed.

(* ================================================================== *)
(** * A delete batch that fails *)

(** C5, as amended.  When, both snapshots obtained, the delete call for
    slice [j] is the first one the storage rejects, the deleter rethrows
    the error: that call is the last call of the run, so the slices
    after it are never issued and the rejected one is not retried; the
    slices before it stay deleted; the reference cleanup does not run
    (both collections are as they were); and the run answers with zero
    counts and resets its flag. *)
Theorem C5_failed_batch_aborts :
  forall s dbKeys s1 r2Keys s2 j e,
    isCleanupRunning s = false ->
    getMediaKeysFromDatabase (set_isCleanupRunning true s)
    = (Returned dbKeys, s1) ->
    getMediaKeysFromR2 s1 = (Returned r2Keys, s2) ->
    let cs := chunks batchSize (orphanedKeysOf s) in
    j < length cs ->
    accepted s2 cs j ->
    faults s2 (length (trace s2) + j) (DeleteObjects (nth j cs [])) = Some e ->
    let r := cleanupMediaFiles s in
    fst r = Returned zeroMedia
    /\ trace (snd r) = trace s2 ++ map DeleteObjects (firstn (S j) cs)
    /\ bucket (snd r) = keysMinus (bucket s) (concat (firstn j cs))
    /\ products (snd r) = products s
    /\ categories (snd r) = categories s
    /\ isCleanupRunning (snd r) = false.
Proof.
  intros s dbKeys s1 r2Keys s2 j e Hidle Hdb Hr2 cs Hj Hacc Hfault r.
  subst r. rewrite (cleanupMediaFiles_run s _ _ _ _ Hidle Hdb Hr2). cbv zeta.
  destruct (snapshots_inv s _ _ _ _ Hdb Hr2) as (Edb & Er2 & _ & t & Hs2 & _).
  subst dbKeys r2Keys. fold (orphanedKeysOf s). fold cs.
  pose proof (deleteOrphanedR2Files_run (orphanedKeysOf s) s2) as Hrun.
  cbv zeta in Hrun. fold cs in Hrun.
  pose proof (sameDocs_deleteOrphanedR2Files (orphanedKeysOf s) s2) as Hsame.
  destruct (deleteOrphanedR2Files (orphanedKeysOf s) s2) as [o s3].
  specialize (Hsame o s3 eq_refl).
  destruct Hsame as (Hp & Hc & _).
  cbn [fst snd] in Hrun.
  destruct Hrun as [(Ho & _ & _ & Ha)
                   | (e' & j' & Ho & Hj' & Ht & Hf' & Hb & Ha)].
  - rewrite (Ha j Hj) in Hfault. discriminate.
  - assert (j' = j).
    { destruct (Nat.lt_trichotomy j' j) as [Hlt|[Heq|Hgt]]; [|exact Heq|].
      - rewrite (Hacc j' Hlt) in Hf'. discriminate.
      - rewrite (Ha j Hgt) in Hfault. discriminate. }
    subst j' o. cbn [fst snd trace bucket products categories
                       isCleanupRunning set_isCleanupRunning].
    rewrite Ht, Hb, Hp, Hc, Hs2. repeat split; reflexivity.
Qed.

Lemma overBatch_db_snapshot :
  getMediaKeysFromDatabase (set_isCleanupRunning true (overBatch (faultAt 6)))
  = (Returned [],
     snd (getMediaKeysFromDatabase
            (set_isCleanupRunning true (overBatch (faultAt 6))))).
Proof. vm_compute. reflexivity. Qed.

Lemma overBatch_r2_snapshot :
  getMediaKeysFromR2
    (snd (getMediaKeysFromDatabase
            (set_isCleanupRunning true (overBatch (faultAt 6)))))
  = (Returned (galleryKeys 1001), overBatch_listed).
Proof. vm_compute. reflexivity. Qed.

Lemma overBatch_two_batches :
  0 < length (chunks batchSize (orphanedKeysOf (overBatch (faultAt 6)))).
Proof. vm_compute. lia. Qed.

Lemma overBatch_first_delete_rejected :
  faults overBatch_listed (length (trace overBatch_listed) + 0)
         (DeleteObjects
            (nth 0 (chunks batchSize (orphanedKeysOf (overBatch (faultAt 6))))
                 []))
  = Some networkError.
Proof. vm_compute. reflexivity. Qed.

(** 1001 orphaned keys and a storage that rejects the first delete
    request: the run answers with zero counts and resets its flag. *)
Lemma C5_failed_batch_aborts_witness :
  fst (cleanupMediaFiles (overBatch (faultAt 6))) = Returned zeroMedia
  /\ isCleanupRunning (snd (cleanupMediaFiles (overBatch (faultAt 6))))
     = false.
Proof.
  pose proof (C5_failed_batch_aborts
                (overBatch (faultAt 6)) _ _ _ _ 0 networkError eq_refl
                overBatch_db_snapshot overBatch_r2_snapshot
                overBatch_two_batches) as H.
  cbv zeta in H.
  destruct H as (Hr & _ & _ & _ & _ & Hf).
  - intros k Hk; lia.
  - exact overBatch_first_delete_rejected.
  - split; assumption.
Defined.

Lemma deleteFaults_onlyDeletesFail b ps cs :
  onlyDeletesFail (stateOf b ps cs deleteFaults).
Proof.
  intros n c H. destruct c; simpl in H; try congruence. eexists; reflexivity.
Qed.

(** The same 1001 keys: the specification promises two delete calls and
    a count of 1001; the run issues one call and counts zero. *)
Lemma C5_counterexample : ~ failed_batch_is_skipped_and_counted.
Proof.
  intros H.
  specialize (H (overBatch deleteFaults)
                eq_refl eq_refl (deleteFaults_onlyDeletesFail _ _ _)).
  cbv zeta in H. destruct H as (_ & d & H).
  revert H. vm_compute. discriminate.
Qed.

(* ================================================================== *)
(** * The temp-file janitor *)

Lemma findEntry_In file es e :
  findEntry file es = Some e -> In e es /\ name e = file.
Proof.
  unfold findEntry. intros H. apply find_some in H.
  destruct H as [Hin Heq]. apply String.eqb_eq in Heq. auto.
Qed.

Lemma findEntry_NoDup es e :
  NoDup (map name es) -> In e es -> findEntry (name e) es = Some e.
Proof.
  unfold findEntry. induction es as [|x es IH]; intros Hnd Hin; [destruct Hin|].
  simpl in *. inversion Hnd as [|? ? Hx Hnd']; subst.
  destruct Hin as [->|Hin].
  - rewrite String.eqb_refl. reflexivity.
  - destruct (String.eqb_spec (name x) (name e)) as [E|E].
    + exfalso. apply Hx. rewrite E. apply in_map. exact Hin.
    + apply IH; assumption.
Qed.

Lemma In_withoutFile file es e :
  In e (withoutFile file es) <-> In e es /\ name e <> file.
Proof.
  unfold withoutFile. rewrite filter_In, negb_true_iff.
  destruct (String.eqb_spec (name e) file); intuition congruence.
Qed.

Lemma NoDup_withoutFile file es :
  NoDup (map name es) -> NoDup (map name (withoutFile file es)).
Proof.
  unfold withoutFile. induction es as [|x es IH]; intros H; [constructor|].
  simpl in *. inversion H as [|? ? Hx Hnd]; subst.
  destruct (negb (name x =? file)%string); [|auto].
  simpl. constructor; [|auto].
  intros Hin. apply Hx. apply in_map_iff in Hin.
  destruct Hin as (y & Hy & Hin). apply filter_In in Hin.
  rewrite <- Hy. apply in_map. tauto.
Qed.

(** One iteration either leaves the directory as it is, or unlinks the
    file it was given: an old regular file. *)
Lemma processTempItem_cases now_ file acc s es :
  tempDir s = Some es ->
  exists acc' s',
    processTempItem now_ file acc s = (Returned acc', s')
    /\ faults s' = faults s
    /\ (exists t, trace s' = trace s ++ t /\ length t <= 2)
    /\ (tempDir s' = Some es
        \/ (tempDir s' = Some (withoutFile file es)
            /\ exists e, findEntry file es = Some e
                         /\ isRegularFile e = true /\ isOld now_ e = true)).
Proof.
  intros Hd.
  unfold processTempItem, tryCatch, bind at 1.
  unfold fs_statSync, bind, call, get.
  destruct (faults s (length (trace s)) (FsStat file)).
  { do 2 eexists. split; [reflexivity|]. cbn.
    repeat split; auto. exists [FsStat file]. auto. }
  cbn [tempDir set_trace]. rewrite Hd.
  destruct (findEntry file es) as [e|] eqn:Ef.
  2:{ do 2 eexists. split; [reflexivity|]. cbn.
      repeat split; auto. exists [FsStat file]. auto. }
  unfold ret at 1. cbv beta iota. fold (isOld now_ e).
  destruct (isOld now_ e) eqn:Eo.
  2:{ do 2 eexists. split; [reflexivity|]. cbn.
      repeat split; auto. exists [FsStat file]. auto. }
  destruct (ekind e) eqn:Ek.
  2,3: do 2 eexists; (split; [reflexivity|]); cbn;
       repeat split; auto; exists [FsStat file]; auto.
  unfold fs_unlinkSync, tryCatch, bind, call, get.
  cbn [trace faults tempDir set_trace].
  destruct (faults s (length (trace s ++ [FsStat file])) (FsUnlink file)).
  { do 2 eexists. split; [reflexivity|]. cbn.
    repeat split; auto. exists [FsStat file; FsUnlink file].
    rewrite <- app_assoc. auto. }
  cbn [tempDir set_trace]. rewrite Hd, Ef, Ek. unfold modify, ret.
  do 2 eexists. split; [reflexivity|]. cbn.
  repeat split; auto.
  - exists [FsStat file; FsUnlink file]. rewrite <- app_assoc. auto.
  - right. split; [reflexivity|]. exists e.
    unfold isRegularFile. rewrite Ek. auto.
Qed.

(** An old regular file that can be statted and unlinked is unlinked. *)
Lemma processTempItem_unlinks now_ file acc s es e :
  tempDir s = Some es ->
  findEntry file es = Some e ->
  isRegularFile e = true -> isOld now_ e = true ->
  (forall n, faults s n (FsStat file) = None) ->
  (forall n, faults s n (FsUnlink file) = None) ->
  tempDir (snd (processTempItem now_ file acc s)) = Some (withoutFile file es)
  /\ In (FsUnlink file) (trace (snd (processTempItem now_ file acc s))).
Proof.
  intros Hd Hf Hreg Hold Hs Hu.
  unfold isRegularFile in Hreg. destruct (ekind e) eqn:Ek; try discriminate.
  unfold isOld in Hold.
  assert (E : exists acc' s',
             processTempItem now_ file acc s = (Returned acc', s')
             /\ tempDir s' = Some (withoutFile file es)
             /\ In (FsUnlink file) (trace s')).
  { do 2 eexists. split.
    - unfold processTempItem, tryCatch, bind at 1.
      unfold fs_statSync, bind, call, get. rewrite Hs.
      cbn [tempDir set_trace]. rewrite Hd, Hf.
      unfold ret at 1. cbv beta iota. rewrite Hold, Ek.
      unfold fs_unlinkSync, tryCatch, bind, call, get.
      cbn [trace faults tempDir set_trace]. rewrite Hu.
      cbn [tempDir set_trace]. rewrite Hd, Hf, Ek. unfold modify, ret.
      reflexivity.
    - cbn. split; [reflexivity|]. apply in_or_app. right. simpl. auto. }
  destruct E as (acc' & s' & E & H1 & H2). rewrite E. simpl. auto.
Qed.

(** The scan: entries only disappear; what is young or is not a regular
    file stays; an old regular file listed in [files] goes, when the
    file system lets it be statted and unlinked. *)
Lemma processTempFiles_spec now_ :
  forall files acc s es,
    tempDir s = Some es ->
    NoDup (map name es) ->
    exists acc' s' es',
      processTempFiles now_ files acc s = (Returned acc', s')
      /\ faults s' = faults s
      /\ tempDir s' = Some es'
      /\ NoDup (map name es')
      /\ (forall e, In e es' -> In e es)
      /\ (forall e, In e es ->
                    isOld now_ e && isRegularFile e = false -> In e es')
      /\ (forall e, In e es -> In (name e) files ->
                    isRegularFile e = true -> isOld now_ e = true ->
                    (forall n, faults s n (FsStat (name e)) = None) ->
                    (forall n, faults s n (FsUnlink (name e)) = None) ->
                    ~ In e es').
Proof.
  induction files as [|file rest IH]; intros acc s es Hd Hnd.
  - exists acc, s, es. simpl. repeat split; auto.
  - cbn [processTempFiles]. unfold bind.
    destruct (processTempItem_cases now_ file acc s es Hd)
      as (acc1 & s1 & Hrun & Hf1 & _ & Hcase).
    pose proof (processTempItem_unlinks now_ file acc s es) as Hpos.
    rewrite Hrun in *. cbn [snd] in Hpos.
    assert (Hes1 : exists es1,
               tempDir s1 = Some es1 /\ NoDup (map name es1)
               /\ (forall e, In e es1 -> In e es)
               /\ (forall e, In e es ->
                             isOld now_ e && isRegularFile e = false ->
                             In e es1)).
    { destruct Hcase as [H1 | (H1 & e0 & He0 & Hreg & Hold)].
      - exists es. auto.
      - exists (withoutFile file es). split; [exact H1|].
        split; [apply NoDup_withoutFile; exact Hnd|]. split.
        + intros e He. apply In_withoutFile in He. tauto.
        + intros e He Hkeep. apply In_withoutFile. split; [exact He|].
          intros Hname. subst file.
          rewrite (findEntry_NoDup es e Hnd He) in He0.
          inversion He0; subst e0. rewrite Hreg, Hold in Hkeep. discriminate. }
    destruct Hes1 as (es1 & Hd1 & Hnd1 & Hincl1 & Hkeep1).
    destruct (IH acc1 s1 es1 Hd1 Hnd1)
      as (acc' & s' & es' & Hrun' & Hf' & Hd' & Hnd' & Hincl' & Hkeep' & Hdel').
    exists acc', s', es'. split; [exact Hrun'|].
    split; [congruence|]. split; [exact Hd'|]. split; [exact Hnd'|].
    split; [auto|]. split; [auto|].
    intros e He Hin Hreg Hold Hs Hu Hin'.
    destruct (String.eqb_spec file (name e)) as [Heq|Hne].
    + subst file.
      destruct (Hpos e Hd (findEntry_NoDup es e Hnd He) Hreg Hold Hs Hu)
        as [Hd1' _].
      rewrite Hd1 in Hd1'. inversion Hd1'; subst es1.
      apply Hincl' in Hin'. apply In_withoutFile in Hin'. tauto.
    + destruct Hin as [Heq|Hin]; [congruence|].
      assert (He1 : In e es1 \/ ~ In e es1).
      { destruct (in_dec string_dec (name e) (map name es1)) as [Hi|Hi].
        - left. apply in_map_iff in Hi. destruct Hi as (y & Hy & Hiy).
          assert (y = e).
          { pose proof (findEntry_NoDup es y Hnd (Hincl1 y Hiy)) as F1.
            pose proof (findEntry_NoDup es e Hnd He) as F2.
            rewrite Hy in F1. congruence. }
          subst y. exact Hiy.
        - right. intros Hi'. apply Hi. apply in_map. exact Hi'. }
      destruct He1 as [He1|He1].
      * apply (Hdel' e He1 Hin Hreg Hold); auto.
        -- intros n. rewrite Hf1. apply Hs.
        -- intros n. rewrite Hf1. apply Hu.
      * apply He1. apply Hincl'. exact Hin'.
Qed.

Lemma In_length_pos {A} (x : A) (l : list A) : In x l -> 0 < length l.
Proof. destruct l; simpl; [tauto | lia]. Qed.

(** The steps of a run over an existing directory. *)
Lemma cleanupOldTempFiles_steps_spec s es :
  tempDir s = Some es ->
  NoDup (map name es) ->
  exists o s' es',
    cleanupOldTempFiles_steps s = (o, s')
    /\ tempDir s' = Some es'
    /\ (forall e, In e es' -> In e es)
    /\ (forall e, In e es ->
                  isOld (now s) e && isRegularFile e = false -> In e es')
    /\ (forall e, In e es ->
                  isRegularFile e = true -> isOld (now s) e = true ->
                  (forall n, faults s n FsReaddir = None) ->
                  (forall n, faults s n (FsStat (name e)) = None) ->
                  (forall n, faults s n (FsUnlink (name e)) = None) ->
                  ~ In e es').
Proof.
  intros Hd Hnd.
  unfold cleanupOldTempFiles_steps, fs_existsSync, fs_readdirSync, record.
  unfold bind, call, get, ret, modify.
  cbv beta iota. cbn [tempDir set_trace trace faults negb].
  rewrite Hd. cbv beta iota. cbn [tempDir set_trace trace faults negb].
  destruct (faults s (length (trace s ++ [FsExists])) FsReaddir)
    as [e0|] eqn:E2.
  { do 2 eexists. exists es. split; [reflexivity|]. cbn.
    repeat split; auto. intros e He _ _ H. rewrite H in E2. discriminate. }
  cbv beta iota. cbn [tempDir set_trace trace faults negb].
  rewrite Hd. cbv beta iota.
  destruct (length (map name es) =? 0) eqn:El.
  { do 2 eexists. exists es. split; [reflexivity|]. cbn.
    repeat split; auto. intros e He. apply In_length_pos in He.
    apply Nat.eqb_eq in El. rewrite length_map in El. lia. }
  cbn [now set_trace].
  match goal with
  | |- context [processTempFiles ?n ?f ?a ?st] =>
      destruct (processTempFiles_spec n f a st es Hd Hnd)
        as (acc' & s' & es' & Hrun & Hf & Hd' & _ & Hincl & Hkeep & Hdel)
  end.
  exists (Returned acc'), s', es'. split; [exact Hrun|].
  split; [exact Hd'|]. split; [exact Hincl|]. split; [exact Hkeep|].
  intros e He Hreg Hold _ Hs Hu.
  apply (Hdel e He); auto. apply in_map. exact He.
Qed.

(** C9.  For every entry of the staging directory when a cleanup is
    invoked: an entry that is not older than the threshold, and an entry
    that is not a regular file (a directory in particular), whatever its
    age, is still there afterwards; a regular file older than the
    threshold is gone after a run (the job was idle) during which the
    file system lets the directory be listed and the file be statted and
    unlinked (the calls for other entries may fail). *)
Theorem C9_temp_retention :
  forall s es e,
    tempDir s = Some es ->
    NoDup (map name es) ->
    In e es ->
    let s' := snd (cleanupOldTempFiles s) in
    let age := (inject_Z (now s) - mtimeMs e)%Q in
    ((age <= inject_Z TEMP_FILE_MAX_AGE)%Q \/ ekind e <> RegularFile ->
     exists es', tempDir s' = Some es' /\ In e es')
    /\ (ekind e = Directory ->
        exists es', tempDir s' = Some es' /\ In e es')
    /\ (ekind e = RegularFile ->
        (inject_Z TEMP_FILE_MAX_AGE < age)%Q ->
        isTempCleanupRunning s = false ->
        (forall n, faults s n FsReaddir = None) ->
        (forall n, faults s n (FsStat (name e)) = None) ->
        (forall n, faults s n (FsUnlink (name e)) = None) ->
        exists es', tempDir s' = Some es' /\ ~ In e es').
Proof.
  intros s es e Hd Hnd He s' age.
  assert (Hkeep : (age <= inject_Z TEMP_FILE_MAX_AGE)%Q
                  \/ ekind e <> RegularFile ->
                  exists es', tempDir s' = Some es' /\ In e es').
  { intros Hyoung.
    assert (Hk : isOld (now s) e && isRegularFile e = false).
    { unfold isOld, isRegularFile. fold age.
      destruct Hyoung as [Hy|Hk].
      - unfold gtNumber. apply Qle_bool_iff in Hy. rewrite Hy. reflexivity.
      - destruct (ekind e); try congruence; apply andb_false_r. }
    subst s'. unfold cleanupOldTempFiles, bind, get.
    destruct (isTempCleanupRunning s) eqn:Hflag.
    - exists es. simpl. auto.
    - unfold tryFinally, tryCatch, cleanupOldTempFiles_body, bind, modify.
      destruct (cleanupOldTempFiles_steps_spec
                  (set_isTempCleanupRunning true s) es Hd Hnd)
        as (o & s1 & es1 & Hrun & Hd1 & _ & Hk1 & _).
      rewrite Hrun. exists es1.
      split; [destruct o; simpl; exact Hd1 | apply Hk1; auto]. }
  split; [exact Hkeep|]. split.
  { intros Hdir. apply Hkeep. right. congruence. }
  intros Hreg Hold Hflag Hr Hs Hu.
  subst s'. unfold cleanupOldTempFiles, bind, get. rewrite Hflag.
  unfold tryFinally, tryCatch, cleanupOldTempFiles_body, bind, modify.
  destruct (cleanupOldTempFiles_steps_spec
              (set_isTempCleanupRunning true s) es Hd Hnd)
    as (o & s1 & es1 & Hrun & Hd1 & _ & _ & Hdel).
  rewrite Hrun. exists es1.
  split; [destruct o; simpl; exact Hd1|].
  apply Hdel; auto.
  - unfold isRegularFile. rewrite Hreg. reflexivity.
  - unfold isOld, gtNumber. cbn [now set_isTempCleanupRunning]. fold age.
    destruct (Qle_bool age (inject_Z TEMP_FILE_MAX_AGE)) eqn:E; [|reflexivity].
    apply Qle_bool_iff in E. exfalso. exact (Qlt_not_le _ _ Hold E).
Qed.

(** The old upload of [staging] is deleted; the file system lets it. *)
Lemma C9_temp_retention_witness :
  exists es',
    tempDir (snd (cleanupOldTempFiles staging)) = Some es'
    /\ ~ In oldUpload es'.
Proof.
  refine (proj2 (proj2 (C9_temp_retention
                          staging [oldUpload; oldDirectory; recentUpload]
                          oldUpload eq_refl _ _))
                eq_refl _ eq_refl _ _ _).
  - repeat constructor; simpl; intuition discriminate.
  - simpl. auto.
  - vm_compute. reflexivity.
  - reflexivity.
  - reflexivity.
  - reflexivity.
Defined.

(* ================================================================== *)
(** * The size a temp cleanup reports *)

(** C10, at the failing input.  Only an old directory is staged: the run
    deletes nothing, so no byte is freed, yet it reports the directory's
    4096 bytes as [totalSize], which the admin endpoint shows as a
    [sizeFreed] of 4 KB next to [filesDeleted] 0. *)
Theorem C10_total_size_counts_directories :
  let r := cleanupOldTempFiles stagingDirectoryOnly in
  fst r = Returned (mkTempResult 0 4096)
  /\ tempDir (snd r) = Some [oldDirectory]
  /\ freedBytes [oldDirectory] [oldDirectory] = 0%Z
  /\ fst (cleanupTempFiles stagingDirectoryOnly) = Returned (0, 4%Z).
Proof. vm_compute. repeat split; reflexivity. Qed.
(* ================================================================== *)
(** * The reference cleaner *)

Lemma updateRequest_settle g s :
  updateRequest g s
  = (match faults s (length (trace s)) (fst g) with
     | Some e => Thrown e
     | None => Returned tt
     end, settle s g).
Proof.
  unfold updateRequest, settle, bind, call, modify.
  destruct (faults s (length (trace s)) (fst g)); reflexivity.
Qed.

Lemma settle_quiet g s :
  quietUpdate g ->
  trace (settle s g) = trace s ++ [fst g] /\ faults (settle s g) = faults s.
Proof.
  intros Hq. unfold settle.
  destruct (faults s (length (trace s)) (fst g)); [split; reflexivity|].
  destruct (Hq (set_trace (trace s ++ [fst g]) s)) as [Ht Hf].
  rewrite Ht, Hf. split; reflexivity.
Qed.

(** [Promise.all] over update requests: each one settles on its own, and
    the await returns exactly when all of them are accepted. *)
Lemma promiseAll_settle :
  forall gs s,
    Forall quietUpdate gs ->
    let r := promiseAll (map updateRequest gs) s in
    snd r = fold_left settle gs s
    /\ trace (snd r) = trace s ++ map fst gs
    /\ faults (snd r) = faults s
    /\ (fst r = Returned tt <-> allAccepted s gs)
    /\ (fst r = Returned tt \/ exists e, fst r = Thrown e).
Proof.
  induction gs as [|g gs IH]; intros s Hq r.
  - subst r. simpl. rewrite app_nil_r. repeat split; auto.
    intros _ i Hi. simpl in Hi. lia.
  - inversion Hq as [|? ? Hg Hgs]; subst.
    subst r. cbn [map promiseAll fold_left].
    rewrite updateRequest_settle.
    destruct (settle_quiet g s Hg) as [Ht Hf].
    specialize (IH (settle s g) Hgs). cbv zeta in IH.
    destruct IH as (IHs & IHt & IHf & IHr & IHo).
    assert (Hshift :
              allAccepted s (g :: gs)
              <-> faults s (length (trace s)) (fst g) = None
                  /\ allAccepted (settle s g) gs).
    { unfold allAccepted. rewrite Ht, Hf, length_app. cbn [length]. split.
      - intros H. split.
        + specialize (H 0). rewrite Nat.add_0_r in H. apply H. lia.
        + intros i Hi. specialize (H (S i)). cbn [nth] in H.
          replace (length (trace s) + 1 + i) with (length (trace s) + S i)
            by lia. apply H. lia.
      - intros [H0 H] i Hi. destruct i as [|i].
        + rewrite Nat.add_0_r. exact H0.
        + cbn [nth].
          replace (length (trace s) + S i) with (length (trace s) + 1 + i)
            by lia. apply H. lia. }
    destruct (faults s (length (trace s)) (fst g)) as [e|] eqn:Ef.
    + destruct (promiseAll (map updateRequest gs) (settle s g))
        as [[[]|e'|] s'] eqn:Er; cbn [fst snd] in *.
      * split; [exact IHs|]. split; [rewrite IHt, Ht, <- app_assoc; auto|].
        split; [congruence|]. split; [|right; eauto].
        rewrite Hshift. split; [discriminate | intros [H _]; discriminate].
      * split; [exact IHs|]. split; [rewrite IHt, Ht, <- app_assoc; auto|].
        split; [congruence|]. split; [|right; eauto].
        rewrite Hshift. split; [discriminate | intros [H _]; discriminate].
      * destruct IHo as [H|[e' H]]; discriminate.
    + destruct (promiseAll (map updateRequest gs) (settle s g))
        as [o s'] eqn:Er; cbn [fst snd] in *.
      split; [exact IHs|]. split; [rewrite IHt, Ht, <- app_assoc; auto|].
      split; [congruence|]. split; [|exact IHo].
      rewrite Hshift, IHr. tauto.
Qed.

Lemma updateGroups_quiet d : Forall quietUpdate (updateGroups d).
Proof.
  unfold updateGroups.
  repeat (apply Forall_app; split);
    match goal with |- context [if ?b then _ else _] => destruct b end;
    repeat constructor.
Qed.

Lemma updateGroups_nil : updateGroups [] = [].
Proof. reflexivity. Qed.

Lemma length_updateGroups_pos d :
  (0 <? length (updateGroups d)) = false -> updateGroups d = [].
Proof.
  intros H. apply Nat.ltb_ge in H. destruct (updateGroups d); [reflexivity|].
  simpl in H. lia.
Qed.

Lemma cleanupDanglingDatabaseReferences_unfold d s :
  d <> [] ->
  readyState s = 1 ->
  cleanupDanglingDatabaseReferences d s
  = match promiseAll (map updateRequest (updateGroups d)) s with
    | (Thrown e, s') => (Thrown (classifyDbError e), s')
    | r => r
    end.
Proof.
  intros Hd Hrs. destruct d as [|k d]; [congruence|].
  unfold cleanupDanglingDatabaseReferences. cbn [length Nat.eqb].
  unfold executeDbOperation, tryCatch, bind, get. rewrite Hrs.
  cbn [Nat.eqb negb].
  unfold updateGroups, imageGroup, thumbnailGroup, categoryGroup.
  destruct (0 <? length (filter (fun key => startsWith key PRODUCT_IMAGE_PREFIX)
                                (k :: d)));
    destruct (0 <? length (filter (fun key =>
                                     startsWith key PRODUCT_THUMBNAIL_PREFIX)
                                  (k :: d)));
    destruct (0 <? length (filter (fun key =>
                                     startsWith key CATEGORY_THUMBNAIL_PREFIX)
                                  (k :: d)));
    reflexivity.
Qed.

(** The cleaner on a connected database: every group's request is issued
    and settles on its own; the cleaner returns when all are accepted and
    throws otherwise. *)
Lemma cleanupDanglingDatabaseReferences_settles d s :
  readyState s = 1 ->
  let gs := updateGroups d in
  let r := cleanupDanglingDatabaseReferences d s in
  snd r = fold_left settle gs s
  /\ trace (snd r) = trace s ++ map fst gs
  /\ faults (snd r) = faults s
  /\ (fst r = Returned tt <-> allAccepted s gs)
  /\ (fst r = Returned tt \/ exists e, fst r = Thrown e).
Proof.
  intros Hrs gs r.
  destruct d as [|k d].
  { subst r gs. simpl. rewrite app_nil_r. repeat split; auto.
    intros _ i Hi. simpl in Hi. lia. }
  pose proof (promiseAll_settle gs s (updateGroups_quiet _)) as Hall.
  cbv zeta in Hall.
  subst r. rewrite cleanupDanglingDatabaseReferences_unfold;
    [|discriminate|exact Hrs].
  fold gs.
  destruct (promiseAll (map updateRequest gs) s) as [[[]|e|] s'];
    cbn [fst snd] in *; destruct Hall as (H1 & H2 & H3 & H4 & H5);
    repeat split; auto; try tauto;
    try (intros H; discriminate);
    try (intros H; apply H4 in H; discriminate);
    try (right; eauto; fail);
    try (destruct H5 as [H|[e' H]]; discriminate).
Qed.

(** C8, as amended.  Once the snapshots are taken and the orphaned
    objects deleted, the request of every non-empty field group (pull
    from image arrays, null product thumbnails, null category
    thumbnails) is issued, whatever becomes of the others, and settles
    on its own: an accepted request is applied and stays applied, a
    rejected one leaves its fields as they were.  A rejection is not
    caught group by group: the cleaner throws, and the run answers with
    zero counts; it answers with the two counts when every request is
    accepted. *)
Theorem C8_update_groups :
  forall s dbKeys s1 r2Keys s2 s3,
    isCleanupRunning s = false ->
    getMediaKeysFromDatabase (set_isCleanupRunning true s)
    = (Returned dbKeys, s1) ->
    getMediaKeysFromR2 s1 = (Returned r2Keys, s2) ->
    deleteOrphanedR2Files (orphanedKeysOf s) s2 = (Returned tt, s3) ->
    let gs := updateGroups (danglingKeysOf s) in
    let r := cleanupMediaFiles s in
    snd r = set_isCleanupRunning false (fold_left settle gs s3)
    /\ trace (snd r) = trace s3 ++ map fst gs
    /\ (allAccepted s3 gs ->
        fst r = Returned (mkMediaResult (length (orphanedKeysOf s))
                                        (length (danglingKeysOf s))))
    /\ (~ allAccepted s3 gs -> fst r = Returned zeroMedia).
Proof.
  intros s dbKeys s1 r2Keys s2 s3 Hidle Hdb Hr2 Hdel gs r.
  subst r. rewrite (cleanupMediaFiles_run s _ _ _ _ Hidle Hdb Hr2).
  cbv zeta.
  destruct (snapshots_inv s _ _ _ _ Hdb Hr2) as (Edb & Er2 & Hrs & t & Hs2 & _).
  subst dbKeys r2Keys. fold (orphanedKeysOf s) (danglingKeysOf s).
  rewrite Hdel.
  assert (Hrs3 : readyState s3 = 1).
  { destruct (sameDocs_deleteOrphanedR2Files _ _ _ _ Hdel)
      as (_ & _ & H & _).
    rewrite H, Hs2. exact Hrs. }
  destruct (cleanupDanglingDatabaseReferences_settles (danglingKeysOf s) s3 Hrs3)
    as (Hs & Ht & _ & Hok & Hout).
  fold gs in Hs, Ht, Hok.
  destruct (cleanupDanglingDatabaseReferences (danglingKeysOf s) s3)
    as [[[]|e|] s4]; cbn [fst snd] in *.
  - subst s4. split; [reflexivity|].
    split; [cbn [trace set_isCleanupRunning]; exact Ht|].
    split; [reflexivity|].
    intros Hn. exfalso. apply Hn. apply Hok. reflexivity.
  - subst s4. split; [reflexivity|].
    split; [cbn [trace set_isCleanupRunning]; exact Ht|].
    split; [|reflexivity].
    intros Ha. apply Hok in Ha. discriminate.
  - destruct Hout as [H|[e H]]; discriminate.
Qed.

Lemma bothDangling_db_snapshot :
  getMediaKeysFromDatabase (set_isCleanupRunning true (bothDangling pullFaults))
  = (Returned [K1; K3],
     snd (getMediaKeysFromDatabase
            (set_isCleanupRunning true (bothDangling pullFaults)))).
Proof. vm_compute. reflexivity. Qed.

Lemma bothDangling_r2_snapshot :
  getMediaKeysFromR2
    (snd (getMediaKeysFromDatabase
            (set_isCleanupRunning true (bothDangling pullFaults))))
  = (Returned [], bothDangling_listed).
Proof. vm_compute. reflexivity. Qed.

Lemma bothDangling_nothing_to_delete :
  deleteOrphanedR2Files (orphanedKeysOf (bothDangling pullFaults))
                        bothDangling_listed
  = (Returned tt, bothDangling_listed).
Proof. vm_compute. reflexivity. Qed.

Lemma bothDangling_pull_rejected :
  ~ allAccepted bothDangling_listed
      (updateGroups (danglingKeysOf (bothDangling pullFaults))).
Proof. intros H. specialize (H 0). revert H. vm_compute. intros H.
       specialize (H (le_S _ _ (le_n _))). discriminate.
Qed.

(** The image-array update is rejected, the thumbnail update is not:
    the run answers with zero counts, the thumbnail is nulled all the
    same, and the gallery still holds its dangling key. *)
Lemma C8_update_groups_witness :
  fst (cleanupMediaFiles (bothDangling pullFaults)) = Returned zeroMedia
  /\ products (snd (cleanupMediaFiles (bothDangling pullFaults)))
     = [mkProduct None [K3]].
Proof.
  pose proof (C8_update_groups
                (bothDangling pullFaults) _ _ _ _ _ eq_refl
                bothDangling_db_snapshot bothDangling_r2_snapshot
                bothDangling_nothing_to_delete) as H.
  cbv zeta in H. destruct H as (Hs & _ & _ & Hzero).
  split; [exact (Hzero bothDangling_pull_rejected)|].
  rewrite Hs. vm_compute. reflexivity.
Defined.

Lemma pullFaults_onlyUpdatesFail b ps cs :
  onlyUpdatesFail (stateOf b ps cs pullFaults).
Proof.
  intros n c H. destruct c; simpl in H; try congruence. eexists; eauto.
Qed.

(** The rejected image-array update makes the cleaner throw. *)
Lemma C8_counterexample : ~ group_errors_are_caught.
Proof.
  intros H.
  specialize (H [K1; K3] (bothDangling pullFaults) eq_refl
                (pullFaults_onlyUpdatesFail _ _ _)).
  revert H. vm_compute. discriminate.
Qed.
(* ================================================================== *)
(** * Nothing outside the managed prefixes *)

Lemma In_keys_dec (k : string) (l : list string) : In k l \/ ~ In k l.
Proof. destruct (in_dec string_dec k l); auto. Qed.

Lemma productWithin_refl p : productWithin p p.
Proof. repeat split; auto; intros k H1 H2; contradiction. Qed.

Lemma productWithin_trans a b c :
  productWithin a b -> productWithin b c -> productWithin a c.
Proof.
  intros (I1 & M1 & T1) (I2 & M2 & T2). repeat split.
  - auto.
  - intros k Ha Hc. destruct (In_keys_dec k (images b)); eauto.
  - destruct T2 as [E2|(E2 & k & Hk & Hm)].
    + rewrite E2. exact T1.
    + right. split; [exact E2|].
      destruct T1 as [E1|(E1 & _)]; [|congruence].
      exists k. split; [congruence | exact Hm].
Qed.

Lemma categoryWithin_refl c : categoryWithin c c.
Proof. left; reflexivity. Qed.

Lemma categoryWithin_trans a b c :
  categoryWithin a b -> categoryWithin b c -> categoryWithin a c.
Proof.
  intros T1 T2. unfold categoryWithin in *.
  destruct T2 as [E2|(E2 & k & Hk & Hm)].
  - rewrite E2. exact T1.
  - right. split; [exact E2|].
    destruct T1 as [E1|(E1 & _)]; [|congruence].
    exists k. split; [congruence | exact Hm].
Qed.

Lemma Forall2_refl {A} (R : A -> A -> Prop) :
  (forall x, R x x) -> forall l, Forall2 R l l.
Proof. intros H l. induction l; constructor; auto. Qed.

Lemma Forall2_trans {A} (R : A -> A -> Prop) :
  (forall x y z, R x y -> R y z -> R x z) ->
  forall a b c, Forall2 R a b -> Forall2 R b c -> Forall2 R a c.
Proof.
  intros H a b c Hab. revert c.
  induction Hab; intros c Hbc; inversion Hbc; subst; constructor; eauto.
Qed.

Lemma Forall2_map_r {A} (R : A -> A -> Prop) (f : A -> A) :
  (forall x, R x (f x)) -> forall l, Forall2 R l (map f l).
Proof. intros H l. induction l; simpl; constructor; auto. Qed.

(** A step that leaves the stores alone and adds nothing to the trace. *)
Lemma withinManaged_same s s' :
  trace s' = trace s -> bucket s' = bucket s ->
  products s' = products s -> categories s' = categories s ->
  withinManaged s s'.
Proof.
  intros Ht Hb Hp Hc. unfold withinManaged. rewrite Ht, Hb, Hp, Hc.
  split; [exists []; rewrite app_nil_r; auto|].
  split; [auto|]. split; [intros k H1 H2; contradiction|].
  split; [apply Forall2_refl, productWithin_refl
         |apply Forall2_refl, categoryWithin_refl].
Qed.

#[global] Instance withinManaged_preorder : PreOrder withinManaged.
Proof.
  split.
  - intros s. apply withinManaged_same; reflexivity.
  - intros a b c ((t1 & Ht1 & Hf1) & I1 & M1 & P1 & C1)
                 ((t2 & Ht2 & Hf2) & I2 & M2 & P2 & C2).
    repeat split.
    + exists (t1 ++ t2). rewrite Ht2, Ht1, app_assoc. split; [reflexivity|].
      apply Forall_app; auto.
    + auto.
    + intros k Ha Hc. destruct (In_keys_dec k (bucket b)); eauto.
    + eapply Forall2_trans; eauto using productWithin_trans.
    + eapply Forall2_trans; eauto using categoryWithin_trans.
Qed.

Lemma withinManaged_logs c :
  touchesManagedOnly c = true -> logs withinManaged c.
Proof.
  intros H s. unfold withinManaged. cbn.
  split; [exists [c]; auto|].
  split; [auto|]. split; [intros k H1 H2; contradiction|].
  split; [apply Forall2_refl, productWithin_refl
         |apply Forall2_refl, categoryWithin_refl].
Qed.

Lemma allManaged_forallb ks : allManaged ks -> forallb managed ks = true.
Proof. intros H. apply forallb_forall. apply Forall_forall. exact H. Qed.

Lemma allManaged_In ks k : allManaged ks -> In k ks -> managed k = true.
Proof. intros H. revert k. apply Forall_forall. exact H. Qed.

Lemma allManaged_filter p ks : allManaged ks -> allManaged (filter p ks).
Proof.
  intros H. apply Forall_forall. intros k Hk. apply filter_In in Hk.
  apply (allManaged_In ks); tauto.
Qed.

Lemma In_firstn {A} (n : nat) (l : list A) (x : A) :
  In x (firstn n l) -> In x l.
Proof.
  intros H. rewrite <- (firstn_skipn n l). apply in_or_app. auto.
Qed.

Lemma In_skipn {A} (n : nat) (l : list A) (x : A) :
  In x (skipn n l) -> In x l.
Proof.
  intros H. rewrite <- (firstn_skipn n l). apply in_or_app. auto.
Qed.

Lemma allManaged_slice i j ks : allManaged ks -> allManaged (slice i j ks).
Proof.
  intros H. apply Forall_forall. intros k Hk. unfold slice in Hk.
  apply In_firstn, In_skipn in Hk. apply (allManaged_In ks); auto.
Qed.

Lemma withinManaged_deleteObjects ks :
  allManaged ks -> stable withinManaged (r2_deleteObjects ks).
Proof.
  intros H. sapply stable_call_modify.
  - apply withinManaged_logs. simpl. apply allManaged_forallb, H.
  - intros s. unfold withinManaged. cbn.
    split; [exists []; rewrite app_nil_r; auto|].
    split; [intros k Hk; apply filter_In in Hk; tauto|].
    split; [|split; [apply Forall2_refl, productWithin_refl
                    |apply Forall2_refl, categoryWithin_refl]].
    intros k Hk Hn.
    destruct (inKeys ks k) eqn:E.
    + apply inKeys_In in E. apply (allManaged_In ks); auto.
    + exfalso. apply Hn. apply filter_In. rewrite E. auto.
Qed.

Lemma productWithin_pullImages ks p :
  allManaged ks -> productWithin p (pullImages ks p).
Proof.
  intros H. unfold pullImages.
  destruct (existsb (inKeys ks) (images p)); [|apply productWithin_refl].
  unfold productWithin. cbn.
  split; [intros k Hk; apply filter_In in Hk; tauto|].
  split; [|auto].
  intros k Hk Hn. destruct (inKeys ks k) eqn:E.
  - apply inKeys_In in E. apply (allManaged_In ks); auto.
  - exfalso. apply Hn. apply filter_In. rewrite E. auto.
Qed.

Lemma productWithin_nullProductThumbnail ks p :
  allManaged ks -> productWithin p (nullProductThumbnail ks p).
Proof.
  intros H. unfold nullProductThumbnail, fieldIn.
  destruct (thumbnail p) as [k|] eqn:Et; [|apply productWithin_refl].
  destruct (inKeys ks k) eqn:E; [|apply productWithin_refl].
  unfold productWithin. cbn.
  split; [auto|]. split; [intros k' H1 H2; contradiction|].
  right. split; [reflexivity|]. exists k.
  split; [first [exact Et | reflexivity]|].
  apply inKeys_In in E. apply (allManaged_In ks); auto.
Qed.

Lemma categoryWithin_nullCategoryThumbnail ks c :
  allManaged ks -> categoryWithin c (nullCategoryThumbnail ks c).
Proof.
  intros H. unfold nullCategoryThumbnail, fieldIn, categoryWithin.
  destruct (cat_thumbnail c) as [k|] eqn:Et; [|auto].
  destruct (inKeys ks k) eqn:E; [|auto].
  right. split; [reflexivity|]. exists k. split; [reflexivity|].
  apply inKeys_In in E. apply (allManaged_In ks); auto.
Qed.

Lemma withinManaged_products f s :
  (forall p, productWithin p (f p)) ->
  withinManaged s (set_products (map f (products s)) s).
Proof.
  intros H. unfold withinManaged. cbn.
  split; [exists []; rewrite app_nil_r; auto|].
  split; [auto|]. split; [intros k H1 H2; contradiction|].
  split; [apply Forall2_map_r, H | apply Forall2_refl, categoryWithin_refl].
Qed.

Lemma withinManaged_categories f s :
  (forall c, categoryWithin c (f c)) ->
  withinManaged s (set_categories (map f (categories s)) s).
Proof.
  intros H. unfold withinManaged. cbn.
  split; [exists []; rewrite app_nil_r; auto|].
  split; [auto|]. split; [intros k H1 H2; contradiction|].
  split; [apply Forall2_refl, productWithin_refl | apply Forall2_map_r, H].
Qed.

Lemma withinManaged_flag b s : withinManaged s (set_isCleanupRunning b s).
Proof. apply withinManaged_same; reflexivity. Qed.

(** ** Both snapshots hold managed keys only *)

Lemma managed_image k : startsWith k PRODUCT_IMAGE_PREFIX = true -> managed k = true.
Proof. intros H. unfold managed. rewrite H. reflexivity. Qed.

Lemma managed_thumbnail k :
  startsWith k PRODUCT_THUMBNAIL_PREFIX = true -> managed k = true.
Proof. intros H. unfold managed. rewrite H. apply orb_true_iff. left. apply orb_true_r. Qed.

Lemma managed_category k :
  startsWith k CATEGORY_THUMBNAIL_PREFIX = true -> managed k = true.
Proof. intros H. unfold managed. rewrite H. apply orb_true_r. Qed.

Lemma allManaged_add s k :
  allManaged s -> managed k = true -> allManaged (JsSet.add s k).
Proof.
  intros Hs Hk. apply Forall_forall. intros x Hx.
  apply In_JsSet_add in Hx. destruct Hx as [Hx| ->]; [|exact Hk].
  apply (allManaged_In s); auto.
Qed.

Lemma allManaged_collectProduct s p :
  allManaged s -> allManaged (collectProduct s p).
Proof.
  intros Hs. unfold collectProduct.
  set (s1 := match thumbnail p with
             | Some t => if truthy t && (startsWith t PRODUCT_IMAGE_PREFIX
                                         || startsWith t PRODUCT_THUMBNAIL_PREFIX)
                         then JsSet.add s t else s
             | None => s
             end).
  assert (H1 : allManaged s1).
  { subst s1. destruct (thumbnail p) as [t|]; [|exact Hs].
    destruct (truthy t); simpl; [|exact Hs].
    destruct (startsWith t PRODUCT_IMAGE_PREFIX) eqn:E1; simpl.
    - apply allManaged_add; [exact Hs | apply managed_image, E1].
    - destruct (startsWith t PRODUCT_THUMBNAIL_PREFIX) eqn:E2; [|exact Hs].
      apply allManaged_add; [exact Hs | apply managed_thumbnail, E2]. }
  clearbody s1. revert s1 H1.
  induction (images p) as [|k ks IH]; intros s1 H1; simpl; [exact H1|].
  apply IH. destruct (startsWith k PRODUCT_IMAGE_PREFIX) eqn:E; [|exact H1].
  apply allManaged_add; [exact H1 | apply managed_image, E].
Qed.

Lemma allManaged_collectCategory s c :
  allManaged s -> allManaged (collectCategory s c).
Proof.
  intros Hs. unfold collectCategory.
  destruct (cat_thumbnail c) as [t|]; [|exact Hs].
  destruct (truthy t); simpl; [|exact Hs].
  destruct (startsWith t CATEGORY_THUMBNAIL_PREFIX) eqn:E; [|exact Hs].
  apply allManaged_add; [exact Hs | apply managed_category, E].
Qed.

Lemma allManaged_referencedKeys ps cs : allManaged (referencedKeys ps cs).
Proof.
  unfold referencedKeys.
  assert (H : allManaged (fold_left collectProduct
                                    (filter productMediaQuery ps) JsSet.empty)).
  { generalize (filter productMediaQuery ps).
    assert (H0 : allManaged JsSet.empty) by constructor.
    revert H0. generalize JsSet.empty.
    intros s Hs l. revert s Hs.
    induction l as [|p l IH]; intros s Hs; simpl; [exact Hs|].
    apply IH, allManaged_collectProduct, Hs. }
  revert H. generalize (fold_left collectProduct
                                  (filter productMediaQuery ps) JsSet.empty).
  generalize (filter categoryMediaQuery cs).
  intros l. induction l as [|c l IH]; intros s Hs; simpl; [exact Hs|].
  apply IH, allManaged_collectCategory, Hs.
Qed.

Lemma allManaged_storedKeys b : allManaged (storedKeys b).
Proof.
  apply Forall_forall. intros k Hk. unfold storedKeys in Hk.
  repeat (apply In_JsSet_addAll in Hk; destruct Hk as [Hk|Hk]);
    try (apply filter_In in Hk; destruct Hk as [_ Hk]).
  - destruct Hk.
  - apply managed_image, Hk.
  - apply managed_thumbnail, Hk.
  - apply managed_category, Hk.
Qed.

Lemma returns_getMediaKeysFromDatabase :
  returns getMediaKeysFromDatabase allManaged.
Proof.
  intros s ks s' H. apply getMediaKeysFromDatabase_inv in H.
  destruct H as [(Ho & _) | (e & t & Ho & _)]; [|discriminate].
  inversion Ho. apply allManaged_referencedKeys.
Qed.

Lemma returns_getMediaKeysFromR2 : returns getMediaKeysFromR2 allManaged.
Proof.
  intros s ks s' H. apply getMediaKeysFromR2_inv in H.
  destruct H as (t & _ & _ & Hk). rewrite (Hk ks eq_refl).
  apply allManaged_storedKeys.
Qed.

(** ** The whole run *)

Lemma withinManaged_cleanupMediaFiles_steps :
  stable withinManaged cleanupMediaFiles_steps.
Proof.
  unfold cleanupMediaFiles_steps.
  eapply stable_bind_returns; [exact _ | | apply returns_getMediaKeysFromDatabase |].
  { sapply stable_getMediaKeysFromDatabase;
      apply withinManaged_logs; reflexivity. }
  intros dbKeys Hdb.
  eapply stable_bind_returns; [exact _ | | apply returns_getMediaKeysFromR2 |].
  { unfold getMediaKeysFromR2.
    sapply stable_tryCatch; [|intros; sapply stable_throw].
    repeat (sapply stable_bind;
            [sapply stable_getR2KeysWithPrefix; intros;
             apply withinManaged_logs; reflexivity | intros ?]).
    sapply stable_ret. }
  intros r2Keys Hr2.
  sapply stable_bind.
  { sapply stable_deleteOrphanedR2Files. intros i j.
    apply withinManaged_deleteObjects, allManaged_slice, allManaged_filter.
    exact Hr2. }
  intros _. sapply stable_bind; [|intros; sapply stable_ret].
  sapply stable_cleanupDanglingDatabaseReferences; intros p;
    (sapply stable_call_modify;
     [apply withinManaged_logs; simpl;
      apply allManaged_forallb, allManaged_filter, allManaged_filter, Hdb
     |intros s]).
  - apply withinManaged_products. intros q.
    apply productWithin_pullImages, allManaged_filter, allManaged_filter, Hdb.
  - apply withinManaged_products. intros q.
    apply productWithin_nullProductThumbnail, allManaged_filter,
      allManaged_filter, Hdb.
  - apply withinManaged_categories. intros q.
    apply categoryWithin_nullCategoryThumbnail, allManaged_filter,
      allManaged_filter, Hdb.
Qed.

Lemma withinManaged_cleanupMediaFiles : stable withinManaged cleanupMediaFiles.
Proof.
  unfold cleanupMediaFiles.
  sapply stable_bind; [sapply stable_get|]. intros running.
  sapply stable_if; [sapply stable_ret|].
  sapply stable_tryFinally; [|intros; apply withinManaged_flag].
  sapply stable_tryCatch; [|intros; sapply stable_ret].
  unfold cleanupMediaFiles_body.
  sapply stable_bind; [|intros; apply withinManaged_cleanupMediaFiles_steps].
  sapply stable_modify. intros s. apply withinManaged_flag.
Qed.

(** C7.  Whatever state a run starts in and whatever fails during it:
    every list request names a managed prefix; every key of a delete or
    update request is under a managed prefix; every key that leaves the
    bucket, an image array or a thumbnail field is under a managed
    prefix; and every key the listing yields is under a managed
    prefix. *)
Theorem C7_managed_prefixes_only :
  (forall s, withinManaged s (snd (cleanupMediaFiles s)))
  /\ (forall s, allManaged (storedKeys (bucket s)))
  /\ returns getMediaKeysFromR2 allManaged.
Proof.
  split; [|split].
  - intros s. destruct (cleanupMediaFiles s) as [o s'] eqn:E.
    exact (withinManaged_cleanupMediaFiles _ _ _ E).
  - intros s. apply allManaged_storedKeys.
  - apply returns_getMediaKeysFromR2.
Qed.

(** Scenario A with an unmanaged key in the bucket and an external
    thumbnail on a second product: both are left alone. *)
Lemma C7_managed_prefixes_only_witness :
  let s := stateOf [K1; K2; "data/about.png"]
                   [mkProduct (Some K1) [];
                    mkProduct (Some "https://cdn.example.com/t.png") [K3]]
                   [] noFaults in
  withinManaged s (snd (cleanupMediaFiles s))
  /\ bucket (snd (cleanupMediaFiles s)) = [K1; "data/about.png"].
Proof.
  intros s. split; [apply (proj1 C7_managed_prefixes_only)|].
  vm_compute. reflexivity.
Defined.
(* ================================================================== *)
(** * A run whose requests are all accepted *)

Lemma deleteOrphanedR2Files_ok keys s :
  (forall n b, faults s n (DeleteObjects b) = None) ->
  deleteOrphanedR2Files keys s
  = (Returned tt,
     set_bucket (keysMinus (bucket s) keys)
       (set_trace (trace s ++ map DeleteObjects (chunks batchSize keys)) s)).
Proof.
  intros H. unfold deleteOrphanedR2Files.
  destruct (Nat.eqb_spec (length keys) 0) as [H0|H0].
  - apply length_zero_iff_nil in H0. subst keys.
    rewrite chunks_nil, keysMinus_nil. simpl. rewrite app_nil_r.
    destruct s; reflexivity.
  - unfold tryCatch.
    rewrite (deleteLoop_ok batchSize) by (unfold batchSize; lia || exact H).
    rewrite skipn_O. reflexivity.
Qed.

Lemma existsb_inKeys_nil (l : list string) : existsb (inKeys []) l = false.
Proof. induction l; simpl; auto. Qed.

Lemma pullImages_nil p : pullImages [] p = p.
Proof. unfold pullImages. rewrite existsb_inKeys_nil. reflexivity. Qed.

Lemma nullProductThumbnail_nil p : nullProductThumbnail [] p = p.
Proof.
  unfold nullProductThumbnail, fieldIn. destruct (thumbnail p); reflexivity.
Qed.

Lemma nullCategoryThumbnail_nil c : nullCategoryThumbnail [] c = c.
Proof.
  unfold nullCategoryThumbnail, fieldIn. destruct (cat_thumbnail c); reflexivity.
Qed.

Lemma map_id_ext {A} (f : A -> A) (l : list A) :
  (forall x, f x = x) -> map f l = l.
Proof. intros H. induction l; simpl; congruence. Qed.

Lemma empty_group (l : list string) : (0 <? length l) = false -> l = [].
Proof.
  intros H. apply Nat.ltb_ge in H. destruct l; [reflexivity | simpl in H; lia].
Qed.

Section AcceptedUpdates.
Variable d : list string.
Variable s : State.
Hypothesis accepted_updates :
  forall n c, mutating c = true -> faults s n c = None.

Lemma settle_images :
  let s' :=
    fold_left settle
      (if 0 <? length (imageGroup d)
       then [(ProductPullImages (imageGroup d),
              fun st => set_products
                          (map (pullImages (imageGroup d)) (products st)) st)]
       else []) s in
  products s' = map (pullImages (imageGroup d)) (products s)
  /\ categories s' = categories s /\ bucket s' = bucket s
  /\ faults s' = faults s.
Proof.
  cbv zeta. destruct (0 <? length (imageGroup d)) eqn:E.
  - cbn [fold_left]. unfold settle. cbn [fst snd].
    rewrite accepted_updates by reflexivity. cbn. auto.
  - rewrite (empty_group _ E). cbn [fold_left].
    rewrite (map_id_ext _ _ pullImages_nil). auto.
Qed.
Lemma settle_thumbnails :
  let s' :=
    fold_left settle
      (if 0 <? length (thumbnailGroup d)
       then [(ProductNullThumbnail (thumbnailGroup d),
              fun st => set_products
                          (map (nullProductThumbnail (thumbnailGroup d))
                               (products st)) st)]
       else []) s in
  products s' = map (nullProductThumbnail (thumbnailGroup d)) (products s)
  /\ categories s' = categories s /\ bucket s' = bucket s
  /\ faults s' = faults s.
Proof.
  cbv zeta. destruct (0 <? length (thumbnailGroup d)) eqn:E.
  - cbn [fold_left]. unfold settle. cbn [fst snd].
    rewrite accepted_updates by reflexivity. cbn. auto.
  - rewrite (empty_group _ E). cbn [fold_left].
    rewrite (map_id_ext _ _ nullProductThumbnail_nil). auto.
Qed.

Lemma settle_categories :
  let s' :=
    fold_left settle
      (if 0 <? length (categoryGroup d)
       then [(CategoryNullThumbnail (categoryGroup d),
              fun st => set_categories
                          (map (nullCategoryThumbnail (categoryGroup d))
                               (categories st)) st)]
       else []) s in
  categories s' = map (nullCategoryThumbnail (categoryGroup d)) (categories s)
  /\ products s' = products s /\ bucket s' = bucket s
  /\ faults s' = faults s.
Proof.
  cbv zeta. destruct (0 <? length (categoryGroup d)) eqn:E.
  - cbn [fold_left]. unfold settle. cbn [fst snd].
    rewrite accepted_updates by reflexivity. cbn. auto.
  - rewrite (empty_group _ E). cbn [fold_left].
    rewrite (map_id_ext _ _ nullCategoryThumbnail_nil). auto.
Qed.
End AcceptedUpdates.

(** What the three updates leave behind when all are accepted. *)
Lemma fold_settle_updateGroups d s :
  (forall n c, mutating c = true -> faults s n c = None) ->
  let s' := fold_left settle (updateGroups d) s in
  products s'
  = map (fun p => nullProductThumbnail (thumbnailGroup d)
                    (pullImages (imageGroup d) p)) (products s)
  /\ categories s'
     = map (nullCategoryThumbnail (categoryGroup d)) (categories s)
  /\ bucket s' = bucket s.
Proof.
  intros H. cbv zeta. unfold updateGroups. rewrite !fold_left_app.
  destruct (settle_images d s H) as (P1 & C1 & B1 & F1).
  cbv zeta in P1, C1, B1, F1.
  set (sa := fold_left settle _ s) in *.
  assert (Ha : forall n c, mutating c = true -> faults sa n c = None)
    by (intros; rewrite F1; auto).
  destruct (settle_thumbnails d sa Ha) as (P2 & C2 & B2 & F2).
  cbv zeta in P2, C2, B2, F2.
  set (sb := fold_left settle _ sa) in *.
  assert (Hb : forall n c, mutating c = true -> faults sb n c = None)
    by (intros; rewrite F2; auto).
  destruct (settle_categories d sb Hb) as (C3 & P3 & B3 & F3).
  cbv zeta in P3, C3, B3, F3.
  rewrite P3, P2, P1, C3, C2, C1, B3, B2, B1, map_map. auto.
Qed.

Lemma updateGroups_mutating d :
  Forall (fun g => mutating (fst g) = true) (updateGroups d).
Proof.
  unfold updateGroups.
  repeat (apply Forall_app; split);
    match goal with |- context [if ?b then _ else _] => destruct b end;
    repeat constructor.
Qed.

Lemma allAccepted_of_mutating d s :
  (forall n c, mutating c = true -> faults s n c = None) ->
  allAccepted s (updateGroups d).
Proof.
  intros H i Hi. apply H.
  pose proof (updateGroups_mutating d) as Hm.
  rewrite Forall_forall in Hm. apply Hm. apply nth_In. exact Hi.
Qed.

Lemma NoDup_keysMinus a b : NoDup a -> NoDup (keysMinus a b).
Proof. apply NoDup_filter. Qed.

Lemma NoDup_referencedKeys ps cs : NoDup (referencedKeys ps cs).
Proof.
  unfold referencedKeys.
  assert (Hc : forall l s, NoDup s -> NoDup (fold_left collectCategory l s)).
  { induction l as [|c l IH]; intros s Hs; simpl; [exact Hs|].
    apply IH. unfold collectCategory.
    destruct (cat_thumbnail c) as [t|]; [|exact Hs].
    destruct (truthy t && startsWith t CATEGORY_THUMBNAIL_PREFIX);
      [apply NoDup_JsSet_add|]; exact Hs. }
  assert (Hi : forall l s,
             NoDup s ->
             NoDup (fold_left
                      (fun acc key =>
                         if startsWith key PRODUCT_IMAGE_PREFIX
                         then JsSet.add acc key else acc) l s)).
  { induction l as [|k l IH]; intros s Hs; simpl; [exact Hs|].
    apply IH. destruct (startsWith k PRODUCT_IMAGE_PREFIX);
      [apply NoDup_JsSet_add|]; exact Hs. }
  assert (Hp : forall l s, NoDup s -> NoDup (fold_left collectProduct l s)).
  { induction l as [|p l IH]; intros s Hs; simpl; [exact Hs|].
    apply IH. unfold collectProduct. apply Hi.
    destruct (thumbnail p) as [t|]; [|exact Hs].
    destruct (truthy t && (startsWith t PRODUCT_IMAGE_PREFIX
                           || startsWith t PRODUCT_THUMBNAIL_PREFIX));
      [apply NoDup_JsSet_add|]; exact Hs. }
  apply Hc, Hp. constructor.
Qed.

Lemma NoDup_storedKeys b : NoDup (storedKeys b).
Proof.
  unfold storedKeys. repeat apply NoDup_JsSet_addAll. constructor.
Qed.

(** A run whose delete and update requests are all accepted, both
    snapshots obtained. *)
Lemma cleanupMediaFiles_accepted :
  forall s dbKeys s1 r2Keys s2,
    isCleanupRunning s = false ->
    getMediaKeysFromDatabase (set_isCleanupRunning true s)
    = (Returned dbKeys, s1) ->
    getMediaKeysFromR2 s1 = (Returned r2Keys, s2) ->
    (forall n c, mutating c = true -> faults s n c = None) ->
    let orphaned := orphanedKeysOf s in
    let dangling := danglingKeysOf s in
    let r := cleanupMediaFiles s in
    (forall k, In k orphaned <-> In k r2Keys /\ ~ In k dbKeys)
    /\ (forall k, In k dangling <-> In k dbKeys /\ ~ In k r2Keys)
    /\ NoDup orphaned /\ NoDup dangling
    /\ fst r = Returned (mkMediaResult (length orphaned) (length dangling))
    /\ (forall k, In k (bucket (snd r))
                  <-> In k (bucket s) /\ ~ In k orphaned)
    /\ deleteCalls (trace (snd r))
       = deleteCalls (trace s) ++ chunks batchSize orphaned
    /\ products (snd r)
       = map (fun p => nullProductThumbnail (thumbnailGroup dangling)
                         (pullImages (imageGroup dangling) p)) (products s)
    /\ categories (snd r)
       = map (nullCategoryThumbnail (categoryGroup dangling)) (categories s).
Proof.
  intros s dbKeys s1 r2Keys s2 Hidle Hdb Hr2 Hacc orphaned dangling r.
  destruct (snapshots_inv s _ _ _ _ Hdb Hr2) as (Edb & Er2 & Hrs & t & Hs2 & Ht).
  split; [intros k; subst; apply In_keysMinus|].
  split; [intros k; subst; apply In_keysMinus|].
  split; [apply NoDup_keysMinus, NoDup_storedKeys|].
  split; [apply NoDup_keysMinus, NoDup_referencedKeys|].
  subst r. rewrite (cleanupMediaFiles_run s _ _ _ _ Hidle Hdb Hr2).
  cbv zeta. subst dbKeys r2Keys.
  fold (orphanedKeysOf s) (danglingKeysOf s). fold orphaned dangling.
  assert (Hacc2 : forall n c, mutating c = true -> faults s2 n c = None).
  { intros n c Hm. rewrite Hs2. cbn. apply Hacc, Hm. }
  rewrite deleteOrphanedR2Files_ok by (intros; apply Hacc2; reflexivity).
  set (s3 := set_bucket _ _).
  assert (Hrs3 : readyState s3 = 1) by (subst s3; rewrite Hs2; exact Hrs).
  assert (Hacc3 : forall n c, mutating c = true -> faults s3 n c = None).
  { intros n c Hm. subst s3. cbn. apply Hacc2, Hm. }
  destruct (cleanupDanglingDatabaseReferences_settles dangling s3 Hrs3)
    as (Hs & Htr & _ & Hok & _).
  pose proof (proj2 Hok (allAccepted_of_mutating dangling s3 Hacc3)) as Hret.
  destruct (fold_settle_updateGroups dangling s3 Hacc3) as (Hp & Hc & Hb).
  cbv zeta in Hp, Hc, Hb. rewrite <- Hs in Hp, Hc, Hb.
  destruct (cleanupDanglingDatabaseReferences dangling s3) as [o s4].
  cbn [fst snd] in *. subst o.
  cbn [fst snd bucket products categories trace set_isCleanupRunning].
  split; [reflexivity|].
  split.
  { intros k. rewrite Hb. subst s3. cbn [bucket set_bucket].
    rewrite Hs2. cbn [bucket set_trace set_isCleanupRunning].
    apply In_keysMinus. }
  split.
  { rewrite Htr, deleteCalls_app. subst s3. cbn [trace set_bucket set_trace].
    rewrite deleteCalls_app, deleteCalls_map, Hs2.
    cbn [trace set_trace set_isCleanupRunning].
    rewrite deleteCalls_app.
    assert (Hnone : forall l, Forall (fun c => mutating c = false) l ->
                              deleteCalls l = []).
    { induction 1 as [|c l Hc' _ IH]; [reflexivity|].
      destruct c; simpl in *; try discriminate; exact IH. }
    assert (Hgroups : deleteCalls (map fst (updateGroups dangling)) = []).
    { unfold updateGroups.
      repeat match goal with
             | |- context [if ?b then _ else _] => destruct b
             end; reflexivity. }
    rewrite (Hnone t Ht), Hgroups, !app_nil_r. reflexivity. }
  split.
  { rewrite Hp. subst s3. cbn [products set_bucket set_trace].
    rewrite Hs2. reflexivity. }
  rewrite Hc. subst s3. cbn [categories set_bucket set_trace].
  rewrite Hs2. reflexivity.
Qed.

Lemma scenarioA_db_snapshot :
  getMediaKeysFromDatabase (set_isCleanupRunning true scenarioA)
  = (Returned [K1],
     snd (getMediaKeysFromDatabase (set_isCleanupRunning true scenarioA))).
Proof. vm_compute. reflexivity. Qed.

Lemma scenarioA_r2_snapshot :
  getMediaKeysFromR2
    (snd (getMediaKeysFromDatabase (set_isCleanupRunning true scenarioA)))
  = (Returned [K1; K2],
     snd (getMediaKeysFromR2
            (snd (getMediaKeysFromDatabase
                    (set_isCleanupRunning true scenarioA))))).
Proof. vm_compute. reflexivity. Qed.

(* ================================================================== *)
(** * Running twice *)

(** C6, at the failing input.  One product whose thumbnail is its
    gallery key [K3]; the bucket does not hold [K3]; nothing fails.  The
    first run completes, counts one dangling reference and pulls [K3]
    from the gallery, but leaves the thumbnail pointing at it: [K3] is
    under the image prefix and not under the thumbnail prefix, so the
    thumbnail update never names it.  The second run, on the state the
    first one left, counts the same dangling reference again. *)
Theorem C6_second_run_counts_again :
  let r1 := cleanupMediaFiles galleryThumbnail in
  let r2 := cleanupMediaFiles (snd r1) in
  fst r1 = Returned (mkMediaResult 0 1)
  /\ products (snd r1) = [mkProduct (Some K3) []]
  /\ bucket (snd r1) = []
  /\ fst r2 = Returned (mkMediaResult 0 1)
  /\ products (snd r2) = [mkProduct (Some K3) []].
Proof. vm_compute. repeat split; reflexivity. Qed.
(* ================================================================== *)
(** * The snapshots, key by key *)

Lemma prefix_toLower (p s : string) :
  String.prefix p s = true -> String.prefix (toLower p) (toLower s) = true.
Proof.
  revert s. induction p as [|c p IH]; intros s H; [destruct s; reflexivity|].
  destruct s as [|d s]; [discriminate|]. simpl in *.
  destruct (Ascii.ascii_dec c d) as [->|Hne]; [|discriminate].
  destruct (Ascii.ascii_dec (lowerAscii d) (lowerAscii d)); [|congruence].
  apply IH, H.
Qed.

Lemma startsWith_regexPrefixCI (p s : string) :
  startsWith s p = true -> regexPrefixCI p s = true.
Proof. apply prefix_toLower. Qed.

Lemma startsWith_truthy (k p : string) :
  p <> ""%string -> startsWith k p = true -> truthy k = true.
Proof.
  intros Hp H. destruct k; [|reflexivity].
  destruct p; [congruence | discriminate].
Qed.

Lemma In_fold_images (l : list string) :
  forall (s : JsSet.t) (k : string),
    In k (fold_left
            (fun acc key =>
               if startsWith key PRODUCT_IMAGE_PREFIX
               then JsSet.add acc key else acc) l s)
    <-> In k s \/ (In k l /\ startsWith k PRODUCT_IMAGE_PREFIX = true).
Proof.
  induction l as [|x l IH]; intros s k; simpl; [tauto|].
  rewrite IH. destruct (startsWith x PRODUCT_IMAGE_PREFIX) eqn:E.
  - rewrite In_JsSet_add. split.
    + intros [[H|H]|H]; [tauto | subst; tauto | tauto].
    + intros [H|[[H|H] Hs]]; [tauto | subst; tauto | tauto].
  - split.
    + tauto.
    + intros [H|[[H|H] Hs]]; [tauto | subst; congruence | tauto].
Qed.

Lemma In_collectProduct (s : JsSet.t) (p : Product) (k : string) :
  In k (collectProduct s p) <-> In k s \/ productReferences p k.
Proof.
  unfold collectProduct, productReferences. rewrite In_fold_images.
  destruct (thumbnail p) as [t|] eqn:Et.
  - destruct (truthy t && (startsWith t PRODUCT_IMAGE_PREFIX
                           || startsWith t PRODUCT_THUMBNAIL_PREFIX)) eqn:E.
    + rewrite In_JsSet_add. apply andb_true_iff in E. destruct E as [_ E].
      split.
      * intros [[H|H]|H]; [tauto | | tauto].
        subst k. right. left. auto.
      * intros [H|[[H _]|H]]; [tauto | | tauto].
        inversion H. tauto.
    + split; [tauto|].
      intros [H|[[H Hs]|H]]; [tauto | | tauto].
      inversion H; subst t. exfalso.
      assert (Htr : truthy k = true).
      { apply orb_true_iff in Hs. destruct Hs as [Hs|Hs];
          eapply startsWith_truthy; try exact Hs; discriminate. }
      rewrite Htr, Hs in E. discriminate.
  - split; [tauto|]. intros [H|[[H _]|H]]; [tauto | discriminate | tauto].
Qed.

Lemma In_collectCategory (s : JsSet.t) (c : Category) (k : string) :
  In k (collectCategory s c) <-> In k s \/ categoryReferences c k.
Proof.
  unfold collectCategory, categoryReferences.
  destruct (cat_thumbnail c) as [t|] eqn:Et.
  - destruct (truthy t && startsWith t CATEGORY_THUMBNAIL_PREFIX) eqn:E.
    + rewrite In_JsSet_add. apply andb_true_iff in E. destruct E as [_ E].
      split.
      * intros [H|H]; [tauto|]. subst k. auto.
      * intros [H|[H _]]; [tauto|]. inversion H. tauto.
    + split; [tauto|]. intros [H|[H Hs]]; [tauto|].
      inversion H; subst t. exfalso.
      assert (Htr : truthy k = true)
        by (eapply startsWith_truthy; try exact Hs; discriminate).
      rewrite Htr, Hs in E. discriminate.
  - split; [tauto|]. intros [H|[H _]]; [tauto | discriminate].
Qed.

Lemma In_fold_collectProduct (l : list Product) :
  forall (s : JsSet.t) (k : string),
    In k (fold_left collectProduct l s)
    <-> In k s \/ exists p, In p l /\ productReferences p k.
Proof.
  induction l as [|x l IH]; intros s k; simpl.
  - split; [tauto | intros [H|(p & [] & _)]; exact H].
  - rewrite IH, In_collectProduct. split.
    + intros [[H|H]|(p & Hp & H)]; eauto.
    + intros [H|(p & [->|Hp] & H)]; eauto.
Qed.

Lemma In_fold_collectCategory (l : list Category) :
  forall (s : JsSet.t) (k : string),
    In k (fold_left collectCategory l s)
    <-> In k s \/ exists c, In c l /\ categoryReferences c k.
Proof.
  induction l as [|x l IH]; intros s k; simpl.
  - split; [tauto | intros [H|(c & [] & _)]; exact H].
  - rewrite IH, In_collectCategory. split.
    + intros [[H|H]|(c & Hc & H)]; eauto.
    + intros [H|(c & [->|Hc] & H)]; eauto.
Qed.

Lemma productReferences_query p k :
  productReferences p k -> productMediaQuery p = true.
Proof.
  unfold productReferences, productMediaQuery.
  intros [[Ht Hs]|[Hi _]].
  - rewrite Ht. apply orb_true_iff. right.
    apply orb_true_iff in Hs. apply orb_true_iff.
    destruct Hs as [Hs|Hs]; [left|right]; apply startsWith_regexPrefixCI, Hs.
  - destruct (images p); [destruct Hi | reflexivity].
Qed.

Lemma categoryReferences_query c k :
  categoryReferences c k -> categoryMediaQuery c = true.
Proof.
  unfold categoryReferences, categoryMediaQuery. intros [Ht Hs].
  rewrite Ht. apply startsWith_regexPrefixCI, Hs.
Qed.

(** A key is in the referenced-key snapshot exactly when a product or a
    category references it. *)
Lemma In_referencedKeys ps cs k :
  In k (referencedKeys ps cs)
  <-> (exists p, In p ps /\ productReferences p k)
      \/ (exists c, In c cs /\ categoryReferences c k).
Proof.
  unfold referencedKeys.
  rewrite In_fold_collectCategory, In_fold_collectProduct. split.
  - intros [[[]|(p & Hp & H)]|(c & Hc & H)].
    + left. exists p. apply filter_In in Hp. tauto.
    + right. exists c. apply filter_In in Hc. tauto.
  - intros [(p & Hp & H)|(c & Hc & H)].
    + left. right. exists p. split; [|exact H].
      apply filter_In. split; [exact Hp|]. eapply productReferences_query, H.
    + right. exists c. split; [|exact H].
      apply filter_In. split; [exact Hc|]. eapply categoryReferences_query, H.
Qed.

(** A key is in the stored-key snapshot exactly when the bucket holds it
    under a managed prefix. *)
Lemma In_storedKeys b k :
  In k (storedKeys b) <-> In k b /\ managed k = true.
Proof.
  unfold storedKeys, managed. rewrite !In_JsSet_addAll, !filter_In.
  rewrite !orb_true_iff. simpl. tauto.
Qed.

(* ================================================================== *)
(** * A second run after a completed one *)

Lemma images_pullImages keys p k :
  In k (images (pullImages keys p)) <-> In k (images p) /\ ~ In k keys.
Proof.
  unfold pullImages.
  destruct (existsb (inKeys keys) (images p)) eqn:E; cbn [images].
  - rewrite filter_In, negb_true_iff, <- (inKeys_In keys k).
    destruct (inKeys keys k); intuition congruence.
  - split; [|tauto]. intros H. split; [exact H|].
    intros Hk. apply inKeys_In in Hk.
    assert (Hx : existsb (inKeys keys) (images p) = true)
      by (apply existsb_exists; exists k; split; assumption).
    congruence.
Qed.

Lemma thumbnail_pullImages keys p :
  thumbnail (pullImages keys p) = thumbnail p.
Proof. unfold pullImages. destruct (existsb _ _); reflexivity. Qed.

Lemma images_nullProductThumbnail keys p :
  images (nullProductThumbnail keys p) = images p.
Proof. unfold nullProductThumbnail. destruct (fieldIn _ _); reflexivity. Qed.

Lemma thumbnail_nullProductThumbnail keys p k :
  thumbnail (nullProductThumbnail keys p) = Some k
  <-> thumbnail p = Some k /\ ~ In k keys.
Proof.
  unfold nullProductThumbnail, fieldIn.
  destruct (thumbnail p) as [t|] eqn:Et.
  - destruct (inKeys keys t) eqn:Ei; cbn [thumbnail].
    + split; [discriminate|]. intros [E H]. inversion E; subst.
      apply inKeys_In in Ei. contradiction.
    + rewrite Et. split; [|tauto]. intros E. split; [exact E|].
      inversion E; subst. intros H. apply inKeys_In in H. congruence.
  - rewrite Et. split; [discriminate | intros [E _]; discriminate].
Qed.

Lemma cat_thumbnail_nullCategoryThumbnail keys c k :
  cat_thumbnail (nullCategoryThumbnail keys c) = Some k
  <-> cat_thumbnail c = Some k /\ ~ In k keys.
Proof.
  unfold nullCategoryThumbnail, fieldIn.
  destruct (cat_thumbnail c) as [t|] eqn:Et.
  - destruct (inKeys keys t) eqn:Ei; cbn [cat_thumbnail].
    + split; [discriminate|]. intros [E H]. inversion E; subst.
      apply inKeys_In in Ei. contradiction.
    + rewrite Et. split; [|tauto]. intros E. split; [exact E|].
      inversion E; subst. intros H. apply inKeys_In in H. congruence.
  - rewrite Et. split; [discriminate | intros [E _]; discriminate].
Qed.

Lemma In_group (pre : string) (d : list string) (k : string) :
  startsWith k pre = true ->
  (In k (filter (fun key => startsWith key pre) d) <-> In k d).
Proof. intros H. rewrite filter_In. tauto. Qed.

(** What a product references once the two product updates for the
    dangling keys [d] are applied to it. *)
Lemma productReferences_cleaned d p k :
  (forall t, thumbnail p = Some t -> In t d ->
             startsWith t PRODUCT_IMAGE_PREFIX = true ->
             startsWith t PRODUCT_THUMBNAIL_PREFIX = true) ->
  productReferences
    (nullProductThumbnail (thumbnailGroup d) (pullImages (imageGroup d) p)) k
  <-> productReferences p k /\ ~ In k d.
Proof.
  intros Hp. unfold productReferences.
  rewrite images_nullProductThumbnail, images_pullImages.
  rewrite thumbnail_nullProductThumbnail, thumbnail_pullImages.
  split.
  - intros [[[Ht Hn] Hs]|[[Hi Hn] Hs]].
    + split; [left; tauto|].
      intros Hd.
      assert (Hth : startsWith k PRODUCT_THUMBNAIL_PREFIX = true).
      { apply orb_true_iff in Hs. destruct Hs as [Hs|Hs]; [|exact Hs].
        apply Hp; assumption. }
      apply Hn. apply (In_group _ _ _ Hth), Hd.
    + split; [right; tauto|].
      intros Hd. apply Hn. apply (In_group _ _ _ Hs), Hd.
  - intros [[[Ht Hs]|[Hi Hs]] Hd].
    + left. split; [|exact Hs]. split; [exact Ht|].
      intros H. apply Hd. unfold thumbnailGroup in H.
      apply filter_In in H. tauto.
    + right. split; [|exact Hs]. split; [exact Hi|].
      intros H. apply Hd. unfold imageGroup in H.
      apply filter_In in H. tauto.
Qed.

Lemma categoryReferences_cleaned d c k :
  categoryReferences (nullCategoryThumbnail (categoryGroup d) c) k
  <-> categoryReferences c k /\ ~ In k d.
Proof.
  unfold categoryReferences.
  rewrite cat_thumbnail_nullCategoryThumbnail. split.
  - intros [[Ht Hn] Hs]. split; [tauto|].
    intros Hd. apply Hn. apply (In_group _ _ _ Hs), Hd.
  - intros [[Ht Hs] Hd]. split; [|exact Hs]. split; [exact Ht|].
    intros H. apply Hd. unfold categoryGroup in H.
    apply filter_In in H. tauto.
Qed.

(** The referenced keys of the cleaned collections are the referenced
    keys that were not dangling. *)
Lemma In_referencedKeys_cleaned d ps cs k :
  (forall p t, In p ps -> thumbnail p = Some t -> In t d ->
               startsWith t PRODUCT_IMAGE_PREFIX = true ->
               startsWith t PRODUCT_THUMBNAIL_PREFIX = true) ->
  In k (referencedKeys
          (map (fun p => nullProductThumbnail (thumbnailGroup d)
                           (pullImages (imageGroup d) p)) ps)
          (map (nullCategoryThumbnail (categoryGroup d)) cs))
  <-> In k (referencedKeys ps cs) /\ ~ In k d.
Proof.
  intros Hps. rewrite !In_referencedKeys. split.
  - intros [(p' & Hin & Hr)|(c' & Hin & Hr)].
    + apply in_map_iff in Hin. destruct Hin as (p & <- & Hin).
      apply productReferences_cleaned in Hr; [|intros t; apply Hps, Hin].
      destruct Hr as [Hr Hd]. split; [|exact Hd].
      left. exists p. tauto.
    + apply in_map_iff in Hin. destruct Hin as (c & <- & Hin).
      apply categoryReferences_cleaned in Hr.
      destruct Hr as [Hr Hd]. split; [|exact Hd].
      right. exists c. tauto.
  - intros [[(p & Hin & Hr)|(c & Hin & Hr)] Hd].
    + left. eexists. split; [apply in_map, Hin|].
      apply productReferences_cleaned; [intros t; apply Hps, Hin|tauto].
    + right. eexists. split; [apply in_map, Hin|].
      apply categoryReferences_cleaned. tauto.
Qed.

Lemma keysMinus_incl (a b : list string) :
  (forall k, In k a -> In k b) -> keysMinus a b = [].
Proof.
  intros H. destruct (keysMinus a b) as [|x l] eqn:E; [reflexivity|].
  assert (Hx : In x (keysMinus a b)) by (rewrite E; left; reflexivity).
  apply In_keysMinus in Hx. destruct Hx as [Ha Hb].
  exfalso. apply Hb, H, Ha.
Qed.

(** An idle run answers with zero counts or with the sizes of the two
    differences of its snapshots. *)
Lemma cleanupMediaFiles_zero_or_counts s :
  isCleanupRunning s = false ->
  fst (cleanupMediaFiles s) = Returned zeroMedia
  \/ fst (cleanupMediaFiles s)
     = Returned (mkMediaResult (length (orphanedKeysOf s))
                               (length (danglingKeysOf s))).
Proof.
  intros Hidle.
  destruct (getMediaKeysFromDatabase (set_isCleanupRunning true s))
    as [[dbKeys|e|] s1] eqn:Hdb.
  - destruct (getMediaKeysFromR2 s1) as [[r2Keys|e|] s2] eqn:Hr2.
    + rewrite (cleanupMediaFiles_run s _ _ _ _ Hidle Hdb Hr2). cbv zeta.
      destruct (snapshots_inv s _ _ _ _ Hdb Hr2) as (Edb & Er2 & _).
      subst dbKeys r2Keys.
      fold (orphanedKeysOf s) (danglingKeysOf s).
      pose proof (total_deleteOrphanedR2Files (orphanedKeysOf s) s2) as Hd.
      destruct (deleteOrphanedR2Files (orphanedKeysOf s) s2)
        as [[[]|e|] s3]; [|left; reflexivity|exfalso; apply Hd; reflexivity].
      pose proof (total_cleanupDanglingDatabaseReferences
                    (danglingKeysOf s) s3) as Hc.
      destruct (cleanupDanglingDatabaseReferences (danglingKeysOf s) s3)
        as [[[]|e|] s4];
        [right; reflexivity|left; reflexivity|exfalso; apply Hc; reflexivity].
    + destruct (snapshot_failure_aborts s Hidle) as (t & Hrun & _).
      { right. exists dbKeys, s1, e, s2. split; assumption. }
      left. rewrite Hrun. reflexivity.
    + exfalso. apply (total_getMediaKeysFromR2 s1). rewrite Hr2. reflexivity.
  - destruct (snapshot_failure_aborts s Hidle) as (t & Hrun & _).
    { left. exists e, s1. exact Hdb. }
    left. rewrite Hrun. reflexivity.
  - exfalso.
    apply (total_getMediaKeysFromDatabase (set_isCleanupRunning true s)).
    rewrite Hdb. reflexivity.
Qed.

(** X1.  After an idle run whose snapshots were obtained and whose
    delete and update requests were all accepted, and provided no
    product thumbnail under the image prefix lies outside the thumbnail
    prefix, the state the run leaves has no orphaned and no dangling
    key, and a second run on it answers with zero counts, whatever the
    storage and the database do during that second run. *)
Theorem X1_second_run_zero :
  forall s dbKeys s1 r2Keys s2,
    isCleanupRunning s = false ->
    getMediaKeysFromDatabase (set_isCleanupRunning true s)
    = (Returned dbKeys, s1) ->
    getMediaKeysFromR2 s1 = (Returned r2Keys, s2) ->
    (forall n c, mutating c = true -> faults s n c = None) ->
    thumbnailsUnderPrefix s ->
    let r1 := cleanupMediaFiles s in
    let r2 := cleanupMediaFiles (snd r1) in
    fst r1 = Returned (mkMediaResult (length (orphanedKeysOf s))
                                     (length (danglingKeysOf s)))
    /\ orphanedKeysOf (snd r1) = []
    /\ danglingKeysOf (snd r1) = []
    /\ fst r2 = Returned zeroMedia.
Proof.
  intros s dbKeys s1 r2Keys s2 Hidle Hdb Hr2 Hacc Hth r1 r2.
  pose proof (cleanupMediaFiles_accepted s _ _ _ _ Hidle Hdb Hr2 Hacc) as H.
  cbv zeta in H. fold r1 in H.
  destruct H as (_ & _ & _ & _ & Hres & Hb & _ & Hps & Hcs).
  split; [exact Hres|].
  assert (Hfl : isCleanupRunning (snd r1) = false).
  { destruct (cleanupMediaFiles_idle s Hidle) as (o & s' & _ & _ & _ & E).
    subst r1. rewrite E. reflexivity. }
  assert (Hsame : forall k,
             In k (referencedKeys (products (snd r1)) (categories (snd r1)))
             <-> In k (storedKeys (bucket (snd r1)))).
  { intros k. rewrite Hps, Hcs.
    rewrite In_referencedKeys_cleaned
      by (intros p t Hin Ht _; exact (Hth p t Hin Ht)).
    rewrite In_storedKeys, Hb.
    unfold danglingKeysOf, orphanedKeysOf. rewrite !In_keysMinus.
    rewrite In_storedKeys.
    destruct (In_keys_dec k (referencedKeys (products s) (categories s)));
      destruct (In_keys_dec k (bucket s));
      destruct (managed k); intuition congruence. }
  assert (Ho : orphanedKeysOf (snd r1) = []).
  { apply keysMinus_incl. intros k. apply Hsame. }
  assert (Hd : danglingKeysOf (snd r1) = []).
  { apply keysMinus_incl. intros k. apply Hsame. }
  split; [exact Ho|]. split; [exact Hd|].
  destruct (cleanupMediaFiles_zero_or_counts (snd r1) Hfl) as [E|E];
    subst r2; rewrite E; [reflexivity|].
  rewrite Ho, Hd. reflexivity.
Qed.

Lemma scenarioA_thumbnailsUnderPrefix : thumbnailsUnderPrefix scenarioA.
Proof.
  intros p k [<-|[]] Ht _. inversion Ht; subst k. vm_compute. reflexivity.
Qed.

(** Scenario A: the first run deletes [K2] and counts it; the second
    run finds nothing to do. *)
Lemma X1_second_run_zero_witness :
  fst (cleanupMediaFiles scenarioA) = Returned (mkMediaResult 1 0)
  /\ fst (cleanupMediaFiles (snd (cleanupMediaFiles scenarioA)))
     = Returned zeroMedia.
Proof.
  pose proof (X1_second_run_zero scenarioA _ _ _ _ eq_refl
                scenarioA_db_snapshot scenarioA_r2_snapshot
                (fun _ _ _ => eq_refl)
                scenarioA_thumbnailsUnderPrefix) as H.
  cbv zeta in H. destruct H as (H1 & _ & _ & H2).
  split; [|exact H2]. rewrite H1. vm_compute. reflexivity.
Defined.

(* ================================================================== *)
(** * What a run never takes away *)

Lemma docsKeep_refl k s : docsKeep k s s.
Proof.
  split; apply Forall2_refl; intros x; unfold productKeeps, categoryKeeps;
    tauto.
Qed.

Lemma docsKeep_trans k a b c : docsKeep k a b -> docsKeep k b c -> docsKeep k a c.
Proof.
  intros [H1 H2] [H3 H4]. split.
  - eapply Forall2_trans; [|exact H1|exact H3].
    unfold productKeeps. intros x y z [A1 A2] [B1 B2]. split; auto.
  - eapply Forall2_trans; [|exact H2|exact H4].
    unfold categoryKeeps. intros x y z A1 B1. auto.
Qed.

Lemma docsKeep_same k s s' :
  products s' = products s -> categories s' = categories s -> docsKeep k s s'.
Proof.
  intros Hp Hc. unfold docsKeep. rewrite Hp, Hc. apply docsKeep_refl.
Qed.

Lemma productKeeps_pullImages k keys p :
  ~ In k keys -> productKeeps k p (pullImages keys p).
Proof.
  intros Hk. split.
  - rewrite thumbnail_pullImages. tauto.
  - intros Hi. apply images_pullImages. tauto.
Qed.

Lemma productKeeps_nullProductThumbnail k keys p :
  ~ In k keys -> productKeeps k p (nullProductThumbnail keys p).
Proof.
  intros Hk. split.
  - intros Ht. apply thumbnail_nullProductThumbnail. tauto.
  - rewrite images_nullProductThumbnail. tauto.
Qed.

Lemma categoryKeeps_nullCategoryThumbnail k keys c :
  ~ In k keys -> categoryKeeps k c (nullCategoryThumbnail keys c).
Proof.
  intros Hk Ht. apply cat_thumbnail_nullCategoryThumbnail. tauto.
Qed.

(** An update group of [d], accepted or rejected, leaves alone the
    fields that hold a key outside [d]. *)
Lemma docsKeep_settle k d g s :
  ~ In k d -> In g (updateGroups d) -> docsKeep k s (settle s g).
Proof.
  intros Hk Hg. unfold settle.
  destruct (faults s (length (trace s)) (fst g));
    [apply docsKeep_same; reflexivity|].
  assert (Hf : forall pre, ~ In k (filter (fun key => startsWith key pre) d)).
  { intros pre H. apply filter_In in H. tauto. }
  unfold updateGroups in Hg.
  repeat (apply in_app_or in Hg; destruct Hg as [Hg|Hg]);
    match type of Hg with
    | In _ (if ?b then _ else _) => destruct b; [|destruct Hg]
    end;
    destruct Hg as [<-|[]]; cbn [snd fst]; split; cbn;
    try (apply Forall2_refl; intros x; unfold productKeeps, categoryKeeps;
         tauto).
  - apply Forall2_map_r. intros p. apply productKeeps_pullImages, Hf.
  - apply Forall2_map_r. intros p.
    apply productKeeps_nullProductThumbnail, Hf.
  - apply Forall2_map_r. intros c.
    apply categoryKeeps_nullCategoryThumbnail, Hf.
Qed.

Lemma docsKeep_fold_settle k d :
  ~ In k d ->
  forall gs s,
    (forall g, In g gs -> In g (updateGroups d)) ->
    docsKeep k s (fold_left settle gs s).
Proof.
  intros Hk. induction gs as [|g gs IH]; intros s Hin; simpl.
  - apply docsKeep_refl.
  - eapply docsKeep_trans.
    + apply (docsKeep_settle k d g s Hk). apply Hin. left. reflexivity.
    + apply IH. intros g' Hg'. apply Hin. right. exact Hg'.
Qed.

(** A key that the bucket holds is not dangling. *)
Lemma stored_not_dangling s k :
  In k (bucket s) -> ~ In k (danglingKeysOf s).
Proof.
  intros Hb Hd. apply In_keysMinus in Hd. destruct Hd as [Hdb Hr2].
  apply Hr2. apply In_storedKeys. split; [exact Hb|].
  eapply allManaged_In; [apply allManaged_referencedKeys | exact Hdb].
Qed.

(** The reference cleaner on the dangling keys of [s0], run from a
    state with the documents of [s0]. *)
Lemma docsKeep_cleaner s0 k s3 :
  In k (bucket s0) ->
  readyState s3 = 1 ->
  docsKeep k s3
    (snd (cleanupDanglingDatabaseReferences (danglingKeysOf s0) s3))
  /\ bucket (snd (cleanupDanglingDatabaseReferences (danglingKeysOf s0) s3))
     = bucket s3.
Proof.
  intros Hb Hrs. split.
  - destruct (cleanupDanglingDatabaseReferences_settles
                (danglingKeysOf s0) s3 Hrs) as (Hs & _).
    cbv zeta in Hs. rewrite Hs.
    apply (docsKeep_fold_settle k (danglingKeysOf s0)
             (stored_not_dangling s0 k Hb)).
    intros g Hg. exact Hg.
  - destruct (cleanupDanglingDatabaseReferences (danglingKeysOf s0) s3)
      as [o s4] eqn:E.
    apply sameStorage_cleanupDanglingDatabaseReferences in E.
    destruct E as [E _]. exact E.
Qed.

(** The deleter on the orphaned keys of [s0], run from a state with the
    bucket of [s0]. *)
Lemma deleter_keeps_referenced s0 k s2 :
  bucket s2 = bucket s0 ->
  In k (bucket s0) ->
  In k (referencedKeys (products s0) (categories s0)) ->
  In k (bucket (snd (deleteOrphanedR2Files (orphanedKeysOf s0) s2))).
Proof.
  intros Hb2 Hb Hr.
  assert (Hno : ~ In k (orphanedKeysOf s0)).
  { intros H. apply In_keysMinus in H. tauto. }
  destruct (deleteOrphanedR2Files_run (orphanedKeysOf s0) s2)
    as [(_ & _ & Hbk & _)|(e & j & _ & _ & _ & _ & Hbk & _)];
    cbv zeta in Hbk; rewrite Hbk; apply In_keysMinus; rewrite Hb2;
    (split; [exact Hb|]); [exact Hno|].
  intros H. apply Hno.
  assert (Hpos : 0 < batchSize) by (unfold batchSize; lia).
  rewrite <- (concat_chunks batchSize Hpos (orphanedKeysOf s0)).
  apply in_concat in H. destruct H as (c & Hc & Hk).
  apply in_concat. exists c. split; [|exact Hk].
  eapply In_firstn, Hc.
Qed.

(** X2.  Whatever requests fail and whether or not a run is in
    progress, a reconciliation run removes from no document a field
    that holds a key the bucket holds, and it leaves in the bucket
    every key that the referenced-key snapshot counts. *)
Theorem X2_stored_keys_survive :
  forall s k,
    In k (bucket s) ->
    let s' := snd (cleanupMediaFiles s) in
    docsKeep k s s'
    /\ (In k (referencedKeys (products s) (categories s)) ->
        In k (bucket s')).
Proof.
  intros s k Hb s'. subst s'.
  destruct (isCleanupRunning s) eqn:Hrun.
  { rewrite (cleanupMediaFiles_busy s Hrun). cbn [snd].
    split; [apply docsKeep_refl | intros _; exact Hb]. }
  destruct (getMediaKeysFromDatabase (set_isCleanupRunning true s))
    as [odb s1] eqn:Hdb.
  assert (Hfail : forall t,
             cleanupMediaFiles s
             = (Returned zeroMedia, set_trace (trace s ++ t) s) ->
             docsKeep k s (snd (cleanupMediaFiles s))
             /\ (In k (referencedKeys (products s) (categories s)) ->
                 In k (bucket (snd (cleanupMediaFiles s))))).
  { intros t E. rewrite E. cbn [snd]. split.
    - apply docsKeep_same; reflexivity.
    - intros _. exact Hb. }
  destruct odb as [dbKeys|e|].
  2:{ destruct (snapshot_failure_aborts s Hrun) as (t & E & _);
        [left; exists e, s1; exact Hdb | exact (Hfail t E)]. }
  2:{ exfalso.
      apply (total_getMediaKeysFromDatabase (set_isCleanupRunning true s)).
      rewrite Hdb. reflexivity. }
  destruct (getMediaKeysFromR2 s1) as [or2 s2] eqn:Hr2.
  destruct or2 as [r2Keys|e|].
  2:{ destruct (snapshot_failure_aborts s Hrun) as (t & E & _);
        [right; exists dbKeys, s1, e, s2; split; assumption
        | exact (Hfail t E)]. }
  2:{ exfalso. apply (total_getMediaKeysFromR2 s1).
      rewrite Hr2. reflexivity. }
  pose proof (cleanupMediaFiles_run s _ _ _ _ Hrun Hdb Hr2) as Erun.
  cbv zeta in Erun.
  destruct (snapshots_inv s _ _ _ _ Hdb Hr2)
    as (Edb & Er2 & Hrs & t & Hs2 & _).
  subst dbKeys r2Keys.
  fold (orphanedKeysOf s) (danglingKeysOf s) in Erun.
  assert (Hb2 : bucket s2 = bucket s) by (rewrite Hs2; reflexivity).
  pose proof (deleter_keeps_referenced s k s2 Hb2 Hb) as Hdel.
  destruct (deleteOrphanedR2Files (orphanedKeysOf s) s2) as [od s3] eqn:Ed.
  pose proof Ed as Esame. apply sameDocs_deleteOrphanedR2Files in Esame.
  destruct Esame as (Hp3 & Hc3 & Hrs3 & _).
  assert (Hp3' : products s3 = products s) by (rewrite Hp3, Hs2; reflexivity).
  assert (Hc3' : categories s3 = categories s)
    by (rewrite Hc3, Hs2; reflexivity).
  assert (Hrs3' : readyState s3 = 1) by (rewrite Hrs3, Hs2; exact Hrs).
  cbn [snd] in Hdel.
  assert (Hk3 : docsKeep k s s3) by (apply docsKeep_same; assumption).
  destruct od as [[]|e|];
    [|rewrite Erun; cbn [snd]; split; [exact Hk3 | exact Hdel]..].
  destruct (docsKeep_cleaner s k s3 Hb Hrs3') as [Hk4 Hb4].
  destruct (cleanupDanglingDatabaseReferences (danglingKeysOf s) s3)
    as [oc s4] eqn:Ec.
  cbn [snd] in Hk4, Hb4.
  assert (Hgoal : docsKeep k s s4
                  /\ (In k (referencedKeys (products s) (categories s)) ->
                      In k (bucket s4))).
  { split; [eapply docsKeep_trans; eassumption|].
    intros Hr. rewrite Hb4. apply Hdel, Hr. }
  destruct oc as [[]|e|]; rewrite Erun; cbn [snd]; exact Hgoal.
Qed.

(** Scenario A: [K1] is stored and referenced; it is still both after
    the run. *)
Lemma X2_stored_keys_survive_witness :
  docsKeep K1 scenarioA (snd (cleanupMediaFiles scenarioA))
  /\ In K1 (bucket (snd (cleanupMediaFiles scenarioA))).
Proof.
  destruct (X2_stored_keys_survive scenarioA K1) as [H1 H2].
  - simpl. auto.
  - split; [exact H1|]. apply H2. vm_compute. auto.
Defined.

(* ================================================================== *)
(** * The reconciliation of a run *)

Lemma thumbnailsUnderPrefix_dangling s :
  thumbnailsUnderPrefix s -> danglingThumbnailsUnderPrefix s.
Proof. intros H p k Hin Ht _. exact (H p k Hin Ht). Qed.

(** The two product updates for the keys [d] take no key outside [d]
    from a product. *)
Lemma productKeeps_cleaned k d p :
  ~ In k d ->
  productKeeps k p
    (nullProductThumbnail (thumbnailGroup d) (pullImages (imageGroup d) p)).
Proof.
  intros Hk.
  assert (Hf : forall pre, ~ In k (filter (fun key => startsWith key pre) d)).
  { intros pre H. apply filter_In in H. tauto. }
  split.
  - intros Ht. apply thumbnail_nullProductThumbnail.
    rewrite thumbnail_pullImages. split; [exact Ht | apply Hf].
  - intros Hi. rewrite images_nullProductThumbnail.
    apply images_pullImages. split; [exact Hi | apply Hf].
Qed.

(** C2, as amended.  For every pair of successfully obtained snapshots,
    when the storage and the database accept every delete and update
    request of the run: the run deletes from the bucket exactly the keys
    of storageKeys - referencedKeys, in batches; the keys the documents
    reference afterwards are exactly the referenced keys that are not
    in referencedKeys - storageKeys, and no field that held another key
    loses it; and the run returns the cardinalities of the two
    differences.  Left out are the inputs in which a product thumbnail
    holds a dangling key of the image prefix outside the thumbnail
    prefix (C6). *)
Theorem C2_reconciliation :
  forall s dbKeys s1 r2Keys s2,
    isCleanupRunning s = false ->
    getMediaKeysFromDatabase (set_isCleanupRunning true s)
    = (Returned dbKeys, s1) ->
    getMediaKeysFromR2 s1 = (Returned r2Keys, s2) ->
    (forall n c, mutating c = true -> faults s n c = None) ->
    danglingThumbnailsUnderPrefix s ->
    let orphaned := orphanedKeysOf s in
    let dangling := danglingKeysOf s in
    let r := cleanupMediaFiles s in
    (forall k, In k orphaned <-> In k r2Keys /\ ~ In k dbKeys)
    /\ (forall k, In k dangling <-> In k dbKeys /\ ~ In k r2Keys)
    /\ NoDup orphaned /\ NoDup dangling
    /\ fst r = Returned (mkMediaResult (length orphaned) (length dangling))
    /\ (forall k, In k (bucket (snd r))
                  <-> In k (bucket s) /\ ~ In k orphaned)
    /\ deleteCalls (trace (snd r))
       = deleteCalls (trace s) ++ chunks batchSize orphaned
    /\ (forall k, In k (referencedKeys (products (snd r))
                                       (categories (snd r)))
                  <-> In k (referencedKeys (products s) (categories s))
                      /\ ~ In k dangling)
    /\ (forall k, ~ In k dangling -> docsKeep k s (snd r)).
Proof.
  intros s dbKeys s1 r2Keys s2 Hidle Hdb Hr2 Hacc Hth orphaned dangling r.
  pose proof (cleanupMediaFiles_accepted s _ _ _ _ Hidle Hdb Hr2 Hacc) as H.
  cbv zeta in H. fold orphaned dangling r in H.
  destruct H as (Ho & Hd & Hno & Hnd & Hres & Hb & Hcalls & Hps & Hcs).
  repeat (split; [assumption|]).
  split.
  - intros k. rewrite Hps, Hcs.
    apply In_referencedKeys_cleaned. exact Hth.
  - intros k Hk. unfold docsKeep. rewrite Hps, Hcs. split.
    + apply Forall2_map_r. intros p. apply productKeeps_cleaned, Hk.
    + apply Forall2_map_r. intros c.
      apply categoryKeeps_nullCategoryThumbnail.
      intros H. apply Hk. unfold categoryGroup in H.
      apply filter_In in H. tauto.
Qed.

Lemma scenarioB_db_snapshot :
  getMediaKeysFromDatabase (set_isCleanupRunning true scenarioB)
  = (Returned [K3],
     snd (getMediaKeysFromDatabase (set_isCleanupRunning true scenarioB))).
Proof. vm_compute. reflexivity. Qed.

Lemma scenarioB_r2_snapshot :
  getMediaKeysFromR2
    (snd (getMediaKeysFromDatabase (set_isCleanupRunning true scenarioB)))
  = (Returned [],
     snd (getMediaKeysFromR2
            (snd (getMediaKeysFromDatabase
                    (set_isCleanupRunning true scenarioB))))).
Proof. vm_compute. reflexivity. Qed.

(** Scenario A: [K2] is deleted, one orphaned file is counted, [K1]
    stays in the bucket and stays referenced.  Scenario B: the dangling
    gallery key [K3] is referenced no more, and one dangling reference
    is counted. *)
Lemma C2_reconciliation_witness :
  (fst (cleanupMediaFiles scenarioA) = Returned (mkMediaResult 1 0)
   /\ (In K1 (bucket (snd (cleanupMediaFiles scenarioA)))
       /\ ~ In K2 (bucket (snd (cleanupMediaFiles scenarioA))))
   /\ In K1 (referencedKeys (products (snd (cleanupMediaFiles scenarioA)))
                            (categories (snd (cleanupMediaFiles scenarioA)))))
  /\ (fst (cleanupMediaFiles scenarioB) = Returned (mkMediaResult 0 1)
      /\ ~ In K3 (referencedKeys
                    (products (snd (cleanupMediaFiles scenarioB)))
                    (categories (snd (cleanupMediaFiles scenarioB))))).
Proof.
  split.
  - pose proof (C2_reconciliation scenarioA _ _ _ _ eq_refl
                  scenarioA_db_snapshot scenarioA_r2_snapshot
                  (fun _ _ _ => eq_refl)
                  (thumbnailsUnderPrefix_dangling _
                     scenarioA_thumbnailsUnderPrefix)) as H.
    cbv zeta in H. destruct H as (_ & _ & _ & _ & Hr & Hb & _ & Href & _).
    split; [exact Hr|]. split; [split|].
    + apply Hb. split; [simpl; auto|]. vm_compute. intuition discriminate.
    + intros H. apply Hb in H. destruct H as [_ H]. apply H.
      vm_compute. auto.
    + apply Href. split; [vm_compute; auto|].
      vm_compute. intros [].
  - pose proof (C2_reconciliation scenarioB _ _ _ _ eq_refl
                  scenarioB_db_snapshot scenarioB_r2_snapshot
                  (fun _ _ _ => eq_refl)) as H.
    cbv zeta in H.
    destruct H as (_ & _ & _ & _ & Hr & _ & _ & Href & _).
    + intros p k [<-|[]] Ht. discriminate Ht.
    + split; [exact Hr|].
      intros H. apply Href in H. destruct H as [_ H]. apply H.
      vm_compute. auto.
Defined.

(** Scenario A against a storage that rejects the delete request: both
    snapshots are obtained, yet the run returns zero counts and [K2]
    stays. *)
Lemma C2_counterexample : ~ reconciliation_resolves_both_differences.
Proof.
  intros H.
  destruct (H scenarioA_rejected
              [K1]
              (snd (getMediaKeysFromDatabase
                      (set_isCleanupRunning true scenarioA_rejected)))
              [K1; K2]
              (snd (getMediaKeysFromR2
                      (snd (getMediaKeysFromDatabase
                              (set_isCleanupRunning true scenarioA_rejected)))))
              eq_refl) as (Hr & _).
  - vm_compute. reflexivity.
  - vm_compute. reflexivity.
  - revert Hr. vm_compute. discriminate.
Qed.

(* ================================================================== *)
(** * DbService: the connection gate and the errors it lets out *)

Lemma executeDbOperation_disconnected {A} (operation : M A) s :
  readyState s <> 1 ->
  executeDbOperation operation s
  = (Thrown (DatabaseError "Database connection is not established"), s).
Proof.
  intros H. unfold executeDbOperation, tryCatch, bind, get.
  apply Nat.eqb_neq in H. rewrite H. reflexivity.
Qed.

Lemma executeDbOperation_connected {A} (operation : M A) s :
  readyState s = 1 ->
  executeDbOperation operation s
  = match operation s with
    | (Thrown e, s') => (Thrown (classifyDbError e), s')
    | r => r
    end.
Proof.
  intros H. unfold executeDbOperation, tryCatch, bind, get.
  rewrite H. cbn [Nat.eqb negb].
  destruct (operation s) as [[a|e|] s']; reflexivity.
Qed.

(** X3.  [executeDbOperation] runs its operation exactly when
    [isDatabaseConnected] answers [true], which is when
    [getDatabaseStatus] reports [connected]: on any other ready state
    the operation is never invoked (the state, trace included, is
    untouched) and a 503 [DatabaseError] is thrown; on ready state 1 a
    value the operation returns is handed on unchanged. *)
Theorem X3_executeDbOperation_connection_gate :
  forall (A : Type) (operation : M A) (s : State),
    (exists st,
        getDatabaseStatus s = (Returned st, s)
        /\ isDatabaseConnected s = (Returned (connected st), s)
        /\ status_readyState st = readyState s
        /\ (connected st = true <-> readyState s = 1)
        /\ (connected st = true <-> status st = "connected"))
    /\ (readyState s <> 1 ->
        executeDbOperation operation s
        = (Thrown (DatabaseError "Database connection is not established"),
           s))
    /\ (readyState s = 1 ->
        forall a s',
          operation s = (Returned a, s') ->
          executeDbOperation operation s = (Returned a, s')).
Proof.
  intros A operation s. split; [|split].
  - eexists. split; [reflexivity|].
    cbn [connected status status_readyState].
    split; [reflexivity|]. split; [reflexivity|].
    split; [apply Nat.eqb_eq|].
    destruct (readyState s) as [|[|[|[|n]]]]; cbn;
      try (split; [discriminate | intros H; discriminate H]);
      try (split; reflexivity).
    destruct (n =? 95); split; intros H; discriminate H.
  - apply executeDbOperation_disconnected.
  - intros Hrs a s' Hop.
    rewrite (executeDbOperation_connected operation s Hrs), Hop.
    reflexivity.
Qed.

(** A disconnected database: the find request is never issued. *)
Lemma X3_executeDbOperation_connection_gate_witness :
  executeDbOperation (Product_find productMediaQuery)
    (mkState [] [] [] 0 None 0 [] noFaults false false)
  = (Thrown (DatabaseError "Database connection is not established"),
     mkState [] [] [] 0 None 0 [] noFaults false false)
  /\ executeDbOperation (Product_find productMediaQuery) scenarioA
     = (Returned [mkProduct (Some K1) []],
        set_trace [ProductFind] scenarioA).
Proof.
  split.
  - apply (X3_executeDbOperation_connection_gate _
             (Product_find productMediaQuery)
             (mkState [] [] [] 0 None 0 [] noFaults false false)).
    simpl. discriminate.
  - apply (X3_executeDbOperation_connection_gate _
             (Product_find productMediaQuery) scenarioA).
    + reflexivity.
    + vm_compute. reflexivity.
Defined.

Lemma isAppError_classifyDbError e :
  lacksKeyValue e = false -> isAppError (classifyDbError e) = true.
Proof.
  unfold lacksKeyValue, classifyDbError.
  destruct (kind e) eqn:Ek; cbn [ErrorKind_eqb orb andb]; intros Hk;
    try (unfold isAppError; rewrite Ek; reflexivity);
    try reflexivity;
    repeat match goal with
           | |- isAppError (if ?b then _ else _) = true => destruct b
           | |- isAppError (match keyValue e with _ => _ end) = true =>
               destruct (keyValue e) as [[|[? ?] ?]|]
           end; try reflexivity; discriminate Hk.
Qed.

Lemma classifyDbError_lacksKeyValue e :
  lacksKeyValue e = true ->
  classifyDbError e = TypeError "Cannot convert undefined or null to object".
Proof.
  unfold lacksKeyValue, classifyDbError. intros H.
  apply andb_true_iff in H. destruct H as [H Hk].
  apply andb_true_iff in H. destruct H as [Hm Hc].
  destruct (kind e); try discriminate Hm. cbn [ErrorKind_eqb orb andb].
  rewrite Hc. destruct (keyValue e); [discriminate Hk | reflexivity].
Qed.

Lemma classifyDbError_passesThrough e :
  passesThrough e = true -> classifyDbError e = e.
Proof.
  unfold passesThrough, classifyDbError.
  destruct (kind e); try discriminate; reflexivity.
Qed.

Lemma classifyDbError_status e :
  passesThrough e = false ->
  lacksKeyValue e = false ->
  (statusCode (classifyDbError e) = 400
   \/ statusCode (classifyDbError e) = 404
   \/ statusCode (classifyDbError e) = 500
   \/ statusCode (classifyDbError e) = 503
   \/ (statusCode (classifyDbError e) = statusCode e
       /\ statusCode e <> 0))%Z.
Proof.
  unfold passesThrough, lacksKeyValue, classifyDbError.
  destruct (kind e) eqn:Ek; try discriminate; intros _ Hk;
    cbn [ErrorKind_eqb orb andb] in *;
    repeat match goal with
           | |- context [if ?b then _ else _] =>
               let E := fresh "E" in destruct b eqn:E
           | |- context [match keyValue e with _ => _ end] =>
               destruct (keyValue e) as [[|[? ?] ?]|]
           end;
    try discriminate Hk;
    cbn [statusCode BadRequestError NotFoundError DatabaseError
         InternalServerError AppError];
    try (left; reflexivity);
    try (right; left; reflexivity);
    try (right; right; left; reflexivity);
    try (right; right; right; left; reflexivity);
    right; right; right; right; (split; [reflexivity|]);
    intros H; rewrite H in *; discriminate.
Qed.

(** X4.  What [executeDbOperation] throws: the 503 of the connection
    gate, or what its [catch] block makes of the operation's error.  A
    [DatabaseError], [BadRequestError] or [InternalServerError] of the
    operation is rethrown as it is.  A duplicate-key error of the
    driver that carries no [keyValue] makes the [catch] block itself
    fail: a [TypeError], which is no error of the application, leaves
    in its place.  Every other error leaves as an error of the
    application ([instanceof AppError]), with status 400, 404, 500 or
    503, or with the status code it carried. *)
Theorem X4_executeDbOperation_thrown_errors :
  forall (A : Type) (operation : M A) (s : State) (e : Error) (s' : State),
    executeDbOperation operation s = (Thrown e, s') ->
    (readyState s <> 1
     /\ e = DatabaseError "Database connection is not established"
     /\ s' = s)
    \/ (readyState s = 1
        /\ exists e0,
            operation s = (Thrown e0, s')
            /\ e = classifyDbError e0
            /\ (passesThrough e0 = true -> e = e0)
            /\ (lacksKeyValue e0 = true ->
                e = TypeError "Cannot convert undefined or null to object"
                /\ isAppError e = false)
            /\ (lacksKeyValue e0 = false -> isAppError e = true)
            /\ (passesThrough e0 = false -> lacksKeyValue e0 = false ->
                (statusCode e = 400 \/ statusCode e = 404
                 \/ statusCode e = 500 \/ statusCode e = 503
                 \/ (statusCode e = statusCode e0
                     /\ statusCode e0 <> 0))%Z)).
Proof.
  intros A operation s e s' H.
  destruct (Nat.eq_dec (readyState s) 1) as [Hrs|Hrs].
  - rewrite (executeDbOperation_connected operation s Hrs) in H.
    destruct (operation s) as [[a|e0|] s0] eqn:Hop; try discriminate.
    inversion H; subst e s0; clear H.
    right. split; [exact Hrs|]. exists e0.
    split; [reflexivity|]. split; [reflexivity|].
    split; [apply classifyDbError_passesThrough|].
    split.
    { intros Hk. rewrite (classifyDbError_lacksKeyValue e0 Hk).
      split; reflexivity. }
    split; [apply isAppError_classifyDbError
           | apply classifyDbError_status].
  - rewrite (executeDbOperation_disconnected operation s Hrs) in H.
    inversion H; subst e s'; clear H.
    left. auto.
Qed.

(** A duplicate-key error on the slug comes out as a 400 when the
    driver names the key, and as a [TypeError] when it does not. *)
Lemma X4_executeDbOperation_thrown_errors_witness :
  isAppError (BadRequestError "slug 'lamps' already exists") = true
  /\ isAppError (TypeError "Cannot convert undefined or null to object")
     = false.
Proof.
  split.
  - destruct (X4_executeDbOperation_thrown_errors unit
                (failingWith
                   (mkError KMongoServerError "E11000 duplicate key" 11000 0
                            [] (Some [("slug", "lamps")])))
                scenarioA
                (BadRequestError "slug 'lamps' already exists")
                (set_trace [ProductFind] scenarioA))
      as [(Hrs & _)|(_ & e0 & Hop & _ & _ & _ & Happ & _)].
    + vm_compute. reflexivity.
    + exfalso. apply Hrs. reflexivity.
    + apply Happ. vm_compute in Hop. inversion Hop. reflexivity.
  - destruct (X4_executeDbOperation_thrown_errors unit
                (failingWith
                   (mkError KMongoServerError "E11000 duplicate key" 11000 0
                            [] None))
                scenarioA
                (TypeError "Cannot convert undefined or null to object")
                (set_trace [ProductFind] scenarioA))
      as [(Hrs & _)|(_ & e0 & Hop & _ & _ & Hty & _)].
    + vm_compute. reflexivity.
    + exfalso. apply Hrs. reflexivity.
    + apply Hty. vm_compute in Hop. inversion Hop. reflexivity.
Defined.

(** X5.  An application error thrown inside the operation that is not
    one of the three rethrown classes (a [NotFoundError], an
    [UnauthorizedError], a plain [AppError]) leaves as a plain
    [AppError] with its message and status code, unless its message
    contains "connection", "connect" or "timeout": then it leaves as a
    503 [DatabaseError]. *)
Theorem X5_application_error_inside_operation :
  forall e : Error,
    isAppError e = true ->
    passesThrough e = false ->
    (mentionsConnection (message e) = true ->
     classifyDbError e
     = DatabaseError ("Database connection issue: " ++ message e))
    /\ (mentionsConnection (message e) = false ->
        message e <> "" -> statusCode e <> 0%Z ->
        classifyDbError e = AppError (message e) (statusCode e)).
Proof.
  intros e Happ Hpass.
  assert (Hk : kind e = KAppError \/ kind e = KNotFoundError).
  { unfold isAppError in Happ. unfold passesThrough in Hpass.
    destruct (kind e); try discriminate; auto. }
  unfold mentionsConnection. split.
  - intros Hm.
    assert (Hne : isEmpty (message e) = false).
    { destruct (message e); [discriminate Hm | reflexivity]. }
    unfold classifyDbError.
    destruct Hk as [Hk|Hk]; rewrite Hk; cbn [ErrorKind_eqb orb andb];
      rewrite Hne, Hm; reflexivity.
  - intros Hm Hne Hst.
    assert (Hne' : isEmpty (message e) = false).
    { destruct (message e); [contradiction Hne; reflexivity | reflexivity]. }
    apply Z.eqb_neq in Hst.
    unfold classifyDbError.
    destruct Hk as [Hk|Hk]; rewrite Hk; cbn [ErrorKind_eqb orb andb];
      rewrite Hne', Hm, Hst; reflexivity.
Qed.

(** [NotFoundError("Product not found")] keeps its 404;
    [NotFoundError("No connection profile")] becomes a 503. *)
Lemma X5_application_error_inside_operation_witness :
  classifyDbError (NotFoundError "Product not found")
  = AppError "Product not found" 404
  /\ classifyDbError (NotFoundError "No connection profile")
     = DatabaseError "Database connection issue: No connection profile".
Proof.
  split.
  - apply (X5_application_error_inside_operation
             (NotFoundError "Product not found")); try reflexivity;
      discriminate.
  - apply (X5_application_error_inside_operation
             (NotFoundError "No connection profile")); reflexivity.
Defined.

(* ================================================================== *)
(** * Paging through a prefix *)

Lemma ceilDiv_step (r d : nat) :
  0 < d -> d < r -> ceilDiv r d = S (ceilDiv (r - d) d).
Proof.
  intros Hd Hr. unfold ceilDiv.
  replace (r + d - 1) with ((r - d + d - 1) + 1 * d) by lia.
  rewrite Nat.div_add by lia. lia.
Qed.

Lemma ceilDiv_small (r d : nat) : 0 < d -> r <= d -> ceilDiv r d <= 1.
Proof.
  intros Hd Hr. unfold ceilDiv.
  assert (H : (r + d - 1) / d < 2); [|lia].
  apply Nat.Div0.div_lt_upper_bound. lia.
Qed.

Lemma ceilDiv_pos (r d : nat) : 0 < d -> 0 < r -> 0 < ceilDiv r d.
Proof.
  intros Hd Hr. unfold ceilDiv.
  apply Nat.div_str_pos. lia.
Qed.

(** The loop, from any token on, when no list request is rejected. *)
Lemma getR2KeysLoop_requests maxKeys prefix :
  0 < maxKeys ->
  forall fuel token mediaKeys s,
    (forall n t, faults s n (ListObjectsV2 prefix t) = None) ->
    let rest := skipn (tokenStart token)
                      (filter (fun k => startsWith k prefix) (bucket s)) in
    length rest < fuel ->
    getR2KeysLoop maxKeys fuel prefix token mediaKeys s
    = (Returned (JsSet.addAll mediaKeys rest),
       set_trace
         (trace s
          ++ ListObjectsV2 prefix token
             :: map (fun i => ListObjectsV2 prefix
                                (Some (tokenStart token + i * maxKeys)))
                    (seq 1 (ceilDiv (length rest) maxKeys - 1))) s).
Proof.
  intros Hpos. induction fuel as [|fuel IH];
    intros token mediaKeys s Hf rest Hlen; [lia|].
  cbn [getR2KeysLoop]. unfold bind at 1.
  unfold r2_listObjectsV2, bind, call, get, ret.
  rewrite Hf. cbn [fst snd bucket set_trace].
  fold (tokenStart token). fold rest.
  destruct (maxKeys <? length rest) eqn:E.
  - apply Nat.ltb_lt in E.
    set (s1 := set_trace (trace s ++ [ListObjectsV2 prefix token]) s).
    assert (Hrest : skipn (tokenStart (Some (tokenStart token + maxKeys)))
                          (filter (fun k => startsWith k prefix) (bucket s1))
                    = skipn maxKeys rest).
    { cbn [tokenStart]. subst s1 rest. cbn [bucket set_trace].
      rewrite skipn_skipn. f_equal. lia. }
    rewrite (IH (Some (tokenStart token + maxKeys)) _ s1).
    + cbv zeta. rewrite Hrest.
      rewrite <- JsSet_addAll_app, firstn_skipn.
      f_equal. subst s1. rewrite set_trace_set_trace. f_equal.
      cbn [trace set_trace]. rewrite <- app_assoc. f_equal.
      cbn [app]. f_equal.
      rewrite length_skipn.
      rewrite (ceilDiv_step (length rest) maxKeys Hpos E).
      pose proof (ceilDiv_pos (length rest - maxKeys) maxKeys Hpos
                    ltac:(lia)) as Hc.
      destruct (ceilDiv (length rest - maxKeys) maxKeys) as [|c]; [lia|].
      cbn [Nat.sub]. rewrite Nat.sub_0_r.
      cbn [seq map]. cbn [tokenStart].
      f_equal; [do 2 f_equal; lia|].
      rewrite <- (seq_shift c 1), map_map.
      apply map_ext. intros i. do 2 f_equal. lia.
    + intros n t. subst s1. cbn [faults set_trace]. apply Hf.
    + cbv zeta. rewrite Hrest. rewrite length_skipn. lia.
  - apply Nat.ltb_ge in E.
    rewrite firstn_all2 by exact E.
    pose proof (ceilDiv_small (length rest) maxKeys Hpos E) as Hc.
    replace (ceilDiv (length rest) maxKeys - 1) with 0 by lia.
    reflexivity.
Qed.

(** X6.  When no list request is rejected, [getR2KeysWithPrefix] adds
    every key under the prefix to the set, in bucket order, and issues
    max(1, ceil(n / 1000)) list requests for the [n] keys under the
    prefix: the first without a continuation token, each next one with
    the token of the previous answer; nothing else changes. *)
Theorem X6_listing_pages :
  forall prefix mediaKeys s,
    (forall n t, faults s n (ListObjectsV2 prefix t) = None) ->
    let under := filter (fun k => startsWith k prefix) (bucket s) in
    getR2KeysWithPrefix prefix mediaKeys s
    = (Returned (JsSet.addAll mediaKeys under),
       set_trace (trace s ++ listRequests prefix 1000 (length under)) s)
    /\ length (listRequests prefix 1000 (length under))
       = Nat.max 1 (ceilDiv (length under) 1000).
Proof.
  intros prefix mediaKeys s Hf under. split.
  - unfold getR2KeysWithPrefix, bind, get.
    assert (Hpos : 0 < MaxKeys) by (unfold MaxKeys; lia).
    rewrite (getR2KeysLoop_requests MaxKeys prefix Hpos _ None mediaKeys s Hf).
    + cbn [tokenStart skipn]. fold under. f_equal. f_equal. f_equal.
      unfold listRequests.
      assert (Hm : Nat.max 1 (ceilDiv (length under) 1000)
                   = S (ceilDiv (length under) MaxKeys - 1)).
      { unfold MaxKeys. lia. }
      rewrite Hm. cbn [seq map Nat.eqb]. f_equal.
      apply map_ext_in. intros i Hi. apply in_seq in Hi.
      destruct i as [|i]; [lia|]. reflexivity.
    + cbn [tokenStart skipn].
      pose proof (filter_length_le (fun k => startsWith k prefix) (bucket s)).
      lia.
  - unfold listRequests. rewrite length_map, length_seq. reflexivity.
Qed.

(** 1001 gallery keys: two requests, the second from offset 1000. *)
Lemma X6_listing_pages_witness :
  trace (snd (getR2KeysWithPrefix PRODUCT_IMAGE_PREFIX JsSet.empty
                (overBatch noFaults)))
  = [ListObjectsV2 PRODUCT_IMAGE_PREFIX None;
     ListObjectsV2 PRODUCT_IMAGE_PREFIX (Some 1000)].
Proof.
  destruct (X6_listing_pages PRODUCT_IMAGE_PREFIX JsSet.empty
              (overBatch noFaults)) as [H _].
  - intros n t. reflexivity.
  - rewrite H. vm_compute. reflexivity.
Defined.

(* ================================================================== *)
(** * The two jobs do not interfere *)

#[global] Instance mediaSide_preorder : PreOrder mediaSide.
Proof.
  split.
  - intros s; repeat split; reflexivity.
  - intros a b c H1 H2. unfold mediaSide in *.
    repeat match goal with H : _ /\ _ |- _ => destruct H end.
    repeat split; congruence.
Qed.

#[global] Instance tempSide_preorder : PreOrder tempSide.
Proof.
  split.
  - intros s; repeat split; reflexivity.
  - intros a b c H1 H2. unfold tempSide in *.
    repeat match goal with H : _ /\ _ |- _ => destruct H end.
    repeat split; congruence.
Qed.

Lemma mediaSide_cleanupOldTempFiles : stable mediaSide cleanupOldTempFiles.
Proof.
  unfold cleanupOldTempFiles.
  sapply stable_bind; [sapply stable_get|]. intros running.
  sapply stable_if; [sapply stable_ret|].
  sapply stable_tryFinally; [|intros s; repeat split; reflexivity].
  sapply stable_tryCatch; [|intros; sapply stable_ret].
  unfold cleanupOldTempFiles_body.
  sapply stable_bind.
  { sapply stable_modify. intros s; repeat split; reflexivity. }
  intros _. sapply stable_cleanupOldTempFiles_steps.
  - intros c s. repeat split; reflexivity.
  - intros d s. repeat split; reflexivity.
Qed.

Lemma tempSide_cleanupMediaFiles : stable tempSide cleanupMediaFiles.
Proof.
  assert (Hlogs : forall c, logs tempSide c)
    by (intros c s; repeat split; reflexivity).
  unfold cleanupMediaFiles.
  sapply stable_bind; [sapply stable_get|]. intros running.
  sapply stable_if; [sapply stable_ret|].
  sapply stable_tryFinally; [|intros s; repeat split; reflexivity].
  sapply stable_tryCatch; [|intros; sapply stable_ret].
  unfold cleanupMediaFiles_body.
  sapply stable_bind.
  { sapply stable_modify. intros s; repeat split; reflexivity. }
  intros _. unfold cleanupMediaFiles_steps.
  sapply stable_bind.
  { sapply stable_getMediaKeysFromDatabase; apply Hlogs. }
  intros dbKeys. sapply stable_bind.
  { sapply stable_getMediaKeysFromR2; intros; apply Hlogs. }
  intros r2Keys. sapply stable_bind.
  { sapply stable_deleteOrphanedR2Files. intros i j.
    sapply stable_call_modify; [apply Hlogs|].
    intros s; repeat split; reflexivity. }
  intros _. sapply stable_bind; [|intros; sapply stable_ret].
  sapply stable_cleanupDanglingDatabaseReferences; intros p;
    (sapply stable_call_modify; [apply Hlogs|]); intros s;
    repeat split; reflexivity.
Qed.

(** X7.  The two jobs do not interfere.  Whatever fails, and whether
    or not either job is marked as running, a temp-file cleanup leaves
    the bucket, both collections and the media job's running flag as
    they were, and a media reconciliation leaves the staging directory
    and the temp job's running flag as they were. *)
Theorem X7_jobs_do_not_interfere :
  forall s,
    mediaSide s (snd (cleanupOldTempFiles s))
    /\ tempSide s (snd (cleanupMediaFiles s)).
Proof.
  intros s. split.
  - destruct (cleanupOldTempFiles s) as [o s'] eqn:E.
    exact (mediaSide_cleanupOldTempFiles s o s' E).
  - destruct (cleanupMediaFiles s) as [o s'] eqn:E.
    exact (tempSide_cleanupMediaFiles s o s' E).
Qed.

(* ================================================================== *)
(** * The count a temp cleanup reports *)

Lemma length_withoutFile file es e :
  NoDup (map name es) ->
  findEntry file es = Some e ->
  S (length (withoutFile file es)) = length es.
Proof.
  unfold withoutFile, findEntry.
  induction es as [|x es IH]; intros Hnd Hf; [discriminate|].
  cbn [map] in Hnd. inversion Hnd as [|? ? Hx Hnd']; subst.
  cbn [find filter] in *.
  destruct (String.eqb_spec (name x) file) as [Heq|Hne]; cbn [negb length].
  - f_equal. clear IH Hf.
    assert (Hall : forall y, In y es -> name y <> file).
    { intros y Hy E. apply Hx. rewrite Heq, <- E. apply in_map, Hy. }
    clear Hx Hnd Hnd'. induction es as [|y es IH]; [reflexivity|].
    cbn [filter].
    destruct (String.eqb_spec (name y) file) as [E|E].
    + exfalso. apply (Hall y); [left; reflexivity | exact E].
    + cbn [negb length]. f_equal. apply IH.
      intros z Hz. apply Hall. right. exact Hz.
  - f_equal. apply IH; assumption.
Qed.

(** One iteration: the count goes up by one exactly when an entry
    leaves the directory. *)
Lemma processTempItem_count now_ file acc s es :
  tempDir s = Some es ->
  NoDup (map name es) ->
  exists acc' s' es',
    processTempItem now_ file acc s = (Returned acc', s')
    /\ tempDir s' = Some es'
    /\ NoDup (map name es')
    /\ (forall e, In e es' -> In e es)
    /\ length es' + filesDeleted acc' = length es + filesDeleted acc.
Proof.
  intros Hd Hnd.
  assert (Hsame : forall acc' s',
             tempDir s' = Some es -> filesDeleted acc' = filesDeleted acc ->
             tempDir s' = Some es /\ NoDup (map name es)
             /\ (forall e, In e es -> In e es)
             /\ length es + filesDeleted acc' = length es + filesDeleted acc).
  { intros acc' s' H1 H2. rewrite H2. auto. }
  unfold processTempItem, tryCatch, bind at 1.
  unfold fs_statSync, bind, call, get.
  destruct (faults s (length (trace s)) (FsStat file)).
  { do 2 eexists. exists es. split; [reflexivity|].
    apply Hsame; [exact Hd | reflexivity]. }
  cbn [tempDir set_trace]. rewrite Hd.
  destruct (findEntry file es) as [e|] eqn:Ef.
  2:{ do 2 eexists. exists es. split; [reflexivity|].
      apply Hsame; [exact Hd | reflexivity]. }
  unfold ret at 1. cbv beta iota.
  destruct (gtNumber _ _).
  2:{ do 2 eexists. exists es. split; [reflexivity|].
      apply Hsame; [exact Hd | reflexivity]. }
  destruct (ekind e) eqn:Ek.
  2,3: do 2 eexists; exists es; (split; [reflexivity|]);
       apply Hsame; [exact Hd | reflexivity].
  unfold fs_unlinkSync, tryCatch, bind, call, get.
  cbn [trace faults tempDir set_trace].
  destruct (faults s (length (trace s ++ [FsStat file])) (FsUnlink file)).
  { do 2 eexists. exists es. split; [reflexivity|].
    apply Hsame; [exact Hd | reflexivity]. }
  cbn [tempDir set_trace]. rewrite Hd, Ef, Ek. unfold modify, ret.
  do 2 eexists. exists (withoutFile file es). split; [reflexivity|].
  split; [reflexivity|].
  split; [apply NoDup_withoutFile, Hnd|].
  split; [intros x Hx; apply In_withoutFile in Hx; tauto|].
  cbn [filesDeleted].
  pose proof (length_withoutFile file es e Hnd Ef). lia.
Qed.

Lemma processTempFiles_count now_ :
  forall files acc s es,
    tempDir s = Some es ->
    NoDup (map name es) ->
    exists acc' s' es',
      processTempFiles now_ files acc s = (Returned acc', s')
      /\ tempDir s' = Some es'
      /\ (forall e, In e es' -> In e es)
      /\ length es' + filesDeleted acc' = length es + filesDeleted acc.
Proof.
  induction files as [|file rest IH]; intros acc s es Hd Hnd.
  - exists acc, s, es. simpl. auto.
  - cbn [processTempFiles]. unfold bind.
    destruct (processTempItem_count now_ file acc s es Hd Hnd)
      as (acc1 & s1 & es1 & Hrun & Hd1 & Hnd1 & Hin1 & Hc1).
    rewrite Hrun.
    destruct (IH acc1 s1 es1 Hd1 Hnd1)
      as (acc' & s' & es' & Hrun' & Hd' & Hin' & Hc').
    exists acc', s', es'. split; [exact Hrun'|]. split; [exact Hd'|].
    split; [auto | lia].
Qed.

Lemma cleanupOldTempFiles_steps_count s es :
  tempDir s = Some es ->
  NoDup (map name es) ->
  exists o s' es',
    cleanupOldTempFiles_steps s = (o, s')
    /\ o <> OutOfFuel
    /\ tempDir s' = Some es'
    /\ (forall e, In e es' -> In e es)
    /\ length es'
       + filesDeleted (match o with Returned r => r | _ => zeroTemp end)
       = length es.
Proof.
  intros Hd Hnd.
  unfold cleanupOldTempFiles_steps, fs_existsSync, fs_readdirSync, record.
  unfold bind, call, get, ret, modify.
  cbv beta iota. cbn [tempDir set_trace trace faults negb].
  rewrite Hd. cbv beta iota. cbn [tempDir set_trace trace faults negb].
  destruct (faults s (length (trace s ++ [FsExists])) FsReaddir)
    as [e0|] eqn:E2.
  { do 2 eexists. exists es. split; [reflexivity|]. cbn.
    repeat split; auto; discriminate. }
  cbv beta iota. cbn [tempDir set_trace trace faults negb].
  rewrite Hd. cbv beta iota.
  destruct (length (map name es) =? 0) eqn:El.
  { do 2 eexists. exists es. split; [reflexivity|]. cbn.
    repeat split; auto; discriminate. }
  cbn [now set_trace].
  match goal with
  | |- context [processTempFiles ?n ?f ?a ?st] =>
      destruct (processTempFiles_count n f a st es Hd Hnd)
        as (acc' & s' & es' & Hrun & Hd' & Hincl & Hc)
  end.
  exists (Returned acc'), s', es'. split; [exact Hrun|].
  split; [discriminate|]. split; [exact Hd'|]. split; [exact Hincl|].
  cbn [filesDeleted zeroTemp] in Hc. lia.
Qed.

(** X8.  Whatever file-system call fails, and whether or not a run is
    in progress, [filesDeleted] is the number of entries that left
    the staging directory during the run, and no entry is added or
    altered; a missing directory gives zero counts. *)
Theorem X8_filesDeleted_counts_removed_entries :
  forall s,
    (forall es,
        tempDir s = Some es ->
        NoDup (map name es) ->
        exists r es',
          fst (cleanupOldTempFiles s) = Returned r
          /\ tempDir (snd (cleanupOldTempFiles s)) = Some es'
          /\ (forall e, In e es' -> In e es)
          /\ length es' + filesDeleted r = length es)
    /\ (tempDir s = None ->
        fst (cleanupOldTempFiles s) = Returned zeroTemp).
Proof.
  intros s. split.
  - intros es Hd Hnd.
    destruct (isTempCleanupRunning s) eqn:Hrun.
    + rewrite (cleanupOldTempFiles_busy s Hrun). cbn [fst snd].
      exists zeroTemp, es. cbn. repeat split; auto.
    + destruct (cleanupOldTempFiles_idle s Hrun)
        as (o & s1 & Hsteps & _ & _ & E).
      rewrite E. cbn [fst snd].
      destruct (cleanupOldTempFiles_steps_count
                  (set_isTempCleanupRunning true s) es Hd Hnd)
        as (o' & s1' & es' & Hsteps' & _ & Hd' & Hin & Hc).
      rewrite Hsteps in Hsteps'. inversion Hsteps'; subst o' s1'.
      eexists. exists es'. split; [reflexivity|].
      split; [exact Hd'|]. split; [exact Hin | exact Hc].
  - intros Hd.
    destruct (isTempCleanupRunning s) eqn:Hrun.
    + rewrite (cleanupOldTempFiles_busy s Hrun). reflexivity.
    + destruct (cleanupOldTempFiles_idle s Hrun)
        as (o & s1 & Hsteps & _ & _ & E).
      rewrite E. cbn [fst]. f_equal.
      revert Hsteps.
      unfold cleanupOldTempFiles_steps, fs_existsSync, fs_mkdirSync, record.
      unfold bind, call, get, ret, modify.
      cbv beta iota. cbn [tempDir set_trace trace faults negb
                          set_isTempCleanupRunning].
      rewrite Hd. cbv beta iota.
      cbn [negb]. cbv beta.
      match goal with
      | |- context [faults ?a ?b FsMkdir] => destruct (faults a b FsMkdir)
      end; intros H; inversion H; reflexivity.
Qed.

(** The staging directory of the scenarios: one of its three entries
    is an old regular file, and one file is counted. *)
Lemma X8_filesDeleted_counts_removed_entries_witness :
  exists r es',
    fst (cleanupOldTempFiles staging) = Returned r
    /\ tempDir (snd (cleanupOldTempFiles staging)) = Some es'
    /\ (forall e, In e es' -> In e [oldUpload; oldDirectory; recentUpload])
    /\ length es' + filesDeleted r = 3.
Proof.
  destruct (X8_filesDeleted_counts_removed_entries staging) as [H _].
  apply (H [oldUpload; oldDirectory; recentUpload]).
  - reflexivity.
  - repeat constructor; simpl; intuition discriminate.
Defined.

(* ================================================================== *)
(** * The admin endpoints never fail *)

Lemma cleanupMediaFiles_returns s :
  exists result, fst (cleanupMediaFiles s) = Returned result.
Proof.
  destruct (isCleanupRunning s) eqn:Hrun.
  - rewrite (cleanupMediaFiles_busy s Hrun). eexists. reflexivity.
  - destruct (cleanupMediaFiles_idle s Hrun) as (o & s1 & _ & _ & _ & E).
    rewrite E. eexists. reflexivity.
Qed.

Lemma cleanupOldTempFiles_returns s :
  exists result, fst (cleanupOldTempFiles s) = Returned result.
Proof.
  destruct (isTempCleanupRunning s) eqn:Hrun.
  - rewrite (cleanupOldTempFiles_busy s Hrun). eexists. reflexivity.
  - destruct (cleanupOldTempFiles_idle s Hrun) as (o & s1 & _ & _ & _ & E).
    rewrite E. eexists. reflexivity.
Qed.

Lemma cleanupMediaFiles_disconnected s :
  readyState s <> 1 -> fst (cleanupMediaFiles s) = Returned zeroMedia.
Proof.
  intros Hrs. destruct (isCleanupRunning s) eqn:Hrun.
  - rewrite (cleanupMediaFiles_busy s Hrun). reflexivity.
  - destruct (snapshot_failure_aborts s Hrun) as (t & E & _).
    + left. unfold getMediaKeysFromDatabase.
      rewrite executeDbOperation_disconnected by exact Hrs.
      eexists. eexists. reflexivity.
    + rewrite E. reflexivity.
Qed.

(** X9.  The two admin endpoints never hand an error to the error
    handler: for every state and whatever fails inside the job, each
    answers 200 with [success: true] and the counts the job returned.
    In particular, with the database disconnected [cleanupMedia]
    answers "Media cleanup completed successfully" with both counts
    zero. *)
Theorem X9_cleanup_endpoints_always_answer_200 :
  forall s,
    (exists result,
        fst (cleanupMediaFiles s) = Returned result
        /\ cleanupMedia s
           = (Returned
                (mkHttpResponse 200
                   (successResponse "Media cleanup completed successfully"
                      (Some
                         [("orphanedFilesRemoved",
                           JNumber (Z.of_nat (orphanedR2Files result)));
                          ("danglingReferencesFixed",
                           JNumber
                             (Z.of_nat (danglingSavedReferences result)))])
                      None)),
              snd (cleanupMediaFiles s)))
    /\ (exists result,
           fst (cleanupOldTempFiles s) = Returned result
           /\ cleanupTempFiles_handler s
              = (Returned
                   (mkHttpResponse 200
                      (successResponse
                         "Temporary file cleanup completed successfully"
                         (Some
                            [("filesDeleted",
                              JNumber (Z.of_nat (filesDeleted result)));
                             ("sizeFreed",
                              JString
                                (numberToString (roundKB (totalSize result))
                                 ++ " KB"))])
                         None)),
                 snd (cleanupOldTempFiles s)))
    /\ (readyState s <> 1 ->
        fst (cleanupMedia s)
        = Returned
            (mkHttpResponse 200
               (successResponse "Media cleanup completed successfully"
                  nothingCleaned None))).
Proof.
  intros s. split; [|split].
  - destruct (cleanupMediaFiles_returns s) as (result & Hr).
    exists result. split; [exact Hr|].
    unfold cleanupMedia, runMediaCleanupManually, bind, ret.
    destruct (cleanupMediaFiles s) as [o s']. cbn [fst] in Hr. subst o.
    reflexivity.
  - destruct (cleanupOldTempFiles_returns s) as (result & Hr).
    exists result. split; [exact Hr|].
    unfold cleanupTempFiles_handler, runTempFileCleanupManually, bind, ret.
    destruct (cleanupOldTempFiles s) as [o s']. cbn [fst] in Hr. subst o.
    reflexivity.
  - intros Hrs. pose proof (cleanupMediaFiles_disconnected s Hrs) as Hz.
    unfold cleanupMedia, runMediaCleanupManually, bind, ret.
    destruct (cleanupMediaFiles s) as [o s']. cbn [fst] in Hz. subst o.
    reflexivity.
Qed.

(** Scenario A with the database connection down. *)
Lemma X9_cleanup_endpoints_always_answer_200_witness :
  fst (cleanupMedia
         (mkState [K1; K2] [mkProduct (Some K1) []] [] 0 None 0 []
                  noFaults false false))
  = Returned
      (mkHttpResponse 200
         (successResponse "Media cleanup completed successfully"
            nothingCleaned None)).
Proof.
  apply (X9_cleanup_endpoints_always_answer_200
           (mkState [K1; K2] [mkProduct (Some K1) []] [] 0 None 0 []
                    noFaults false false)).
  simpl. discriminate.
Defined.

(* ================================================================== *)
(** * The error handler *)

(** X10.  [errorMiddleware] sends exactly one response, except for an
    error named "NotBeforeError": its branch lacks the [return], so the
    401 "Token not active" is followed by a second response.  Every
    response has [success: false], and outside the development
    environment no response carries metadata (no stack trace and no
    raw error message). *)
Theorem X10_errorMiddleware_responses :
  forall NODE_ENV name stack error,
    let sent := errorMiddleware NODE_ENV name stack error in
    (name <> "NotBeforeError" -> length sent = 1)
    /\ (name = "NotBeforeError" ->
        exists second,
          sent = [mkHttpResponse 401
                    (errorResponse "Token not active" None);
                  second])
    /\ Forall (fun r => success (body r) = false) sent
    /\ (NODE_ENV <> "development" ->
        Forall (fun r => metadata (body r) = None) sent)
    /\ (name <> "JsonWebTokenError" -> name <> "TokenExpiredError" ->
        name <> "NotBeforeError" -> isAppError error = false ->
        sent = [mkHttpResponse 500
                  (errorResponse "Something went wrong"
                     (if String.eqb NODE_ENV "development"
                      then Some [("message", JString (message error));
                                    ("stack", JString stack)]
                      else None))]).
Proof.
  intros NODE_ENV name stack error sent. subst sent.
  unfold errorMiddleware.
  split; [|split; [|split; [|split]]].
  - intros Hn. apply String.eqb_neq in Hn. rewrite Hn.
    destruct (name =? "JsonWebTokenError")%string; [reflexivity|].
    destruct (name =? "TokenExpiredError")%string; [reflexivity|].
    destruct (isAppError error); reflexivity.
  - intros ->. cbn [String.eqb Ascii.eqb Bool.eqb andb].
    destruct (isAppError error); eexists; reflexivity.
  - destruct (name =? "JsonWebTokenError")%string;
      [repeat constructor|].
    destruct (name =? "TokenExpiredError")%string;
      [repeat constructor|].
    destruct (name =? "NotBeforeError")%string;
      destruct (isAppError error); repeat constructor.
  - intros He. apply String.eqb_neq in He. rewrite He.
    destruct (name =? "JsonWebTokenError")%string;
      [repeat constructor|].
    destruct (name =? "TokenExpiredError")%string;
      [repeat constructor|].
    destruct (name =? "NotBeforeError")%string;
      destruct (isAppError error); repeat constructor.
  - intros H1 H2 H3 Happ.
    apply String.eqb_neq in H1, H2, H3. rewrite H1, H2, H3, Happ.
    reflexivity.
Qed.

(** A token that is not active yet, in production: two responses. *)
Lemma X10_errorMiddleware_responses_witness :
  errorMiddleware "production" "NotBeforeError" ""
    (mkError KOther "jwt not active" 0 0 [] None)
  = [mkHttpResponse 401 (errorResponse "Token not active" None);
     mkHttpResponse 500 (errorResponse "Something went wrong" None)]
  /\ length (errorMiddleware "production" "TypeError" ""
               (mkError KOther "x is undefined" 0 0 [] None)) = 1.
Proof.
  split.
  - destruct (X10_errorMiddleware_responses "production" "NotBeforeError" ""
                (mkError KOther "jwt not active" 0 0 [] None))
      as (_ & H & _).
    destruct (H eq_refl) as (second & E). rewrite E.
    revert E. vm_compute. intros E. inversion E. reflexivity.
  - apply (X10_errorMiddleware_responses "production" "TypeError" ""
             (mkError KOther "x is undefined" 0 0 [] None)).
    discriminate.
Defined.

(** X11.  How the error handler answers an error that leaves
    [executeDbOperation].  Unless the operation failed with a
    duplicate-key error that carries no [keyValue], the error is
    answered with its own status code and message, in exactly one
    response, not with the generic 500: the classes
    [executeDbOperation] throws do not override [name], so
    [error.name] is "Error".  After such a duplicate-key error the
    [TypeError] of the [catch] block is answered with the generic 500
    "Something went wrong". *)
Theorem X11_database_errors_answered :
  forall (A : Type) (operation : M A) s e s' NODE_ENV stack,
    executeDbOperation operation s = (Thrown e, s') ->
    ((forall e0 s0, operation s = (Thrown e0, s0) ->
                    lacksKeyValue e0 = false) ->
     errorMiddleware NODE_ENV "Error" stack e
     = [mkHttpResponse (statusCode e)
          (errorResponse (message e)
             (if String.eqb NODE_ENV "development"
              then Some [("stack", JString stack)]
              else None))])
    /\ (readyState s = 1 ->
        (exists e0 s0, operation s = (Thrown e0, s0)
                       /\ lacksKeyValue e0 = true) ->
        errorMiddleware NODE_ENV "TypeError" stack e
        = [mkHttpResponse 500
             (errorResponse "Something went wrong"
                (if String.eqb NODE_ENV "development"
                 then Some [("message",
                             JString
                               "Cannot convert undefined or null to object");
                            ("stack", JString stack)]
                 else None))]).
Proof.
  intros A operation s e s' NODE_ENV stack H. split.
  - intros Hkv.
    assert (Happ : isAppError e = true).
    { destruct (Nat.eq_dec (readyState s) 1) as [Hrs|Hrs].
      - rewrite (executeDbOperation_connected operation s Hrs) in H.
        destruct (operation s) as [[a|e0|] s0] eqn:Hop; try discriminate.
        inversion H. apply isAppError_classifyDbError.
        apply (Hkv e0 s0). reflexivity.
      - rewrite (executeDbOperation_disconnected operation s Hrs) in H.
        inversion H. reflexivity. }
    unfold errorMiddleware. rewrite Happ. reflexivity.
  - intros Hrs (e0 & s0 & Hop & Hkv).
    rewrite (executeDbOperation_connected operation s Hrs) in H.
    rewrite Hop in H. inversion H.
    rewrite (classifyDbError_lacksKeyValue e0 Hkv). reflexivity.
Qed.

(** A cast error of the driver reaches the client as a 400. *)
Lemma X11_database_errors_answered_witness :
  errorMiddleware "production" "Error" ""
    (BadRequestError "Invalid _id: 12")
  = [mkHttpResponse 400
       (errorResponse "Invalid _id: 12" None)].
Proof.
  assert (H : @executeDbOperation unit
                 (failingWith (mkError KCastError "Cast to ObjectId failed"
                                       0 0 ["_id"; "12"] None))
                 scenarioA
               = (Thrown (BadRequestError "Invalid _id: 12"),
                  set_trace [ProductFind] scenarioA))
    by (vm_compute; reflexivity).
  apply (proj1 (X11_database_errors_answered unit _ _ _ _
                  "production" "" H)).
  intros e0 s0 Hop. vm_compute in Hop. inversion Hop. reflexivity.
Defined.

(* ================================================================== *)
(** * The recent-views job *)

Section RecentViewsFacts.
Import Any RecentViews.

Lemma list_sum_cons (x : nat) (l : list nat) :
  list_sum (x :: l) = x + list_sum l.
Proof. reflexivity. Qed.

Lemma updateOne_step id v now :
  forall ps,
    NoDup (map _id ps) ->
    updateOne id v now ps
    = (map (fun p => step now p (UpdateOne id v)) ps,
       list_sum (map (changed now (UpdateOne id v)) ps)).
Proof.
  induction ps as [|p ps IH]; intros Hnd; [reflexivity|].
  cbn [map] in Hnd. inversion Hnd as [|? ? Hp Hnd']; subst.
  cbn [updateOne map]. rewrite list_sum_cons. unfold step at 1, changed at 1.
  cbn [matches value].
  destruct (String.eqb_spec (_id p) id) as [E|E].
  - assert (Hrest : forall l, ~ In id (map _id l) ->
                 map (fun q => step now q (UpdateOne id v)) l = l
                 /\ list_sum (map (changed now (UpdateOne id v)) l) = 0).
    { induction l as [|q l IHl]; intros Hq; [split; reflexivity|].
      cbn [map]. rewrite list_sum_cons. unfold step at 1, changed at 1.
      cbn [matches].
      destruct (String.eqb_spec (_id q) id) as [Eq|Eq].
      - exfalso. apply Hq. left. exact Eq.
      - destruct IHl as [H1 H2]; [intros H; apply Hq; right; exact H|].
        rewrite H1, H2. split; reflexivity. }
    rewrite E in Hp. destruct (Hrest ps Hp) as [H1 H2].
    rewrite H1, H2. f_equal. lia.
  - rewrite (IH Hnd'). reflexivity.
Qed.

Lemma updateManyNin_step ids v now :
  forall ps,
    updateManyNin ids v now ps
    = (map (fun p => step now p (UpdateManyNin ids v)) ps,
       list_sum (map (changed now (UpdateManyNin ids v)) ps)).
Proof.
  induction ps as [|p ps IH]; [reflexivity|].
  cbn [updateManyNin map]. rewrite list_sum_cons, IH.
  unfold step, changed. cbn [matches value].
  destruct (negb (inKeys ids (_id p))); reflexivity.
Qed.

Lemma _id_step now p op : _id (step now p op) = _id p.
Proof. unfold step. destruct (matches op p); reflexivity. Qed.

Lemma list_sum_map_add {A} (f g : A -> nat) (l : list A) :
  list_sum (map f l) + list_sum (map g l)
  = list_sum (map (fun x => f x + g x) l).
Proof.
  induction l as [|x l IH]; [reflexivity|].
  cbn [map]. rewrite !list_sum_cons. lia.
Qed.

Lemma list_sum_zero {A} (l : list A) :
  list_sum (map (fun _ : A => 0) l) = 0.
Proof. induction l as [|x l IH]; [reflexivity | exact IH]. Qed.

(** A bulk write on documents with distinct ids, document by
    document. *)
Lemma bulkWrite_pointwise now :
  forall ops ps n,
    NoDup (map _id ps) ->
    fold_left (applyOp now) ops (ps, n)
    = (map (steps now ops) ps, n + list_sum (map (changes now ops) ps)).
Proof.
  induction ops as [|op ops IH]; intros ps n Hnd.
  - cbn [fold_left]. unfold steps. cbn [fold_left].
    rewrite map_id. f_equal.
    change (changes now []) with (fun _ : Product => 0).
    rewrite list_sum_zero. lia.
  - cbn [fold_left].
    assert (Hop : applyOp now (ps, n) op
                  = (map (fun p => step now p op) ps,
                     n + list_sum (map (changed now op) ps))).
    { unfold applyOp. cbn [fst snd].
      destruct op as [id v|ids v].
      - rewrite (updateOne_step id v now ps Hnd). reflexivity.
      - rewrite (updateManyNin_step ids v now ps). reflexivity. }
    rewrite Hop. rewrite IH.
    + rewrite !map_map. f_equal.
      rewrite <- Nat.add_assoc. f_equal.
      rewrite list_sum_map_add. reflexivity.
    + rewrite map_map.
      erewrite map_ext; [exact Hnd|]. intros p. apply _id_step.
Qed.

Lemma steps_app now a b p :
  steps now (a ++ b) p = steps now b (steps now a p).
Proof. unfold steps. apply fold_left_app. Qed.

Lemma changes_app now a :
  forall b p,
    changes now (a ++ b) p = changes now a p + changes now b (steps now a p).
Proof.
  induction a as [|op a IH]; intros b p; [reflexivity|].
  cbn [app changes]. rewrite IH. unfold steps. cbn [fold_left]. lia.
Qed.

(** The [updateOne] operations of rows with distinct ids, on one
    document. *)
Lemma rows_pointwise now :
  forall rows p,
    NoDup (map fst rows) ->
    let ops := map (fun item => UpdateOne (fst item) (snd item)) rows in
    (~ In (_id p) (map fst rows) ->
     steps now ops p = p /\ changes now ops p = 0)
    /\ (forall n, In (_id p, n) rows ->
                  steps now ops p = stamped n now p
                  /\ changes now ops p = modified n now p).
Proof.
  induction rows as [|[id v] rows IH]; intros p Hnd ops.
  - split; [intros _; split; reflexivity | intros n []].
  - cbn [map fst] in Hnd. inversion Hnd as [|? ? Hid Hnd']; subst.
    subst ops. cbn [map fst snd]. unfold steps. cbn [fold_left changes].
    fold (steps now (map (fun item => UpdateOne (fst item) (snd item)) rows)
                (step now p (UpdateOne id v))).
    unfold step, changed. cbn [matches value].
    destruct (String.eqb_spec (_id p) id) as [E|E].
    + (* this row is the document's *)
      assert (Hq : ~ In (_id (stamped v now p)) (map fst rows))
        by (cbn [_id stamped]; rewrite E; exact Hid).
      destruct (IH (stamped v now p) Hnd') as [H0 _].
      destruct (H0 Hq) as [Hs Hc]. cbv zeta in Hs, Hc.
      split.
      * intros Hno. exfalso. apply Hno. left. cbn. symmetry. exact E.
      * intros n [Hin|Hin].
        -- inversion Hin; subst n. rewrite Hs, Hc.
           split; [reflexivity | lia].
        -- exfalso. apply Hid. rewrite <- E.
           change (_id p) with (fst (_id p, n)). apply in_map, Hin.
    + destruct (IH p Hnd') as [H0 H1]. cbv zeta in H0, H1. split.
      * intros Hno. apply H0. intros H. apply Hno. right. exact H.
      * intros n [Hin|Hin]; [inversion Hin; congruence|].
        apply H1, Hin.
Qed.

Lemma filter_filter_and {A} (f g : A -> bool) (l : list A) :
  filter f (filter g l) = filter (fun x => f x && g x) l.
Proof.
  induction l as [|x l IH]; [reflexivity|].
  cbn [filter]. destruct (g x); cbn [filter].
  - destruct (f x); cbn [andb]; [f_equal|]; exact IH.
  - rewrite andb_false_r. exact IH.
Qed.

(** The rows of the aggregation. *)
Lemma aggregate_rows views since :
  let matching := filter (fun v => (since <=? timestamp v)%Z) views in
  let ids := JsSet.addAll JsSet.empty (map productId matching) in
  let rows :=
    map (fun id =>
           (id, length (filter (fun v => String.eqb (productId v) id)
                               matching))) ids in
  NoDup (map fst rows)
  /\ (forall id, In id (map fst rows) <-> 0 < recentCount views since id)
  /\ (forall id n, In (id, n) rows -> n = recentCount views since id).
Proof.
  intros matching ids rows.
  assert (Hfst : map fst rows = ids).
  { subst rows. rewrite map_map. cbn [fst]. apply map_id. }
  assert (Hcount : forall id,
             length (filter (fun v => String.eqb (productId v) id) matching)
             = recentCount views since id).
  { intros id. unfold recentCount. subst matching. f_equal.
    apply filter_filter_and. }
  split; [|split].
  - rewrite Hfst. subst ids. apply NoDup_JsSet_addAll. constructor.
  - intros id. rewrite Hfst. subst ids. rewrite In_JsSet_addAll.
    rewrite <- Hcount. split.
    + intros [[]|H]. apply in_map_iff in H. destruct H as (v & Hv & Hin).
      assert (Hf : In v (filter (fun v => String.eqb (productId v) id)
                                matching)).
      { apply filter_In. split; [exact Hin|]. rewrite Hv.
        apply String.eqb_refl. }
      destruct (filter _ matching); [destruct Hf | cbn; lia].
    + intros H. right.
      destruct (filter (fun v => String.eqb (productId v) id) matching)
        as [|v l] eqn:E; [cbn in H; lia|].
      assert (Hf : In v (filter (fun v => String.eqb (productId v) id)
                                matching)) by (rewrite E; left; reflexivity).
      apply filter_In in Hf. destruct Hf as [Hin Hv].
      apply String.eqb_eq in Hv. rewrite <- Hv. apply in_map, Hin.
  - intros id n Hin. subst rows. apply in_map_iff in Hin.
    destruct Hin as (x & Hx & _). inversion Hx; subst. apply Hcount.
Qed.

(** The whole bulk write of the job, on one document: exactly one of
    its operations matches it. *)
Lemma job_pointwise views since now p :
  let matching := filter (fun v => (since <=? timestamp v)%Z) views in
  let ids := JsSet.addAll JsSet.empty (map productId matching) in
  let rows :=
    map (fun id =>
           (id, length (filter (fun v => String.eqb (productId v) id)
                               matching))) ids in
  let ops := map (fun item => UpdateOne (fst item) (snd item)) rows
             ++ [UpdateManyNin (map fst rows) 0] in
  steps now ops p = stamped (recentCount views since (_id p)) now p
  /\ changes now ops p = modified (recentCount views since (_id p)) now p.
Proof.
  intros matching ids rows ops.
  destruct (aggregate_rows views since) as (Hnd & Hin & Hn).
  fold matching ids rows in Hnd, Hin, Hn.
  destruct (rows_pointwise now rows p Hnd) as [H0 H1]. cbv zeta in H0, H1.
  subst ops. rewrite steps_app, changes_app.
  destruct (in_dec string_dec (_id p) (map fst rows)) as [Hi|Hi].
  - assert (Hex : exists n, In (_id p, n) rows).
    { apply in_map_iff in Hi. destruct Hi as ([id n] & Hid & Hi).
      cbn [fst] in Hid. subst id. exists n. exact Hi. }
    destruct Hex as (n & Hrow).
    destruct (H1 n Hrow) as [Hs Hc]. rewrite Hs, Hc.
    rewrite (Hn _ _ Hrow) in *.
    unfold steps. cbn [fold_left changes]. unfold step, changed.
    cbn [matches _id stamped].
    assert (Hk : inKeys (map fst rows) (_id p) = true)
      by (apply inKeys_In; exact Hi).
    rewrite Hk. cbn [negb]. split; [reflexivity | lia].
  - destruct (H0 Hi) as [Hs Hc]. rewrite Hs, Hc.
    assert (Hz : recentCount views since (_id p) = 0).
    { destruct (recentCount views since (_id p)) eqn:E; [reflexivity|].
      exfalso. apply Hi. apply Hin. lia. }
    rewrite Hz. unfold steps. cbn [fold_left changes]. unfold step, changed.
    cbn [matches value].
    assert (Hk : inKeys (map fst rows) (_id p) = false).
    { destruct (inKeys (map fst rows) (_id p)) eqn:E; [|reflexivity].
      apply inKeys_In in E. contradiction. }
    rewrite Hk. cbn [negb].
    split; [reflexivity | lia].
Qed.

Lemma length_filter_sum {A} (f : A -> bool) (l : list A) :
  length (filter f l) = list_sum (map (fun x => if f x then 1 else 0) l).
Proof.
  induction l as [|x l IH]; [reflexivity|].
  cbn [filter map]. rewrite list_sum_cons.
  destruct (f x); cbn [length]; lia.
Qed.

Lemma updateRecentViews_busy s :
  isUpdateRunning s = true -> updateRecentViews s = (Returned 0, s).
Proof.
  intros H. unfold updateRecentViews, bind, get. rewrite H. reflexivity.
Qed.

(** An idle run, in terms of the service it calls. *)
Lemma updateRecentViews_idle s :
  isUpdateRunning s = false ->
  updateRecentViews s
  = match updateRecentViewsCount (set_isUpdateRunning true s) with
    | (Returned n, s') => (Returned n, set_isUpdateRunning false s')
    | (Thrown _, s') => (Returned 0, set_isUpdateRunning false s')
    | (OutOfFuel, s') => (OutOfFuel, s')
    end.
Proof.
  intros H. unfold updateRecentViews, bind at 1, get. rewrite H.
  unfold tryFinally, tryCatch, bind, modify, ret.
  destruct (updateRecentViewsCount (set_isUpdateRunning true s))
    as [[n|e|] s']; reflexivity.
Qed.

(** The service never runs out of fuel: it has no loop. *)
Lemma updateRecentViewsCount_total s :
  fst (updateRecentViewsCount s) <> OutOfFuel.
Proof.
  unfold updateRecentViewsCount, executeDbOperation, Any.executeDbOperation.
  unfold tryCatch, bind at 1, get at 1.
  destruct (negb (readyState s =? 1)); [discriminate|].
  unfold bind at 1, get at 1. unfold bind at 1.
  unfold ProductView_aggregate, bind at 1, call.
  destruct (faults s (length (trace s)) (ProductViewAggregate (sevenDaysAgo s)));
    [discriminate|].
  unfold bind at 1, get at 1, ret at 1.
  match goal with
  | |- context [if ?b then _ else _] => destruct b
  end; [discriminate|].
  unfold Product_bulkWrite, bind at 1, bind at 1, call.
  match goal with
  | |- context [faults ?s' ?n ?c] => destruct (faults s' n c)
  end; [discriminate|].
  unfold bind, get, modify, ret. discriminate.
Qed.

(** The rows and the operations the service builds from the views. *)
Lemma updateRecentViewsCount_run s :
  readyState s = 1 ->
  (forall n c, faults s n c = None) ->
  let matching :=
    filter (fun v => (sevenDaysAgo s <=? timestamp v)%Z) (productViews s) in
  let ids := JsSet.addAll JsSet.empty (map productId matching) in
  let rows :=
    map (fun id =>
           (id, length (filter (fun v => String.eqb (productId v) id)
                               matching))) ids in
  let ops := map (fun item => UpdateOne (fst item) (snd item)) rows
             ++ [UpdateManyNin (map fst rows) 0] in
  let s1 := set_trace (trace s ++ [ProductViewAggregate (sevenDaysAgo s)]) s in
  updateRecentViewsCount s
  = if length rows =? 0
    then (Returned 0, s1)
    else (Returned (snd (fold_left (applyOp (now s)) ops (products s, 0)) + 0),
          set_products (fst (fold_left (applyOp (now s)) ops (products s, 0)))
            (set_trace (trace s1 ++ [ProductBulkWrite ops]) s1)).
Proof.
  intros Hrs Hf matching ids rows ops s1.
  unfold updateRecentViewsCount, executeDbOperation, Any.executeDbOperation.
  unfold tryCatch, bind at 1, get at 1. rewrite Hrs. cbn [Nat.eqb negb].
  unfold bind at 1, get at 1. unfold bind at 1.
  unfold ProductView_aggregate, bind at 1, call. rewrite Hf.
  unfold bind at 1, get at 1, ret at 1.
  cbn [productViews set_trace]. fold matching. fold ids. fold rows.
  subst s1.
  destruct (length rows =? 0); [reflexivity|].
  unfold Product_bulkWrite, bind at 1, bind at 1, call.
  fold ops. cbn [faults trace set_trace]. rewrite Hf.
  unfold bind, get, modify, ret. cbn [products now set_trace].
  reflexivity.
Qed.

(** X12.  When some view is at most seven days old, an idle run against
    a connected database that accepts both requests sets the counter
    of every product to the number of its views since seven days ago
    (zero for a product without any) and stamps every product with the
    instant of the write, whether or not its counter changed.  The
    number it returns is the number of products the write modified:
    those whose counter was out of date and those last stamped at
    another instant, so, when no product was last stamped at the
    instant of the write, the number of all products.  The run resets
    its flag. *)
Theorem X12_recent_views_recounted :
  forall s : State,
    isUpdateRunning s = false ->
    readyState s = 1 ->
    (forall n c, faults s n c = None) ->
    NoDup (map _id (products s)) ->
    (exists v, In v (productViews s) /\ (sevenDaysAgo s <= timestamp v)%Z) ->
    let r := updateRecentViews s in
    fst r = Returned (length (modifiedProducts s))
    /\ ((forall p, In p (products s) -> updatedAt p <> now s) ->
        fst r = Returned (length (products s)))
    /\ products (snd r)
       = map (fun p => mkProduct (_id p)
                         (recentCount (productViews s) (sevenDaysAgo s)
                                      (_id p))
                         (now s))
             (products s)
    /\ stale (snd r) = []
    /\ productViews (snd r) = productViews s
    /\ isUpdateRunning (snd r) = false.
Proof.
  intros s Hidle Hrs Hf Hnd (v & Hv & Hrecent) r.
  assert (Hcount : forall l : list Product,
             (forall p, In p l -> updatedAt p <> now s) ->
             length (filter
                       (fun p => negb ((recentViews p
                                        =? recentCount (productViews s)
                                             (sevenDaysAgo s) (_id p))
                                       && (updatedAt p =? now s)%Z)) l)
             = length l).
  { induction l as [|p l IH]; intros Hl; [reflexivity|].
    cbn [filter].
    assert (Hp : (updatedAt p =? now s)%Z = false)
      by (apply Z.eqb_neq, Hl; left; reflexivity).
    rewrite Hp, andb_false_r. cbn [negb length]. f_equal.
    apply IH. intros q Hq. apply Hl. right. exact Hq. }
  subst r.
  rewrite (updateRecentViews_idle s Hidle).
  rewrite (updateRecentViewsCount_run (set_isUpdateRunning true s) Hrs Hf).
  cbv zeta.
  cbn [sevenDaysAgo productViews set_isUpdateRunning products trace now].
  set (matching := filter (fun v => (sevenDaysAgo s <=? timestamp v)%Z)
                          (productViews s)).
  set (ids := JsSet.addAll JsSet.empty (map productId matching)).
  set (rows := map (fun id =>
                      (id, length (filter (fun v => String.eqb (productId v) id)
                                          matching))) ids).
  set (ops := map (fun item => UpdateOne (fst item) (snd item)) rows
              ++ [UpdateManyNin (map fst rows) 0]).
  assert (Hrows : (length rows =? 0) = false).
  { apply Nat.eqb_neq. subst rows. rewrite length_map.
    assert (Hin : In (productId v) ids).
    { subst ids. apply In_JsSet_addAll. right. apply in_map.
      subst matching. apply filter_In. split; [exact Hv|].
      apply Z.leb_le. exact Hrecent. }
    destruct ids; [destruct Hin | cbn; lia]. }
  rewrite Hrows.
  rewrite (bulkWrite_pointwise (now s) ops (products s) 0 Hnd).
  cbn [fst snd].
  assert (Hsteps : map (steps (now s) ops) (products s)
                   = map (fun p => mkProduct (_id p)
                                     (recentCount (productViews s)
                                                  (sevenDaysAgo s) (_id p))
                                     (now s))
                         (products s)).
  { apply map_ext. intros p.
    apply (job_pointwise (productViews s) (sevenDaysAgo s) (now s) p). }
  assert (Hchanges : list_sum (map (changes (now s) ops) (products s))
                     = length (modifiedProducts s)).
  { unfold modifiedProducts. rewrite length_filter_sum. f_equal.
    apply map_ext. intros p.
    destruct (job_pointwise (productViews s) (sevenDaysAgo s) (now s) p)
      as [_ Hc].
    cbv zeta in Hc. fold matching ids rows ops in Hc. rewrite Hc.
    unfold modified.
    destruct ((recentViews p =? _) && (updatedAt p =? now s)%Z);
      reflexivity. }
  rewrite Hsteps, Hchanges.
  split; [f_equal; lia|].
  split.
  { intros Hstamp. f_equal. unfold modifiedProducts.
    rewrite (Hcount _ Hstamp). lia. }
  split; [reflexivity|].
  split; [|split; reflexivity].
  unfold stale. cbn [products productViews sevenDaysAgo set_products
                     set_isUpdateRunning set_trace].
  clear. induction (products s) as [|p ps IH]; [reflexivity|].
  cbn [map filter _id recentViews]. rewrite Nat.eqb_refl. exact IH.
Qed.

(** The first product was viewed twice this week and says 0; the second
    was not viewed and says 0 already.  One counter changes, yet the
    run reports 2 products updated: both are stamped. *)
Lemma X12_recent_views_recounted_witness :
  fst (updateRecentViews viewed) = Returned 2
  /\ products (snd (updateRecentViews viewed))
     = [mkProduct "65f0c0ffee" 2 1000; mkProduct "65f0c0ffef" 0 1000]
  /\ length (stale viewed) = 1.
Proof.
  destruct (X12_recent_views_recounted viewed) as (_ & H1 & H2 & _).
  - reflexivity.
  - reflexivity.
  - intros n c. reflexivity.
  - repeat constructor; simpl; intuition discriminate.
  - exists (mkProductView "65f0c0ffee" 900). split; [simpl; auto|].
    simpl. lia.
  - rewrite H1, H2.
    + repeat split; vm_compute; reflexivity.
    + intros p [<-|[<-|[]]]; discriminate.
Defined.

(** X13.  When no view is at most seven days old, the service returns
    0 after the aggregation and issues no write: every counter keeps
    the value it had, also a counter that is not zero although its
    product has no recent view. *)
Theorem X13_recent_views_left_stale :
  forall s : State,
    isUpdateRunning s = false ->
    readyState s = 1 ->
    (forall n c, faults s n c = None) ->
    (forall v, In v (productViews s) -> (timestamp v < sevenDaysAgo s)%Z) ->
    updateRecentViews s
    = (Returned 0,
       set_trace (trace s ++ [ProductViewAggregate (sevenDaysAgo s)]) s).
Proof.
  intros s Hidle Hrs Hf Hold.
  rewrite (updateRecentViews_idle s Hidle).
  rewrite (updateRecentViewsCount_run (set_isUpdateRunning true s) Hrs Hf).
  cbv zeta. cbn [sevenDaysAgo productViews set_isUpdateRunning products trace].
  assert (Hm : filter (fun v => (sevenDaysAgo s <=? timestamp v)%Z)
                      (productViews s) = []).
  { induction (productViews s) as [|v vs IH]; [reflexivity|].
    cbn [filter].
    assert (Hv : (sevenDaysAgo s <=? timestamp v)%Z = false).
    { apply Z.leb_gt. apply Hold. left. reflexivity. }
    rewrite Hv. apply IH. intros x Hx. apply Hold. right. exact Hx. }
  rewrite Hm. cbn [map JsSet.addAll JsSet.empty fold_left length Nat.eqb].
  destruct s; cbn in *. subst. reflexivity.
Qed.

(** The only view is from last month: the counter that says 5 still
    says 5, and the job reports 0 products updated. *)
Lemma X13_recent_views_left_stale_witness :
  fst (updateRecentViews quiet) = Returned 0
  /\ products (snd (updateRecentViews quiet)) = products quiet
  /\ stale (snd (updateRecentViews quiet)) = [mkProduct "65f0c0ffef" 5 60].
Proof.
  rewrite (X13_recent_views_left_stale quiet).
  - repeat split; reflexivity.
  - reflexivity.
  - reflexivity.
  - intros n c. reflexivity.
  - intros v [<-|[]]. simpl. lia.
Defined.

(** X14.  [updateRecentViews] never throws.  While a run is in
    progress it returns 0 and issues no request; when the database is
    not connected, or a request is rejected, it returns 0 as well and
    writes nothing; and every run that was not skipped leaves the flag
    reset. *)
Theorem X14_recent_views_update_never_throws :
  forall s : State,
    (exists n, fst (updateRecentViews s) = Returned n)
    /\ (isUpdateRunning s = true -> updateRecentViews s = (Returned 0, s))
    /\ (isUpdateRunning s = false ->
        isUpdateRunning (snd (updateRecentViews s)) = false)
    /\ (readyState s <> 1 ->
        fst (updateRecentViews s) = Returned 0
        /\ products (snd (updateRecentViews s)) = products s
        /\ trace (snd (updateRecentViews s)) = trace s)
    /\ (forall e,
           faults s (length (trace s)) (ProductViewAggregate (sevenDaysAgo s))
           = Some e ->
           fst (updateRecentViews s) = Returned 0
           /\ products (snd (updateRecentViews s)) = products s).
Proof.
  intros s.
  assert (Hcases : isUpdateRunning s = false ->
            exists o s',
              updateRecentViewsCount (set_isUpdateRunning true s) = (o, s')
              /\ o <> OutOfFuel
              /\ updateRecentViews s
                 = (Returned (match o with Returned n => n | _ => 0 end),
                    set_isUpdateRunning false s')).
  { intros Hidle. rewrite (updateRecentViews_idle s Hidle).
    pose proof (updateRecentViewsCount_total (set_isUpdateRunning true s))
      as Ht.
    destruct (updateRecentViewsCount (set_isUpdateRunning true s))
      as [[n|e|] s']; do 2 eexists;
      (split; [reflexivity|]); (split; [exact Ht|]);
      first [reflexivity | exfalso; apply Ht; reflexivity]. }
  assert (Hdis : forall s0 : State, readyState s0 <> 1 ->
            updateRecentViewsCount s0
            = (Thrown (DatabaseError "Database connection is not established"),
               s0)).
  { intros s0 H0. unfold updateRecentViewsCount, executeDbOperation,
      Any.executeDbOperation, tryCatch, bind, get.
    apply Nat.eqb_neq in H0. rewrite H0. reflexivity. }
  split; [|split; [|split; [|split]]].
  - destruct (isUpdateRunning s) eqn:Hrun.
    + rewrite (updateRecentViews_busy s Hrun). eexists. reflexivity.
    + destruct (Hcases eq_refl) as (o & s' & _ & _ & E).
      rewrite E. eexists. reflexivity.
  - apply updateRecentViews_busy.
  - intros Hidle. destruct (Hcases Hidle) as (o & s' & _ & _ & E).
    rewrite E. reflexivity.
  - intros Hrs. destruct (isUpdateRunning s) eqn:Hrun.
    + rewrite (updateRecentViews_busy s Hrun). auto.
    + rewrite (updateRecentViews_idle s Hrun).
      rewrite (Hdis (set_isUpdateRunning true s) Hrs). auto.
  - intros e He. destruct (isUpdateRunning s) eqn:Hrun.
    + rewrite (updateRecentViews_busy s Hrun). auto.
    + rewrite (updateRecentViews_idle s Hrun).
      destruct (Nat.eq_dec (readyState s) 1) as [Hrs|Hrs].
      * assert (E : updateRecentViewsCount (set_isUpdateRunning true s)
                    = (Thrown (classifyDbError e),
                       set_trace
                         (trace s ++ [ProductViewAggregate (sevenDaysAgo s)])
                         (set_isUpdateRunning true s))).
        { unfold updateRecentViewsCount, executeDbOperation,
            Any.executeDbOperation, tryCatch, bind at 1, get at 1.
          cbn [readyState set_isUpdateRunning]. rewrite Hrs.
          cbn [Nat.eqb negb].
          unfold bind at 1, get at 1. unfold bind at 1.
          unfold ProductView_aggregate, bind at 1, call.
          cbn [sevenDaysAgo trace faults set_isUpdateRunning].
          rewrite He. reflexivity. }
        rewrite E. auto.
      * rewrite (Hdis (set_isUpdateRunning true s) Hrs). auto.
Qed.

(** With the database disconnected a stale counter stays and the job
    reports 0. *)
Lemma X14_recent_views_update_never_throws_witness :
  fst (updateRecentViews
         (mkState [mkProduct "65f0c0ffef" 5 60] [] 0 500 1000 []
                  (fun _ _ => None)
                  false))
  = Returned 0.
Proof.
  destruct (X14_recent_views_update_never_throws
              (mkState [mkProduct "65f0c0ffef" 5 60] [] 0 500 1000 []
                       (fun _ _ => None) false))
    as (_ & _ & _ & H & _).
  apply H. simpl. discriminate.
Defined.

End RecentViewsFacts.

(* ================================================================== *)
(** * MediaService and the page-media handlers *)

Section MediaStoreFacts.
Import Any MediaStore.

Lemma prefix_app (p k : string) : String.prefix p (p ++ k) = true.
Proof.
  induction p as [|c p IH]; cbn [String.append String.prefix].
  - destruct k; reflexivity.
  - rewrite IH. destruct (ascii_dec c c); [reflexivity | contradiction].
Qed.

Lemma dropChars_app (p k : string) :
  dropChars (String.length p) (p ++ k) = k.
Proof.
  induction p as [|c p IH]; cbn [String.length String.append dropChars].
  - destruct k; reflexivity.
  - exact IH.
Qed.

Lemma string_app_assoc (a b c : string) :
  ((a ++ b) ++ c)%string = (a ++ b ++ c)%string.
Proof.
  induction a as [|x a IH]; [reflexivity|].
  cbn [String.append]. f_equal. exact IH.
Qed.

(** Cutting the CDN prefix off a public URL gives the key back. *)
Lemma cutFirst_prefix (p k : string) : cutFirst p (p ++ k) = k.
Proof.
  destruct (p ++ k)%string eqn:E; cbn [cutFirst].
  - rewrite <- E at 1. rewrite prefix_app.
    rewrite <- E. apply dropChars_app.
  - rewrite <- E at 1. rewrite prefix_app.
    rewrite <- E. apply dropChars_app.
Qed.

(** A string without the pattern is left as it is. *)
Lemma cutFirst_absent (p : string) :
  forall s, includes s p = false -> cutFirst p s = s.
Proof.
  induction s as [|c s IH]; cbn [includes cutFirst]; intros H;
    apply orb_false_iff in H; destruct H as [H1 H2]; rewrite H1.
  - reflexivity.
  - f_equal. apply IH, H2.
Qed.

Lemma deleteFile_run fileUrl s :
  let key := cutFirst (CDN_URL s ++ "/") fileUrl in
  let s1 := set_trace (trace s ++ [DeleteObject key]) s in
  deleteFile fileUrl s
  = match faults s (length (trace s)) (DeleteObject key) with
    | Some e =>
        (Thrown (BadRequestError ("Failed to delete file: " ++ message e)),
         s1)
    | None =>
        (Returned true,
         set_bucket (filter (fun k => negb (String.eqb k key)) (bucket s)) s1)
    end.
Proof.
  cbv zeta. unfold deleteFile, tryCatch, bind, get, r2_deleteObject, bind,
    call, modify, ret, throw.
  destruct (faults s (length (trace s))
              (DeleteObject (cutFirst (CDN_URL s ++ "/") fileUrl)));
    reflexivity.
Qed.

(** X15.  [MediaService.deleteFile] takes a public URL or a bare key:
    the URL [getPublicUrls] makes of a key and the key itself (when it
    does not contain the CDN prefix) lead to the same delete request for
    that key; afterwards the bucket does not hold the key (whether or
    not it did); and a rejected request surfaces as a 400
    [BadRequestError] carrying the storage's message, the bucket
    unchanged. *)
Theorem X15_deleteFile_url_or_key :
  forall (s : State) (key : string),
    includes key (CDN_URL s ++ "/") = false ->
    let url := (CDN_URL s ++ "/" ++ key)%string in
    let s1 := set_trace (trace s ++ [DeleteObject key]) s in
    fst (getPublicUrls [key] s) = Returned [url]
    /\ deleteFile url s = deleteFile key s
    /\ (faults s (length (trace s)) (DeleteObject key) = None ->
        deleteFile key s
        = (Returned true,
           set_bucket (filter (fun k => negb (String.eqb k key)) (bucket s))
                      s1)
        /\ ~ In key (bucket (snd (deleteFile key s))))
    /\ (forall e,
           faults s (length (trace s)) (DeleteObject key) = Some e ->
           deleteFile key s
           = (Thrown (BadRequestError
                        ("Failed to delete file: " ++ message e)), s1)).
Proof.
  intros s key Habs url s1.
  assert (Hurl : cutFirst (CDN_URL s ++ "/") url = key).
  { subst url. rewrite <- string_app_assoc. apply cutFirst_prefix. }
  assert (Hkey : cutFirst (CDN_URL s ++ "/") key = key)
    by (apply cutFirst_absent, Habs).
  split; [reflexivity|].
  split; [rewrite !deleteFile_run; cbv zeta; rewrite Hurl, Hkey;
          reflexivity|].
  split.
  - intros Hf. rewrite deleteFile_run. cbv zeta. rewrite Hkey, Hf.
    split; [reflexivity|]. cbn [snd bucket set_bucket].
    intros Hin. apply filter_In in Hin. destruct Hin as [_ Hin].
    rewrite String.eqb_refl in Hin. discriminate.
  - intros e Hf. rewrite deleteFile_run. cbv zeta. rewrite Hkey, Hf.
    reflexivity.
Qed.

(** The page banner, by URL and by key. *)
Lemma X15_deleteFile_url_or_key_witness :
  deleteFile "https://cdn.example.com/data/banner.png" pages
  = deleteFile "data/banner.png" pages
  /\ bucket (snd (deleteFile "data/banner.png" pages))
     = ["img/product/65f0c0ffee/1.webp"].
Proof.
  destruct (X15_deleteFile_url_or_key pages "data/banner.png")
    as (_ & H1 & H2 & _).
  - reflexivity.
  - split; [exact H1|]. destruct (H2 eq_refl) as [E _].
    rewrite E. reflexivity.
Defined.

(** X16.  [MediaService.listObjects] sends one list request, without a
    continuation token, and answers with the first page only: the
    first [serverMaxKeys] keys under the prefix, in bucket order.  With
    more keys than a page holds the rest is left out, and
    [listPageMedia] shows exactly that page.  A rejected request
    surfaces as a 500 [InternalServerError]. *)
Theorem X16_listObjects_first_page_only :
  forall (s : State) (prefix : string),
    let under := filter (fun k => startsWith k prefix) (bucket s) in
    let s1 := set_trace (trace s ++ [ListObjectsV2 prefix]) s in
    (faults s (length (trace s)) (ListObjectsV2 prefix) = None ->
     listObjects prefix s = (Returned (firstn (serverMaxKeys s) under), s1)
     /\ length (firstn (serverMaxKeys s) under)
        = Nat.min (serverMaxKeys s) (length under)
     /\ (prefix = PAGE_MEDIA_PREFIX ->
         listPageMedia s
         = (Returned
              (mkHttpResponse 200
                 (successResponse "Successfully listed page media files"
                    (Some [("pageMediaKeys",
                            JStrings (firstn (serverMaxKeys s) under))])
                    None)), s1)))
    /\ (forall e,
           faults s (length (trace s)) (ListObjectsV2 prefix) = Some e ->
           listObjects prefix s
           = (Thrown (InternalServerError
                        ("Failed to list objects: " ++ message e)), s1)).
Proof.
  intros s prefix under s1.
  assert (Hrun : listObjects prefix s
                 = match faults s (length (trace s)) (ListObjectsV2 prefix)
                   with
                   | Some e =>
                       (Thrown (InternalServerError
                                  ("Failed to list objects: " ++ message e)),
                        s1)
                   | None => (Returned (firstn (serverMaxKeys s) under), s1)
                   end).
  { unfold listObjects, tryCatch, bind, r2_listObjectsV2, bind, call, get,
      ret, throw.
    destruct (faults s (length (trace s)) (ListObjectsV2 prefix));
      reflexivity. }
  split.
  - intros Hf. rewrite Hrun, Hf. split; [reflexivity|].
    split; [apply length_firstn|].
    intros ->. unfold listPageMedia, bind. fold PAGE_MEDIA_PREFIX.
    rewrite Hrun, Hf. reflexivity.
  - intros e Hf. rewrite Hrun, Hf. reflexivity.
Qed.

(** Two page files behind a storage that lists one key a page: the
    second file is not listed. *)
Lemma X16_listObjects_first_page_only_witness :
  fst (listObjects PAGE_MEDIA_PREFIX smallPages) = Returned ["data/banner.png"].
Proof.
  destruct (X16_listObjects_first_page_only smallPages PAGE_MEDIA_PREFIX)
    as [H _].
  destruct (H eq_refl) as [E _]. rewrite E. reflexivity.
Defined.






End MediaStoreFacts.

(* ================================================================== *)
(** * The product handlers of the media controller *)

Section ProductMediaFacts.
Import Any MediaStore.


Lemma getProductById_reads s id p :
  isValidObjectId s id = true ->
  readyState s = 1 ->
  (forall n c, isLookup c = true -> faults s n c = None) ->
  find (hasId id) (products s) = Some p ->
  getProductById id s = (Returned p, set_trace (trace s ++ lookupCalls p) s).
Proof.
  intros Hv Hrs Hacc Hp.
  assert (Hid : _id p = id).
  { apply find_some in Hp. destruct Hp as [_ Hp].
    apply String.eqb_eq. exact Hp. }
  unfold getProductById, bind at 1, get at 1. rewrite Hv. cbn [negb].
  unfold executeDbOperation, Any.executeDbOperation, tryCatch.
  unfold bind at 1, get at 1. rewrite Hrs. cbn [Nat.eqb negb].
  unfold bind at 1. unfold Product_findById, bind at 1, call.
  rewrite Hacc by reflexivity. unfold bind at 1, get at 1, ret at 1.
  cbn [products set_trace]. rewrite Hp.
  unfold lookupCalls. rewrite Hid.
  destruct (0 <? length (categoryIds p)).
  - unfold bind, Category_find_idIn, call. cbn [faults trace set_trace].
    rewrite Hacc by reflexivity. unfold ret.
    destruct s; cbn. rewrite <- app_assoc. reflexivity.
  - unfold bind, ret. reflexivity.
Qed.

Lemma getProductById_ok s id p :
  isValidObjectId s id = true ->
  readyState s = 1 ->
  onlyStorageRejects s ->
  find (hasId id) (products s) = Some p ->
  getProductById id s = (Returned p, set_trace (trace s ++ lookupCalls p) s).
Proof.
  intros Hv Hrs Hacc Hp. apply getProductById_reads; try assumption.
  intros n c Hc. apply Hacc. destruct c; try discriminate Hc; reflexivity.
Qed.

Lemma updateProduct_ok s id update p :
  isValidObjectId s id = true ->
  readyState s = 1 ->
  onlyStorageRejects s ->
  find (hasId id) (products s) = Some p ->
  updateProduct id update s
  = (Returned (applyUpdate update p),
     set_products (updateFirst id update (products s))
       (set_trace (trace s ++ [ProductFindByIdAndUpdate id update]) s)).
Proof.
  intros Hv Hrs Hacc Hp.
  unfold updateProduct, bind at 1, get at 1. rewrite Hv. cbn [negb].
  unfold executeDbOperation, Any.executeDbOperation, tryCatch.
  unfold bind at 1, get at 1. rewrite Hrs. cbn [Nat.eqb negb].
  unfold bind at 1. unfold Product_findByIdAndUpdate, bind at 1, call.
  rewrite Hacc by reflexivity. unfold bind at 1, get at 1.
  cbn [products set_trace]. rewrite Hp.
  unfold bind, modify, ret. reflexivity.
Qed.


Lemma filter_inKeys_filter (f : string -> bool) (l : list string) :
  filter (fun k => negb (inKeys (filter f l) k)) l
  = filter (fun k => negb (f k)) l.
Proof.
  apply filter_ext_in. intros k Hk. f_equal.
  destruct (f k) eqn:E.
  - apply inKeys_In. apply filter_In. split; assumption.
  - destruct (inKeys (filter f l) k) eqn:E'; [|reflexivity].
    apply inKeys_In in E'. apply filter_In in E'. destruct E'. congruence.
Qed.

(** Both invalidations, accepted. *)
Lemma invalidateProduct_ok s id :
  onlyStorageRejects s ->
  exists t,
    invalidateProduct id s
    = (Returned tt, set_cache (invalidated s id) (set_trace (trace s ++ t) s))
    /\ Forall (fun c => isCacheCall c = true) t
    /\ In (CacheDel [(PRD_DET ++ id)%string]) t.
Proof.
  intros Hacc.
  unfold invalidateProduct, bind at 1, cache_del, bind at 1, call.
  rewrite Hacc by reflexivity. unfold modify at 1.
  unfold cache_delByPattern, bind at 1, call.
  cbn [faults trace set_trace set_cache].
  rewrite Hacc by reflexivity.
  unfold bind at 1, get at 1. unfold bind at 1, get at 1.
  cbn [keyMatches cache set_trace set_cache].
  set (c1 := filter (fun k => negb (String.eqb k (PRD_DET ++ id)%string))
                    (cache s)).
  set (keys := filter (keyMatches s (PRD_LST ++ "*")%string) c1).
  assert (Hinv : invalidated s id
                 = filter (fun k => negb (inKeys keys k)) c1).
  { unfold invalidated. fold c1. subst keys.
    symmetry. apply filter_inKeys_filter. }
  destruct (0 <? length keys) eqn:Ek.
  - unfold bind, call, modify. cbn [faults trace set_trace set_cache].
    rewrite Hacc by reflexivity. cbn [cache set_cache set_trace].
    exists [CacheDel [(PRD_DET ++ id)%string];
            CacheKeys (PRD_LST ++ "*")%string; CacheDel keys].
    split.
    + rewrite Hinv. destruct s; cbn. rewrite <- !app_assoc. reflexivity.
    + split; [repeat constructor | left; reflexivity].
  - unfold ret.
    exists [CacheDel [(PRD_DET ++ id)%string];
            CacheKeys (PRD_LST ++ "*")%string].
    split.
    + rewrite Hinv.
      assert (Hnil : keys = []).
      { apply Nat.ltb_ge in Ek. destruct keys; [reflexivity | cbn in Ek; lia]. }
      rewrite Hnil.
      assert (Hid : filter (fun k => negb (inKeys [] k)) c1 = c1).
      { clear. induction c1 as [|x l IH]; [reflexivity|].
        cbn [filter inKeys existsb negb]. f_equal. exact IH. }
      rewrite Hid. destruct s; cbn. rewrite <- !app_assoc. reflexivity.
    + split; [repeat constructor | left; reflexivity].
Qed.


(** The handler up to the point where the product is at hand. *)
Lemma handler_opening (s : State) id :
  id <> "" ->
  isValidObjectId s id = true ->
  isEmpty id || negb (isValidObjectId s id) = false.
Proof.
  intros Hid Hv. rewrite Hv. destruct id; [contradiction|reflexivity].
Qed.






(** X22.  Deleting the thumbnail of a product whose recorded thumbnail
    does not start with the thumbnail prefix (an external URL, but also
    the public URL of a stored thumbnail, or a key under another
    prefix): the storage is never asked and the bucket is as it was;
    the reference is removed from the product, its cache entries are
    invalidated, and the answer is a 200 carrying the old value. *)
Theorem X22_deleteProductThumbnail_unmanaged_reference :
  forall (s : State) id p t,
    id <> "" ->
    isValidObjectId s id = true ->
    readyState s = 1 ->
    onlyStorageRejects s ->
    find (hasId id) (products s) = Some p ->
    thumbnail p = Some t ->
    t <> "" ->
    startsWith t PRODUCT_THUMBNAIL_PREFIX = false ->
    let r := deleteProductThumbnail id s in
    fst r
    = Returned
        (mkHttpResponse 200
           (successResponse "Removed thumbnail reference from product"
              (Some [("thumbnailDeleted", JBool false);
                     ("referenceRemoved", JBool true);
                     ("externalUrl", JString t)])
              None))
    /\ bucket (snd r) = bucket s
    /\ (exists calls,
           trace (snd r)
           = trace s ++ lookupCalls p
             ++ ProductFindByIdAndUpdate id UnsetThumbnail :: calls
           /\ Forall (fun c => isCacheCall c = true) calls)
    /\ products (snd r) = updateFirst id UnsetThumbnail (products s)
    /\ cache (snd r) = invalidated s id.
Proof.
  intros s id p t Hid Hv Hrs Hacc Hp Ht Hne Hstart r.
  pose (s1 := set_trace (trace s ++ lookupCalls p) s).
  pose (s3 := set_products (updateFirst id UnsetThumbnail (products s1))
                (set_trace
                   (trace s1 ++ [ProductFindByIdAndUpdate id UnsetThumbnail])
                   s1)).
  assert (Hacc3 : onlyStorageRejects s3).
  { intros n c Hc. subst s3 s1. cbn. apply Hacc, Hc. }
  destruct (invalidateProduct_ok s3 id Hacc3) as (calls & Hinv & Hcalls & _).
  assert (Hr : r = (Returned
                      (mkHttpResponse 200
                         (successResponse
                            "Removed thumbnail reference from product"
                            (Some [("thumbnailDeleted", JBool false);
                                   ("referenceRemoved", JBool true);
                                   ("externalUrl", JString t)])
                            None)),
                    set_cache (invalidated s3 id)
                              (set_trace (trace s3 ++ calls) s3))).
  { subst r.
    unfold deleteProductThumbnail, bind at 1, get at 1.
    rewrite (handler_opening s id Hid Hv).
    unfold bind at 1. rewrite (getProductById_ok s id p Hv Hrs Hacc Hp).
    rewrite Ht.
    assert (He : isEmpty t = false) by (destruct t; [contradiction|reflexivity]).
    rewrite He, Hstart. fold s1.
    unfold bind at 1.
    rewrite (updateProduct_ok s1 id UnsetThumbnail p Hv Hrs).
    2:{ intros n c Hc. apply Hacc, Hc. }
    2:{ exact Hp. }
    fold s3. unfold bind at 1. rewrite Hinv. unfold ret. reflexivity. }
  clearbody r. subst r. cbn [fst snd].
  split; [reflexivity|].
  split; [reflexivity|].
  split.
  { exists calls. split; [|exact Hcalls].
    subst s3 s1. cbn. rewrite <- !app_assoc. reflexivity. }
  split; reflexivity.
Qed.

(** The thumbnail is recorded by its public URL: the reference goes,
    the stored object stays. *)
Lemma X22_deleteProductThumbnail_unmanaged_reference_witness :
  products (snd (deleteProductThumbnail lampId linkedShop))
  = [mkProduct lampId None [lampImage1; lampImage2] []]
  /\ bucket (snd (deleteProductThumbnail lampId linkedShop))
     = [lampThumbnail; lampImage1; lampImage2].
Proof.
  destruct (X22_deleteProductThumbnail_unmanaged_reference linkedShop lampId
              (mkProduct lampId (Some lampThumbnailUrl)
                         [lampImage1; lampImage2] [])
              lampThumbnailUrl)
    as (_ & Hbucket & _ & Hprod & _).
  - discriminate.
  - reflexivity.
  - reflexivity.
  - intros n c _. reflexivity.
  - reflexivity.
  - reflexivity.
  - discriminate.
  - reflexivity.
  - split; [rewrite Hprod | rewrite Hbucket]; reflexivity.
Defined.






End ProductMediaFacts.

(* ================================================================== *)
(** * Category slugs *)

Section CategoriesFacts.
Import Any Categories.

Lemma slugToIdMap_get_none key :
  forall cs acc,
    existsb (hasSlug key) cs = false ->
    fold_left (fun acc cat =>
                 if String.eqb (slug cat) key then Some (_id cat) else acc)
              cs acc = acc.
Proof.
  induction cs as [|c cs IH]; intros acc H; [reflexivity|].
  cbn [existsb] in H. apply orb_false_iff in H. destruct H as [H1 H2].
  cbn [fold_left]. unfold hasSlug in H1. rewrite H1. apply IH, H2.
Qed.

Lemma slugToIdMap_get_some key :
  forall cs acc,
    existsb (hasSlug key) cs = true ->
    exists c,
      In c cs /\ slug c = key
      /\ fold_left (fun acc cat =>
                      if String.eqb (slug cat) key then Some (_id cat) else acc)
                   cs acc = Some (_id c).
Proof.
  induction cs as [|c cs IH]; intros acc H; [discriminate|].
  cbn [fold_left].
  destruct (existsb (hasSlug key) cs) eqn:Er.
  - destruct (IH (if String.eqb (slug c) key then Some (_id c) else acc)
                 eq_refl) as (c' & Hin & Hs & Hf).
    exists c'. split; [right; exact Hin|]. split; [exact Hs | exact Hf].
  - cbn [existsb] in H. rewrite Er, orb_false_r in H.
    rewrite (slugToIdMap_get_none key cs _ Er).
    unfold hasSlug in H. rewrite H. exists c.
    split; [left; reflexivity|]. split; [|reflexivity].
    apply String.eqb_eq, H.
Qed.

(** The lookup table built from the answer of the find request. *)
Lemma slugToIdMap_of_find slugs cs key :
  In key slugs ->
  existsb (hasSlug key) (filter (fun c => inKeys slugs (slug c)) cs)
  = existsb (hasSlug key) cs.
Proof.
  intros Hk. induction cs as [|c cs IH]; [reflexivity|].
  cbn [filter existsb]. unfold hasSlug at 2.
  destruct (String.eqb_spec (slug c) key) as [E|E].
  - assert (Hin : inKeys slugs (slug c) = true)
      by (apply inKeys_In; rewrite E; exact Hk).
    rewrite Hin. cbn [existsb]. unfold hasSlug at 1.
    rewrite E, String.eqb_refl. reflexivity.
  - cbn [orb]. destruct (inKeys slugs (slug c)); [|exact IH].
    cbn [existsb]. unfold hasSlug at 1.
    apply String.eqb_neq in E. rewrite E. exact IH.
Qed.

Lemma slugToIdMap_has_spec slugs cs key :
  In key slugs ->
  slugToIdMap_has (filter (fun c => inKeys slugs (slug c)) cs) key
  = existsb (hasSlug key) cs.
Proof.
  intros Hk. unfold slugToIdMap_has, slugToIdMap_get.
  rewrite <- (slugToIdMap_of_find slugs cs key Hk).
  destruct (existsb (hasSlug key)
                    (filter (fun c => inKeys slugs (slug c)) cs)) eqn:E.
  - destruct (slugToIdMap_get_some key _ None E) as (c & _ & _ & Hf).
    rewrite Hf. reflexivity.
  - rewrite (slugToIdMap_get_none key _ None E). reflexivity.
Qed.

(** A not-found error leaves the classification only when the driver
    raised one. *)
Lemma classifyDbError_not_found e :
  kind (classifyDbError e) = KNotFoundError ->
  kind e = KDocumentNotFoundError \/ kind e = KNamedNotFoundError.
Proof.
  unfold classifyDbError.
  destruct (kind e) eqn:Ek; cbn [ErrorKind_eqb orb andb]; auto;
    try (rewrite Ek; discriminate);
    repeat match goal with
           | |- context [if ?b then _ else _] => destruct b
           | |- context [match keyValue e with _ => _ end] =>
               destruct (keyValue e) as [[|[? ?] ?]|]
           end;
    cbn; discriminate.
Qed.

(** [convertToIds], connected and with its find request accepted. *)
Lemma convertToIds_run slugsOrIds s :
  readyState s = 1 ->
  (forall n c, faults s n c = None) ->
  let ids := filter (isValidObjectId s) slugsOrIds in
  let slugsToLookup :=
    filter (fun item => negb (isValidObjectId s item)) slugsOrIds in
  let notFoundSlugs :=
    filter (fun key => negb (existsb (hasSlug key) (categories s)))
           slugsToLookup in
  let found :=
    filter (fun c => inKeys slugsToLookup (slug c)) (categories s) in
  let s1 := set_trace (trace s ++ [CategoryFindSlugIn slugsToLookup]) s in
  convertToIds slugsOrIds s
  = if length slugsOrIds =? 0 then (Returned [], s)
    else if 0 <? length slugsToLookup
    then if 0 <? length notFoundSlugs
         then (Thrown (classifyDbError
                         (NotFoundError
                            ("Categories not found: "
                             ++ String.concat ", " notFoundSlugs))), s1)
         else (Returned
                 (ids ++ map (fun key =>
                                match slugToIdMap_get found key with
                                | Some id => id
                                | None => ""
                                end) slugsToLookup), s1)
    else (Returned ids, s).
Proof.
  intros Hrs Hf ids slugsToLookup notFoundSlugs found s1.
  unfold convertToIds.
  destruct (length slugsOrIds =? 0); [reflexivity|].
  unfold executeDbOperation, Any.executeDbOperation, tryCatch.
  unfold bind at 1, get at 1. rewrite Hrs. cbn [Nat.eqb negb].
  unfold bind at 1, get at 1. fold ids. fold slugsToLookup.
  destruct (0 <? length slugsToLookup); [|reflexivity].
  unfold bind at 1. unfold Category_find_slugIn, bind at 1, call.
  rewrite Hf. unfold bind at 1, get at 1, ret at 1.
  cbn [categories set_trace]. fold found. fold s1.
  assert (Hnf : filter (fun key => negb (slugToIdMap_has found key))
                       slugsToLookup = notFoundSlugs).
  { subst notFoundSlugs. apply filter_ext_in. intros key Hk.
    subst found. rewrite (slugToIdMap_has_spec _ _ _ Hk). reflexivity. }
  rewrite Hnf.
  destruct (0 <? length notFoundSlugs); reflexivity.
Qed.

(** What [executeDbOperation] throws, over any state. *)
Lemma executeDbOperation_throws {A} (operation : Run A) (s : State) e s' :
  executeDbOperation operation s = (Thrown e, s') ->
  e = DatabaseError "Database connection is not established"
  \/ exists e0, operation s = (Thrown e0, s') /\ e = classifyDbError e0.
Proof.
  unfold executeDbOperation, Any.executeDbOperation, tryCatch, bind, get.
  destruct (negb (readyState s =? 1)).
  - unfold throw. intros H. inversion H. left. reflexivity.
  - destruct (operation s) as [[a|e0|] s0]; intros H; inversion H.
    right. exists e0. split; reflexivity.
Qed.

(** Unless the driver raises a not-found error of its own, no error of
    [convertToIds] is a [NotFoundError]. *)
Lemma convertToIds_never_not_found slugsOrIds s e s' :
  noDriverNotFound s ->
  convertToIds slugsOrIds s = (Thrown e, s') ->
  isNotFoundError e = false.
Proof.
  intros Hnd. unfold convertToIds.
  destruct (length slugsOrIds =? 0); [discriminate|].
  intros H. apply executeDbOperation_throws in H.
  destruct H as [->|(e0 & Hop & ->)]; [reflexivity|].
  assert (Hk : kind e0 <> KDocumentNotFoundError
               /\ kind e0 <> KNamedNotFoundError).
  { revert Hop. unfold bind at 1, get at 1.
    match goal with
    | |- context [if ?b then _ else _] => destruct b
    end; [|discriminate].
    unfold bind at 1. unfold Category_find_slugIn, bind at 1, call.
    match goal with
    | |- context [faults s ?n ?c] =>
        destruct (faults s n c) as [ef|] eqn:Ef
    end.
    - intros H. inversion H; subst. eapply Hnd, Ef.
    - unfold bind at 1, get at 1, ret at 1.
      match goal with
      | |- context [if ?b then _ else _] => destruct b
      end; [|discriminate].
      unfold throw. intros H. inversion H; subst. cbn.
      split; discriminate. }
  unfold isNotFoundError.
  destruct (kind (classifyDbError e0)) eqn:E; try reflexivity.
  apply classifyDbError_not_found in E. tauto.
Qed.

(** X18.  Unless the driver raises a not-found error of its own, every
    error of the category filter of [searchProducts] is a 400
    [BadRequestError]: an id that is not an ObjectId, but also a slug
    no category has and a database that is not connected, because
    [convertToIds] runs inside [executeDbOperation], which rethrows
    its [NotFoundError] as a plain [AppError], so the branch that
    rethrows not-found errors is never taken. *)
Theorem X18_category_filter_errors_are_400 :
  forall (s : State) categoryIds categorySlugs e s',
    noDriverNotFound s ->
    resolveCategoryIds categoryIds categorySlugs s = (Thrown e, s') ->
    kind e = KBadRequestError /\ statusCode e = 400%Z.
Proof.
  intros s categoryIds categorySlugs e s' Hnd.
  unfold resolveCategoryIds, bind at 1, get at 1. unfold bind at 1.
  assert (Hslugs : forall resolved (s0 : State),
             faults s0 = faults s ->
             match categorySlugs with
             | Some categorySlugs =>
                 if 0 <? length categorySlugs
                 then
                   tryCatch
                     (bind (convertToIds categorySlugs)
                           (fun slugIds => ret (resolved ++ slugIds)))
                     (fun error =>
                        if isNotFoundError error
                        then throw error
                        else throw (BadRequestError
                                      ("Error processing category slugs: "
                                       ++ message error)))
                 else ret resolved
             | None => ret resolved
             end s0 = (Thrown e, s') ->
             kind e = KBadRequestError /\ statusCode e = 400%Z).
  { intros resolved s0 Hs0. destruct categorySlugs as [slugs|]; [|discriminate].
    destruct (0 <? length slugs); [|discriminate].
    unfold tryCatch, bind.
    destruct (convertToIds slugs s0) as [[ids|e0|] s1] eqn:Ec;
      try discriminate.
    assert (Hn : isNotFoundError e0 = false).
    { eapply convertToIds_never_not_found; [|exact Ec].
      intros n c ef. rewrite Hs0. apply Hnd. }
    rewrite Hn. unfold throw. intros H. inversion H. split; reflexivity. }
  destruct categoryIds as [ids|]; [|apply Hslugs; reflexivity].
  destruct (0 <? length ids); [|apply Hslugs; reflexivity].
  destruct (find (fun categoryId => negb (isValidObjectId s categoryId)) ids).
  - unfold throw. intros H. inversion H. split; reflexivity.
  - apply Hslugs. reflexivity.
Qed.

(** The slug "sofas" belongs to no category: the search answers 400,
    with the message of the not-found error inside. *)
Lemma X18_category_filter_errors_are_400_witness :
  fst (resolveCategoryIds None (Some ["lamps"; "sofas"]) shop)
  = Thrown (BadRequestError
              "Error processing category slugs: Categories not found: sofas")
  /\ statusCode
       (BadRequestError
          "Error processing category slugs: Categories not found: sofas")
     = 400%Z.
Proof.
  assert (E : resolveCategoryIds None (Some ["lamps"; "sofas"]) shop
              = (Thrown (BadRequestError
                           "Error processing category slugs: Categories not found: sofas"),
                 set_trace [CategoryFindSlugIn ["lamps"; "sofas"]] shop))
    by (vm_compute; reflexivity).
  split; [rewrite E; reflexivity|].
  apply (X18_category_filter_errors_are_400 shop None
           (Some ["lamps"; "sofas"]) _ _
           ltac:(intros n c e H; discriminate H) E).
Defined.

(** X19.  Against a connected database that accepts the find request,
    [convertToIds] answers, for a list in which every item is an
    ObjectId or the slug of some category, with as many ids as it was
    given items: first the items that are ObjectIds, in their order,
    then one id per slug, in the order of the slugs, each the id of a
    category carrying that slug.  The order of the input is not kept
    when a slug comes before an id. *)
Theorem X19_convertToIds_resolves :
  forall (s : State) (slugsOrIds : list string),
    readyState s = 1 ->
    (forall n c, faults s n c = None) ->
    (forall item, In item slugsOrIds ->
                  isValidObjectId s item = false ->
                  existsb (hasSlug item) (categories s) = true) ->
    exists fromSlugs,
      fst (convertToIds slugsOrIds s)
      = Returned (filter (isValidObjectId s) slugsOrIds ++ fromSlugs)
      /\ length (filter (isValidObjectId s) slugsOrIds ++ fromSlugs)
         = length slugsOrIds
      /\ Forall2 (fun key id =>
                    exists c, In c (categories s)
                              /\ slug c = key /\ _id c = id)
                 (filter (fun item => negb (isValidObjectId s item))
                         slugsOrIds)
                 fromSlugs.
Proof.
  intros s slugsOrIds Hrs Hf Hall.
  rewrite (convertToIds_run slugsOrIds s Hrs Hf). cbv zeta.
  set (ids := filter (isValidObjectId s) slugsOrIds).
  set (slugsToLookup :=
         filter (fun item => negb (isValidObjectId s item)) slugsOrIds).
  set (found := filter (fun c => inKeys slugsToLookup (slug c))
                       (categories s)).
  assert (Hlen : length ids + length slugsToLookup = length slugsOrIds).
  { subst ids slugsToLookup. clear.
    induction slugsOrIds as [|x l IH]; [reflexivity|].
    cbn [filter]. destruct (isValidObjectId s x); cbn [negb length]; lia. }
  assert (Hnone : filter (fun key =>
                            negb (existsb (hasSlug key) (categories s)))
                         slugsToLookup = []).
  { assert (H : forall l,
               (forall k, In k l -> existsb (hasSlug k) (categories s) = true) ->
               filter (fun key => negb (existsb (hasSlug key) (categories s)))
                      l = []).
    { induction l as [|x l IH]; intros Hl; [reflexivity|].
      cbn [filter]. rewrite (Hl x (or_introl eq_refl)). cbn [negb].
      apply IH. intros k Hk. apply Hl. right. exact Hk. }
    apply H. intros k Hk. subst slugsToLookup.
    apply filter_In in Hk. destruct Hk as [Hin Hv].
    apply Hall; [exact Hin|]. apply negb_true_iff, Hv. }
  rewrite Hnone. change (0 <? length (@nil string)) with false. cbv iota.
  assert (Hlook : Forall2 (fun key id =>
                             exists c, In c (categories s)
                                       /\ slug c = key /\ _id c = id)
                          slugsToLookup
                          (map (fun key =>
                                  match slugToIdMap_get found key with
                                  | Some id => id
                                  | None => ""
                                  end) slugsToLookup)).
  { assert (H : forall l,
               (forall k, In k l -> In k slugsToLookup) ->
               Forall2 (fun key id =>
                          exists c, In c (categories s)
                                    /\ slug c = key /\ _id c = id)
                       l
                       (map (fun key =>
                               match slugToIdMap_get found key with
                               | Some id => id
                               | None => ""
                               end) l)).
    { induction l as [|x l IH]; intros Hl; [constructor|].
      cbn [map]. constructor.
      - assert (Hx : In x slugsToLookup) by (apply Hl; left; reflexivity).
        assert (Hex : existsb (hasSlug x) found = true).
        { subst found. rewrite (slugToIdMap_of_find _ _ _ Hx).
          subst slugsToLookup. apply filter_In in Hx.
          destruct Hx as [Hin Hv]. apply Hall; [exact Hin|].
          apply negb_true_iff, Hv. }
        destruct (slugToIdMap_get_some x found None Hex)
          as (c & Hc & Hs & Hg).
        unfold slugToIdMap_get. rewrite Hg. exists c.
        subst found. apply filter_In in Hc. tauto.
      - apply IH. intros k Hk. apply Hl. right. exact Hk. }
    apply H. auto. }
  destruct (length slugsOrIds =? 0) eqn:E0.
  - apply Nat.eqb_eq in E0.
    assert (slugsOrIds = []) by (destruct slugsOrIds; [reflexivity | discriminate]).
    subst slugsOrIds. exists []. cbn. repeat split; constructor.
  - destruct (0 <? length slugsToLookup) eqn:E1.
    + eexists. split; [reflexivity|]. split; [|exact Hlook].
      rewrite length_app, length_map. exact Hlen.
    + exists []. rewrite app_nil_r. cbn [fst].
      apply Nat.ltb_ge in E1.
      assert (Hnil : slugsToLookup = [])
        by (destruct slugsToLookup; [reflexivity | cbn in E1; lia]).
      split; [reflexivity|]. rewrite Hnil in *. cbn [length] in Hlen.
      split; [lia | constructor].
Qed.

(** A slug before an id: the id comes first in the answer. *)
Lemma X19_convertToIds_resolves_witness :
  fst (convertToIds ["chairs"; "65f0c0ffee0000000000000a"] shop)
  = Returned ["65f0c0ffee0000000000000a"; "65f0c0ffee0000000000000b"].
Proof.
  destruct (X19_convertToIds_resolves shop
              ["chairs"; "65f0c0ffee0000000000000a"])
    as (fromSlugs & E & _ & _).
  - reflexivity.
  - intros n c. reflexivity.
  - intros item [<-|[<-|[]]] H; [reflexivity | discriminate H].
  - rewrite E. revert E. vm_compute. intros E. inversion E. reflexivity.
Defined.

End CategoriesFacts.
